(** * Crossing-ways validation ([validationCrossingWays])

    A shallow embedding of [validationCrossingWays] and of the properties the
    specification states about it.  JavaScript objects used as dictionaries
    are finite maps, [null]/[undefined] are [None], a thrown exception is
    [None] in the option monad, and the collaborators that live in other
    modules (geometry helpers, localisation, the spatial index, the sort
    routine of the host engine) are section variables. *)

From Stdlib Require Import ZArith QArith Qminmax Qabs String Ascii List Lia.
From stdpp Require Import base option list gmap strings fin_maps pretty.

Local Open Scope string_scope.
Local Open Scope list_scope.
Local Open Scope Z_scope.

(** ** Data model *)

Abbreviation Tags := (gmap string string).

(** A location is a [lon, lat] pair.  Every finite float is a rational and the
    validation only compares coordinates, so they are rationals here. *)
Definition Loc : Type := (Q * Q)%type.

Inductive EntityType := node | way | relation.

Global Instance EntityType_eq_dec : EqDecision EntityType.
Proof. solve_decision. Defined.

Record Member := mkMember { member_id : string; member_role : string }.

(** One record for the duck-typed osmEntity: every entity has [id], [type] and
    [tags]; [loc] is meaningful on nodes, [nodes] on ways, [members] on
    relations. *)
Record Entity := mkEntity {
  id : string;
  type : EntityType;
  tags : Tags;
  loc : Loc;
  nodes : list string;
  members : list Member
}.

Global Instance Q_eq_dec : EqDecision Q.
Proof. solve_decision. Defined.

Global Instance Member_eq_dec : EqDecision Member.
Proof. solve_decision. Defined.

Global Instance Entity_eq_dec : EqDecision Entity.
Proof. solve_decision. Defined.

Inductive FeatureType := building | highway | railway | waterway.

Global Instance FeatureType_eq_dec : EqDecision FeatureType.
Proof. solve_decision. Defined.

(** The string a feature type is in the source. *)
Definition featureTypeName (f : FeatureType) : string :=
  match f with
  | building => "building"
  | highway => "highway"
  | railway => "railway"
  | waterway => "waterway"
  end.

(** [Array.prototype.indexOf] on an array of strings; the needle may be
    [undefined], which no array of the program holds. *)
Fixpoint indexOfFrom (i : Z) (l : list string) (v : string) : Z :=
  match l with
  | [] => -1
  | x :: rest => if String.eqb x v then i else indexOfFrom (i + 1) rest v
  end.

Definition indexOf (l : list string) (v : option string) : Z :=
  match v with
  | Some s => indexOfFrom 0 l s
  | None => -1
  end.

(** ** The versioned feature graph *)

(** Modelled from the spec: the versioned feature graph is an external
    collaborator (section 6); it is a finite map from entity ids to entities,
    [entity] fails on an id that does not resolve, [replace] is a persistent
    update, [childNodes] resolves the node references of a way in order and
    [parentRelations] is the set of relations that have the way as a
    member. *)
Abbreviation Graph := (gmap string Entity).

Definition entity (graph : Graph) (i : string) : option Entity := graph !! i.

Definition hasEntity (graph : Graph) (i : string) : bool :=
  bool_decide (is_Some (graph !! i)).

Definition replace (graph : Graph) (e : Entity) : Graph := <[id e := e]> graph.

Definition childNodes (graph : Graph) (w : Entity) : option (list Entity) :=
  mapM (entity graph) (nodes w).

Definition isParentRelationOf (w r : Entity) : Prop :=
  type r = relation ∧ id w ∈ (member_id <$> members r).

Global Instance isParentRelationOf_dec w r : Decision (isParentRelationOf w r).
Proof. unfold isParentRelationOf. apply _. Defined.

Definition parentRelations (graph : Graph) (w : Entity) : list Entity :=
  filter (isParentRelationOf w) (map_to_list graph).*2.

(** ** Feature classifier *)

Definition hasTag (tags : Tags) (key : string) : bool :=
  bool_decide (tags !! key ≠ None) && bool_decide (tags !! key ≠ Some "no").

Definition tagsImplyIndoors (tags : Tags) : bool :=
  hasTag tags "level" || bool_decide (tags !! "highway" = Some "corridor").

Definition allowsBridge (featureType : FeatureType) : bool :=
  bool_decide (featureType = highway) || bool_decide (featureType = railway).

Definition allowsTunnel (featureType : FeatureType) : bool :=
  bool_decide (featureType = highway) || bool_decide (featureType = railway)
  || bool_decide (featureType = waterway).

Definition allowsStructures (featureType : FeatureType) : bool :=
  allowsBridge featureType || allowsTunnel featureType.

Definition canCover (featureType : FeatureType) : bool :=
  bool_decide (featureType = building).

Definition waterways : list string := ["canal"; "ditch"; "drain"; "river"; "stream"].
Definition ignoredHighways : list string := ["rest_area"; "services"].
Definition ignoredRailways : list string := ["train_wash"].

Definition getFeatureTypeForTags (tags : Tags) : option FeatureType :=
  if hasTag tags "building" then Some building
  else if hasTag tags "area" then None
  else if hasTag tags "highway" && (indexOf ignoredHighways (tags !! "highway") =? -1)
  then Some highway
  else if hasTag tags "railway" && (indexOf ignoredRailways (tags !! "railway") =? -1)
  then Some railway
  else if hasTag tags "waterway" && negb (indexOf waterways (tags !! "waterway") =? -1)
  then Some waterway
  else None.

(** The [for] loop over the parent relations: the first one with a feature
    type. *)
Fixpoint firstRelationWithFeatureType (parentRels : list Entity) : option Entity :=
  match parentRels with
  | [] => None
  | rel :: rest =>
      match getFeatureTypeForTags (tags rel) with
      | Some _ => Some rel
      | None => firstRelationWithFeatureType rest
      end
  end.

Definition getFeatureWithFeatureTypeTagsForWay (w : Entity) (graph : Graph) : Entity :=
  match getFeatureTypeForTags (tags w) with
  | None => default w (firstRelationWithFeatureType (parentRelations graph w))
  | Some _ => w
  end.

Definition getFeatureTypeForCrossingCheck (w : Entity) (graph : Graph) : option FeatureType :=
  getFeatureTypeForTags (tags (getFeatureWithFeatureTypeTagsForWay w graph)).

(** ** Legitimacy rules engine *)

Record CrossCoord := mkCrossCoord {
  edge : string * string;
  point : Loc
}.

Record EdgeCrossing := mkEdgeCrossing {
  ways : Entity * Entity;
  featureTypes : FeatureType * FeatureType;
  edges : (string * string) * (string * string);
  crossPoint : Loc
}.

(** [geoExtent([[minX, minY], [maxX, maxY]])]. *)
Definition Extent : Type := (Loc * Loc)%type.

(** The spatial index: [tree.intersects(extent, graph)]. *)
Record Tree := mkTree { intersects : Extent → Graph → list Entity }.

Section Detection.

(** [way.layer().toString()]: the inferred layer of a way, a method of
    osmWay. *)
Variable layer : Entity → string.

(** [geoLineIntersection(segment1, segment2)] of the geo module: the
    crossing point of two segments, or [null]. *)
Variable geoLineIntersection : Loc * Loc → Loc * Loc → option Loc.

Definition extendTagsByInferredLayer (tags : Tags) (w : Entity) : Tags :=
  if negb (hasTag tags "layer") then <["layer" := layer w]> tags else tags.

Definition isLegitCrossing (way1 : Entity) (featureType1 : FeatureType)
    (way2 : Entity) (featureType2 : FeatureType) (graph : Graph) : bool :=
  let tags1 := tags (getFeatureWithFeatureTypeTagsForWay way1 graph) in
  let tags2 := tags (getFeatureWithFeatureTypeTagsForWay way2 graph) in
  let tags1 := extendTagsByInferredLayer tags1 way1 in
  let tags2 := extendTagsByInferredLayer tags2 way2 in
  if tagsImplyIndoors tags1 && tagsImplyIndoors tags2
     && bool_decide (tags1 !! "level" ≠ tags2 !! "level")
  then true
  else if
    (if allowsBridge featureType1 && allowsBridge featureType2 then
       (hasTag tags1 "bridge" && negb (hasTag tags2 "bridge"))
       || (negb (hasTag tags1 "bridge") && hasTag tags2 "bridge")
       || (hasTag tags1 "bridge" && hasTag tags2 "bridge"
           && bool_decide (tags1 !! "layer" ≠ tags2 !! "layer"))
     else if allowsBridge featureType1 && hasTag tags1 "bridge" then true
     else allowsBridge featureType2 && hasTag tags2 "bridge")
  then true
  else if
    (if allowsTunnel featureType1 && allowsTunnel featureType2 then
       (hasTag tags1 "tunnel" && negb (hasTag tags2 "tunnel"))
       || (negb (hasTag tags1 "tunnel") && hasTag tags2 "tunnel")
       || (hasTag tags1 "tunnel" && hasTag tags2 "tunnel"
           && bool_decide (tags1 !! "layer" ≠ tags2 !! "layer"))
     else if allowsTunnel featureType1 && hasTag tags1 "tunnel" then true
     else allowsTunnel featureType2 && hasTag tags2 "tunnel")
  then true
  else if
    (if canCover featureType1 && canCover featureType2 then
       hasTag tags1 "covered" && hasTag tags2 "covered"
       && bool_decide (tags1 !! "layer" ≠ tags2 !! "layer")
     else if canCover featureType1 && hasTag tags2 "covered" then true
     else canCover featureType2 && hasTag tags1 "covered")
  then true
  else if negb (allowsStructures featureType1) && negb (allowsStructures featureType2)
  then bool_decide (tags1 !! "layer" ≠ tags2 !! "layer")
  else false.

(** ** Segment intersection finder *)

Definition sharesNode (nA nB n1 n2 : Entity) : bool :=
  bool_decide (id nA = id n1) || bool_decide (id nA = id n2)
  || bool_decide (id nB = id n1) || bool_decide (id nB = id n2).

(** The [for] loop of [findEdgeToWayCrossCoords] over the consecutive node
    pairs of the candidate way, with its [continue] and [break]. *)
Fixpoint findEdgeToWayCrossCoords_loop (n1 n2 : Entity) (oneOnly : bool)
    (nodes : list Entity) : list CrossCoord :=
  match nodes with
  | nA :: ((nB :: _) as rest) =>
      if sharesNode nA nB n1 n2 then
        findEdgeToWayCrossCoords_loop n1 n2 oneOnly rest
      else
        match geoLineIntersection (loc n1, loc n2) (loc nA, loc nB) with
        | Some point =>
            mkCrossCoord (id nA, id nB) point
            :: (if oneOnly then [] else findEdgeToWayCrossCoords_loop n1 n2 oneOnly rest)
        | None => findEdgeToWayCrossCoords_loop n1 n2 oneOnly rest
        end
  | _ => []
  end.

Definition findEdgeToWayCrossCoords (n1 n2 : Entity) (w : Entity) (graph : Graph)
    (oneOnly : bool) : option (list CrossCoord) :=
  nodes ← childNodes graph w;
  Some (findEdgeToWayCrossCoords_loop n1 n2 oneOnly nodes).

(** The state the loops of [findCrossingsByWay] thread: [edgeCrossInfos]
    and the keys of [checkedSingleCrossingWays]. *)
Definition DetectState : Type := (list EdgeCrossing * gset string)%type.

(** The innermost loop: one [EdgeCrossing] per cross coordinate. *)
Definition pushCrossings (primaryWay : Entity) (primaryFeatureType : FeatureType)
    (w : Entity) (wayFeatureType : FeatureType) (n1 n2 : Entity) (oneOnly : bool)
    (crossCoords : list CrossCoord) (st : DetectState) : DetectState :=
  foldl (λ (st : DetectState) (crossingInfo : CrossCoord),
           (st.1 ++ [mkEdgeCrossing (primaryWay, w) (primaryFeatureType, wayFeatureType)
                       ((id n1, id n2), edge crossingInfo) (point crossingInfo)],
            if oneOnly then {[id w]} ∪ st.2 else st.2))
        st crossCoords.

(** The body of the loop over the candidates the spatial index returns. *)
Definition checkCandidate (primaryWay : Entity) (primaryFeatureType : FeatureType)
    (graph : Graph) (n1 n2 : Entity) (st : DetectState) (w : Entity)
    : option DetectState :=
  if negb (bool_decide (type w = way)) then Some st
  else if bool_decide (id w ∈ st.2) then Some st
  else if bool_decide (id w = id primaryWay) then Some st
  else
    match getFeatureTypeForCrossingCheck w graph with
    | None => Some st
    | Some wayFeatureType =>
        if isLegitCrossing primaryWay primaryFeatureType w wayFeatureType graph
           || isLegitCrossing w wayFeatureType primaryWay primaryFeatureType graph
        then Some st
        else
          let oneOnly := bool_decide (primaryFeatureType = building)
                         || bool_decide (wayFeatureType = building) in
          crossCoords ← findEdgeToWayCrossCoords n1 n2 w graph oneOnly;
          Some (pushCrossings primaryWay primaryFeatureType w wayFeatureType
                  n1 n2 oneOnly crossCoords st)
    end.

Fixpoint checkCandidates (primaryWay : Entity) (primaryFeatureType : FeatureType)
    (graph : Graph) (n1 n2 : Entity) (intersected : list Entity) (st : DetectState)
    : option DetectState :=
  match intersected with
  | [] => Some st
  | w :: rest =>
      st' ← checkCandidate primaryWay primaryFeatureType graph n1 n2 st w;
      checkCandidates primaryWay primaryFeatureType graph n1 n2 rest st'
  end.

Definition edgeExtent (n1 n2 : Entity) : Extent :=
  ((Qmin (loc n1).1 (loc n2).1, Qmin (loc n1).2 (loc n2).2),
   (Qmax (loc n1).1 (loc n2).1, Qmax (loc n1).2 (loc n2).2)).

(** The loop over the edges of the primary way. *)
Fixpoint findCrossingsByWay_loop (primaryWay : Entity) (primaryFeatureType : FeatureType)
    (graph : Graph) (tree : Tree) (nids : list string) (st : DetectState)
    : option DetectState :=
  match nids with
  | nid1 :: ((nid2 :: _) as rest) =>
      n1 ← entity graph nid1;
      n2 ← entity graph nid2;
      let intersected := intersects tree (edgeExtent n1 n2) graph in
      st' ← checkCandidates primaryWay primaryFeatureType graph n1 n2 intersected st;
      findCrossingsByWay_loop primaryWay primaryFeatureType graph tree rest st'
  | _ => Some st
  end.

Definition findCrossingsByWay (primaryWay : Entity) (graph : Graph) (tree : Tree)
    : option (list EdgeCrossing) :=
  if negb (bool_decide (type primaryWay = way)) then Some []
  else
    match getFeatureTypeForCrossingCheck primaryWay graph with
    | None => Some []
    | Some primaryFeatureType =>
        st ← findCrossingsByWay_loop primaryWay primaryFeatureType graph tree
               (nodes primaryWay) ([], ∅);
        Some st.1
    end.

End Detection.

(** ** Crossing classifier and fix generator *)

Definition highwaysDisallowingFords : list string :=
  ["motorway"; "motorway_link"; "trunk"; "trunk_link";
   "primary"; "primary_link"; "secondary"; "secondary_link"].

Definition pathHighways : list string :=
  ["path"; "footway"; "cycleway"; "bridleway"; "pedestrian"; "steps"; "corridor"].

(** [null] is [None]; the empty object [{}] is [Some ∅]. *)
Definition tagsForConnectionNodeIfAllowed (entity1 entity2 : Entity) : option Tags :=
  let featureType1 := getFeatureTypeForTags (tags entity1) in
  let featureType2 := getFeatureTypeForTags (tags entity2) in
  if bool_decide (featureType1 = featureType2) then
    if bool_decide (featureType1 = Some highway) then
      let entity1IsPath := negb (indexOf pathHighways (tags entity1 !! "highway") =? -1) in
      let entity2IsPath := negb (indexOf pathHighways (tags entity2 !! "highway") =? -1) in
      if (entity1IsPath || entity2IsPath) && negb (eqb entity1IsPath entity2IsPath) then
        let pathFeature := if entity1IsPath then entity1 else entity2 in
        match tags pathFeature !! "crossing" with
        | Some crossing =>
            if bool_decide (tags pathFeature !! "highway" = Some "footway")
               && bool_decide (tags pathFeature !! "footway" = Some "crossing")
               && negb (indexOf ["marked"; "unmarked"] (Some crossing) =? -1)
            then Some (<["crossing" := crossing]> {["highway" := "crossing"]})
            else Some {["highway" := "crossing"]}
        | None => Some {["highway" := "crossing"]}
        end
      else Some ∅
    else if bool_decide (featureType1 = Some waterway) then Some ∅
    else if bool_decide (featureType1 = Some railway) then Some ∅
    else None
  else
    let featureTypes := [featureType1; featureType2] in
    if bool_decide (Some highway ∈ featureTypes) then
      if bool_decide (Some railway ∈ featureTypes) then
        if negb (indexOf pathHighways (tags entity1 !! "highway") =? -1)
           || negb (indexOf pathHighways (tags entity2 !! "highway") =? -1)
        then Some {["railway" := "crossing"]}
        else Some {["railway" := "level_crossing"]}
      else if bool_decide (Some waterway ∈ featureTypes) then
        if hasTag (tags entity1) "tunnel" && hasTag (tags entity2) "tunnel" then None
        else if hasTag (tags entity1) "bridge" && hasTag (tags entity2) "bridge" then None
        else if negb (indexOf highwaysDisallowingFords (tags entity1 !! "highway") =? -1)
                || negb (indexOf highwaysDisallowingFords (tags entity2 !! "highway") =? -1)
        then None
        else Some {["ford" := "yes"]}
      else None
    else None.

(** What a fix does when it is clicked; only the "connect features" fix has
    a handler, and the handler reads its data from the issue it belongs to. *)
Inductive FixHandler := connectCrossingWays.

Record Fix := mkFix {
  title : string;
  onClick : option FixHandler
}.

Record IssueInfo := mkIssueInfo {
  info_edges : (string * string) * (string * string);
  connectionTags : option Tags
}.

Record Issue := mkIssue {
  issue_type : string;
  severity : string;
  message : string;
  tooltip : string;
  entities : Entity * Entity;
  info : IssueInfo;
  issue_loc : Loc;
  fixes : list Fix
}.

(** [context.graph()], [context.history().tree()]; [context.hasEntity] and
    [context.entity] read the same graph. *)
Record Context := mkContext {
  context_graph : Graph;
  context_tree : Tree
}.

(** [Array.prototype.sort] on a two-element array, with the number the
    comparator's boolean converts to ([true] is 1, [false] is 0).

    Insertion sort as engines run it on short arrays: the comparator is called
    on the pair in array order and the two are exchanged when it is
    positive. *)
Definition sortPairInsertion {A} (comparefn : A → A → bool) (a : A * A) : A * A :=
  if 0 <? (if comparefn a.1 a.2 then 1 else 0) then (a.2, a.1) else a.

(** Binary insertion as in TimSort: the comparator is called with the second
    element first, which moves in front when the result is negative. *)
Definition sortPairBinaryInsertion {A} (comparefn : A → A → bool) (a : A * A) : A * A :=
  if (if comparefn a.2 a.1 then 1 else 0) <? 0 then (a.2, a.1) else a.

(** [array.sort()] without a comparator on two strings: ascending order of
    code units. *)
Definition sortStrings (a : string * string) : string * string :=
  if String.ltb a.2 a.1 then (a.2, a.1) else a.

(** [type1 < type2] on values that are strings or [null]: against [null] a
    category name converts to NaN and the comparison is false. *)
Definition featureTypeLt (type1 type2 : option FeatureType) : bool :=
  match type1, type2 with
  | Some f1, Some f2 => String.ltb (featureTypeName f1) (featureTypeName f2)
  | _, _ => false
  end.

Section Issues.

Variable layer : Entity → string.
Variable geoLineIntersection : Loc * Loc → Loc * Loc → option Loc.

(** [utilDisplayLabel(entity, context)]. *)
Variable utilDisplayLabel : Entity → string.

(** [t(key, params)] of the localisation module. *)
Variable t : string → list (string * string) → string.

(** The engine's [Array.prototype.sort] on the two ways of a crossing. *)
Variable sortWays : (Entity → Entity → bool) → Entity * Entity → Entity * Entity.

Definition compareWays (graph : Graph) (entity1 entity2 : Entity) : bool :=
  let type1 := getFeatureTypeForCrossingCheck entity1 graph in
  let type2 := getFeatureTypeForCrossingCheck entity2 graph in
  if bool_decide (type1 = type2) then
    String.ltb (utilDisplayLabel entity2) (utilDisplayLabel entity1)
  else if bool_decide (type1 = Some waterway) then true
  else if bool_decide (type2 = Some waterway) then false
  else featureTypeLt type1 type2.

Definition createIssue (crossing : EdgeCrossing) (context : Context) : Issue :=
  let graph := context_graph context in
  let entities := sortWays (compareWays graph) (ways crossing) in
  let entities := (getFeatureWithFeatureTypeTagsForWay entities.1 graph,
                   getFeatureWithFeatureTypeTagsForWay entities.2 graph) in
  let connectionTags := tagsForConnectionNodeIfAllowed entities.1 entities.2 in
  let featureType1 := (featureTypes crossing).1 in
  let featureType2 := (featureTypes crossing).2 in
  let isCrossingIndoors :=
    tagsImplyIndoors (tags entities.1) && tagsImplyIndoors (tags entities.2) in
  let isCrossingTunnels :=
    allowsTunnel featureType1 && hasTag (tags entities.1) "tunnel"
    && allowsTunnel featureType2 && hasTag (tags entities.2) "tunnel" in
  let isCrossingBridges :=
    allowsBridge featureType1 && hasTag (tags entities.1) "bridge"
    && allowsBridge featureType2 && hasTag (tags entities.2) "bridge" in
  let crossingTypeID :=
    if isCrossingIndoors then "indoor-indoor"
    else if isCrossingTunnels then "tunnel-tunnel"
    else if isCrossingBridges then "bridge-bridge"
    else
      let sorted := sortStrings (featureTypeName featureType1, featureTypeName featureType2) in
      (sorted.1 ++ "-" ++ sorted.2)%string in
  let crossingTypeID :=
    if bool_decide (connectionTags ≠ None)
       && (isCrossingIndoors || isCrossingTunnels || isCrossingBridges)
    then (crossingTypeID ++ "_connectable")%string
    else crossingTypeID in
  let messageDict :=
    [("feature", utilDisplayLabel entities.1); ("feature2", utilDisplayLabel entities.2)] in
  let fixes :=
    match connectionTags with
    | Some _ => [mkFix (t "issues.fix.connect_features.title" []) (Some connectCrossingWays)]
    | None => []
    end in
  let useFixID :=
    if isCrossingIndoors then "use_different_levels"
    else if isCrossingTunnels || isCrossingBridges then "use_different_layers"
    else if allowsBridge featureType1 || allowsBridge featureType2 then "use_bridge_or_tunnel"
    else if allowsTunnel featureType1 || allowsTunnel featureType2 then "use_tunnel"
    else "use_different_layers" in
  let fixes := fixes ++ [mkFix (t ("issues.fix." ++ useFixID ++ ".title")%string []) None] in
  let fixes := fixes ++ [mkFix (t "issues.fix.reposition_features.title" []) None] in
  mkIssue "crossing_ways" "warning"
    (t "issues.crossing_ways.message" messageDict)
    (t ("issues.crossing_ways." ++ crossingTypeID ++ ".tip")%string [])
    entities
    (mkIssueInfo (edges crossing) connectionTags)
    (crossPoint crossing)
    fixes.

(** The array [validation] flattens by one level: an element is a way, or
    an empty array ([None]) left where a member is not a way of the graph. *)
Definition waysToCheck (entity0 : Entity) (context : Context) : list (option Entity) :=
  match getFeatureTypeForTags (tags entity0) with
  | None => []
  | Some _ =>
      if bool_decide (type entity0 = way) then [Some entity0]
      else if bool_decide (type entity0 = relation)
              && bool_decide (tags entity0 !! "type" = Some "multipolygon")
              && hasTag (tags entity0) "building"
      then
        map (λ member : Member,
               if hasEntity (context_graph context) (member_id member) then
                 match entity (context_graph context) (member_id member) with
                 | Some e => if bool_decide (type e = way) then Some e else None
                 | None => None
                 end
               else None)
            (members entity0)
      else []
  end.

(** The [reduce] over the ways to check; an empty array has no [type], so
    [findCrossingsByWay] returns no crossing for it. *)
Fixpoint collectCrossings (graph : Graph) (tree : Tree) (toCheck : list (option Entity))
    (array : list EdgeCrossing) : option (list EdgeCrossing) :=
  match toCheck with
  | [] => Some array
  | w :: rest =>
      found ← match w with
              | Some w => findCrossingsByWay layer geoLineIntersection w graph tree
              | None => Some []
              end;
      collectCrossings graph tree rest (array ++ found)
  end.

Definition validation (entity0 : Entity) (context : Context) : option (list Issue) :=
  let graph := context_graph context in
  let tree := context_tree context in
  crossings ← collectCrossings graph tree (waysToCheck entity0 context) [];
  Some (map (λ crossing, createIssue crossing context) crossings).

End Issues.

(** ** Connect-ways action *)

(** [osmNode({loc, tags})]; the fresh id the constructor draws from the id
    counter is an argument. *)
Definition osmNode (newId : string) (loc : Loc) (tags : Tags) : Entity :=
  mkEntity newId node tags loc [] [].

(** The result of [geoSphericalClosestNode]. *)
Record ClosestNodeInfo := mkClosestNodeInfo {
  closest_node : Entity;
  distance : Q
}.

Definition mergeThresholdInMeters : Q := 3 # 4.

Definition Qltb (x y : Q) : bool := negb (Qle_bool y x).

Section ConnectAction.

(** [geoSphericalClosestNode(nodes, point)] of the geo module. *)
Variable geoSphericalClosestNode : list Entity → Loc → ClosestNodeInfo.

(** [actionAddMidpoint({loc, edge}, node)] and [actionMergeNodes(ids, loc)]
    of the actions module, as graph transformations. *)
Variable actionAddMidpoint : Loc * (string * string) → Entity → Graph → Graph.
Variable actionMergeNodes : list string → Loc → Graph → Graph.

(** The body of [edges.forEach]: the state is the graph and
    [nodesToMerge]. *)
Definition connectEdge (loc : Loc) (node0 : Entity) (st : Graph * list string)
    (edge : string * string) : option (Graph * list string) :=
  n0 ← entity st.1 edge.1;
  n1 ← entity st.1 edge.2;
  let edgeNodes := [n0; n1] in
  let closestNodeInfo := geoSphericalClosestNode edgeNodes loc in
  if Qltb (distance closestNodeInfo) mergeThresholdInMeters then
    Some (st.1, st.2 ++ [id (closest_node closestNodeInfo)])
  else
    Some (actionAddMidpoint (loc, edge) node0 st.1, st.2).

Definition actionConnectCrossingWays (newId : string) (loc : Loc)
    (connectionTags : Tags) (edges : (string * string) * (string * string))
    (graph : Graph) : option Graph :=
  let node0 := osmNode newId loc connectionTags in
  let graph := replace graph node0 in
  let nodesToMerge := [id node0] in
  st ← connectEdge loc node0 (graph, nodesToMerge) edges.1;
  st ← connectEdge loc node0 st edges.2;
  if (1 <? length st.2)%nat then Some (actionMergeNodes st.2 loc st.1)
  else Some st.1.

(** Clicking a fix of an issue: [context.perform] applies the action to
    the current graph. *)
Definition executeFix (newId : string) (issue : Issue) (clicked : Fix) (graph : Graph)
    : option Graph :=
  match onClick clicked, connectionTags (info issue) with
  | Some connectCrossingWays, Some connectionTags =>
      actionConnectCrossingWays newId (issue_loc issue) connectionTags
        (info_edges (info issue)) graph
  | _, _ => Some graph
  end.

End ConnectAction.

(** ** The action primitives *)

Definition edgeEqual (a b : string * string) : bool :=
  (bool_decide (a.1 = b.1) && bool_decide (a.2 = b.2))
  || (bool_decide (a.1 = b.2) && bool_decide (a.2 = b.1)).

(** Inserts [x] into the first occurrence of the edge along a node list. *)
Fixpoint insertMidpoint (edge : string * string) (x : string) (nodes : list string)
    : list string :=
  match nodes with
  | n1 :: ((n2 :: _) as rest) =>
      if edgeEqual (n1, n2) edge then n1 :: x :: rest
      else n1 :: insertMidpoint edge x rest
  | _ => nodes
  end.

Definition withLoc (e : Entity) (l : Loc) : Entity :=
  mkEntity (id e) (type e) (tags e) l (nodes e) (members e).

Definition withNodes (e : Entity) (ns : list string) : Entity :=
  mkEntity (id e) (type e) (tags e) (loc e) ns (members e).

(** Modelled from the spec: [actionAddMidpoint] is a generic action primitive
    of another module (add-midpoint-on-edge); section 4.5 says it splits the
    edge by inserting the new node as a midpoint.  The node is placed at the
    location and spliced into every way that runs along the edge. *)
Definition actionAddMidpoint (midpoint : Loc * (string * string)) (node0 : Entity)
    (graph : Graph) : Graph :=
  let graph := replace graph (withLoc node0 midpoint.1) in
  (λ e, if bool_decide (type e = way)
        then withNodes e (insertMidpoint midpoint.2 (id node0) (nodes e))
        else e) <$> graph.

Definition renameNode (nodeIDs : list string) (survivor : string) (n : string) : string :=
  if bool_decide (n ∈ nodeIDs) then survivor else n.

(** Every reference to a merged node becomes a reference to the survivor. *)
Definition renameNodes (nodeIDs : list string) (survivor : string) (e : Entity) : Entity :=
  mkEntity (id e) (type e) (tags e) (loc e)
    (renameNode nodeIDs survivor <$> nodes e)
    ((λ m, mkMember (renameNode nodeIDs survivor (member_id m)) (member_role m))
       <$> members e).

(** Modelled from the spec: [actionMergeNodes] is a generic action primitive
    of another module (merge-nodes-at-location); section 4.5 says it merges
    all the marked nodes into one node at the crossing location.  The last
    node of the list survives, is moved to the location and takes the tags of
    the others; every reference to a merged node becomes a reference to the
    survivor, and the other nodes leave the graph. *)
Definition actionMergeNodes (nodeIDs : list string) (toLoc : Loc) (graph : Graph) : Graph :=
  match last nodeIDs with
  | None => graph
  | Some survivor =>
      let mergedTags : Tags :=
        foldr (λ i (acc : Tags), acc ∪ from_option tags ∅ (graph !! i)) ∅ nodeIDs in
      let renamed : Graph := renameNodes nodeIDs survivor <$> graph in
      let removed : Graph :=
        foldr (λ i (acc : Graph), if bool_decide (i = survivor) then acc else delete i acc)
              renamed nodeIDs in
      match removed !! survivor with
      | Some s =>
          <[survivor := mkEntity (id s) (type s) mergedTags toLoc (nodes s) (members s)]> removed
      | None => removed
      end
  end.

(** ** Geometry over exact rationals *)

(** Modelled from the spec: [geoLineIntersection] belongs to the geo module;
    section 4.3 asks for the true intersection point of two segments, which
    must cross within both finite extents.  Written out over the rationals so
    that the validation runs on the sample maps. *)
Definition geoVecCross (a b : Loc) : Q := (a.1 * b.2 - a.2 * b.1)%Q.
Definition geoVecSubtract (a b : Loc) : Loc := ((a.1 - b.1)%Q, (a.2 - b.2)%Q).

Definition geoLineIntersection (a b : Loc * Loc) : option Loc :=
  let p := a.1 in
  let p2 := a.2 in
  let q := b.1 in
  let q2 := b.2 in
  let r := geoVecSubtract p2 p in
  let s := geoVecSubtract q2 q in
  let uNumerator := geoVecCross (geoVecSubtract q p) r in
  let denominator := geoVecCross r s in
  if negb (Qeq_bool uNumerator 0) && negb (Qeq_bool denominator 0) then
    let u := (uNumerator / denominator)%Q in
    let t := (geoVecCross (geoVecSubtract q p) s / denominator)%Q in
    if Qle_bool 0 t && Qle_bool t 1 && Qle_bool 0 u && Qle_bool u 1
    then Some (Qred (p.1 + t * r.1)%Q, Qred (p.2 + t * r.2)%Q)
    else None
  else None.

(** Modelled from the spec: [geoSphericalClosestNode] belongs to the geo
    module; section 4.5 asks for the closer of the endpoint nodes and its
    distance to the crossing location.  On the sample maps the distance is
    the planar one along the axes. *)
Definition planarDistance (a b : Loc) : Q :=
  Qred (Qabs (a.1 - b.1) + Qabs (a.2 - b.2))%Q.

Fixpoint closestOf (best : ClosestNodeInfo) (nodes : list Entity) (point : Loc)
    : ClosestNodeInfo :=
  match nodes with
  | [] => best
  | n :: rest =>
      let d := planarDistance (loc n) point in
      closestOf (if Qltb d (distance best) then mkClosestNodeInfo n d else best) rest point
  end.

Definition geoClosestNode (nodes : list Entity) (point : Loc) : ClosestNodeInfo :=
  match nodes with
  | [] => mkClosestNodeInfo (osmNode "" point ∅) 0
  | n :: rest => closestOf (mkClosestNodeInfo n (planarDistance (loc n) point)) rest point
  end.

(** ** A small map to run the validation on *)

Module Sample.

Definition mkNode (i : string) (x y : Q) : Entity :=
  mkEntity i node ∅ (x, y) [] [].
Definition mkWay (i : string) (tags : Tags) (ns : list string) : Entity :=
  mkEntity i way tags (0%Q, 0%Q) ns [].
Definition mkRelation (i : string) (tags : Tags) (ms : list string) : Entity :=
  mkEntity i relation tags (0%Q, 0%Q) [] ((λ m, mkMember m "outer") <$> ms).

Definition graphOf (es : list Entity) : Graph :=
  list_to_map ((λ e, (id e, e)) <$> es).

(** A spatial index that returns the listed entities for every extent, as
    they are in the graph. *)
Definition treeOf (ids : list string) : Tree :=
  mkTree (λ _ graph, omap (λ i, graph !! i) ids).

Definition layer0 (_ : Entity) : string := "0".
Definition label (e : Entity) : string := id e.
Definition t (key : string) (_ : list (string * string)) : string := key.

(** A road [a]-[b] along the x axis and a stream [c]-[d] along the y axis
    that cross at the origin. *)
Definition a := mkNode "a" (-10) 0.
Definition b := mkNode "b" 10 0.
Definition c := mkNode "c" 0 (-10).
Definition d := mkNode "d" 0 10.
Definition road := mkWay "road" {["highway" := "residential"]} ["a"; "b"].
Definition stream := mkWay "stream" {["waterway" := "stream"]} ["c"; "d"].
Definition roadAndStream : Graph := graphOf [a; b; c; d; road; stream].
Definition roadAndStreamTree : Tree := treeOf ["road"; "stream"].

(** Two streams that cross at the origin. *)
Definition brook := mkWay "brook" {["waterway" := "stream"]} ["a"; "b"].
Definition twoStreams : Graph := graphOf [a; b; c; d; brook; stream].
Definition twoStreamsTree : Tree := treeOf ["brook"; "stream"].

(** Two roads that meet at the node [o] in the origin. *)
Definition o := mkNode "o" 0 0.
Definition mainStreet := mkWay "mainStreet" {["highway" := "residential"]} ["a"; "o"; "b"].
Definition sideStreet := mkWay "sideStreet" {["highway" := "residential"]} ["c"; "o"; "d"].
Definition junction : Graph := graphOf [a; b; c; d; o; mainStreet; sideStreet].
Definition junctionTree : Tree := treeOf ["mainStreet"; "sideStreet"].

(** A building outline that a wall [a]-[b] cuts twice, and a path that a
    road cuts twice. *)
Definition e := mkNode "e" 5 (-10).
Definition wall := mkWay "wall" {["building" := "yes"]} ["a"; "b"].
Definition outline := mkWay "outline" {["building" := "yes"]} ["c"; "d"; "e"].
Definition twoBuildings : Graph := graphOf [a; b; c; d; e; wall; outline].
Definition twoBuildingsTree : Tree := treeOf ["wall"; "outline"].
Definition zigzag := mkWay "zigzag" {["highway" := "path"]} ["c"; "d"; "e"].
Definition roadAndZigzag : Graph := graphOf [a; b; c; d; e; road; zigzag].
Definition roadAndZigzagTree : Tree := treeOf ["road"; "zigzag"].

(** A building multipolygon whose two untagged rings cross each other. *)
Definition ringA := mkWay "ringA" ∅ ["a"; "b"].
Definition ringB := mkWay "ringB" ∅ ["c"; "d"].
Definition block :=
  mkRelation "block" {["type" := "multipolygon"; "building" := "yes"]} ["ringA"; "ringB"].
Definition crossedRings : Graph := graphOf [a; b; c; d; ringA; ringB; block].
Definition crossedRingsTree : Tree := treeOf ["ringA"; "ringB"].

(** An untagged way that gets its category from a pedestrian multipolygon,
    crossed by a road. *)
Definition plazaEdge := mkWay "plazaEdge" ∅ ["c"; "d"].
Definition plaza :=
  mkRelation "plaza" {["type" := "multipolygon"; "highway" := "pedestrian"]} ["plazaEdge"].
Definition roadAndPlaza : Graph := graphOf [a; b; c; d; road; plazaEdge; plaza].
Definition roadAndPlazaTree : Tree := treeOf ["road"; "plazaEdge"].

(** A bypass [c]-[d]-[b] that crosses the road and then ends on its node
    [b]. *)
Definition bypass := mkWay "bypass" {["highway" := "residential"]} ["c"; "d"; "b"].
Definition roadAndBypass : Graph := graphOf [a; b; c; d; road; bypass].
Definition roadAndBypassTree : Tree := treeOf ["road"; "bypass"].

Definition roadBypassCrossing : EdgeCrossing :=
  mkEdgeCrossing (road, bypass) (highway, highway) (("a", "b"), ("c", "d")) (0%Q, 0%Q).

(** Rails [c]-[d] under a viaduct and across a plain road, both on
    [a]-[b]. *)
Definition rails := mkWay "rails" {["railway" := "rail"]} ["c"; "d"].
Definition viaduct :=
  mkWay "viaduct" {["highway" := "residential"; "bridge" := "yes"]} ["a"; "b"].
Definition railsAndRoads : Graph := graphOf [a; b; c; d; rails; viaduct; road].
Definition railsAndRoadsTree : Tree := treeOf ["rails"; "viaduct"; "road"].
Definition railsRoadCrossing : EdgeCrossing :=
  mkEdgeCrossing (rails, road) (railway, highway) (("c", "d"), ("a", "b")) (0%Q, 0%Q).

Definition ringsCrossingAB : EdgeCrossing :=
  mkEdgeCrossing (ringA, ringB) (building, building) (("a", "b"), ("c", "d")) (0%Q, 0%Q).
Definition ringsCrossingBA : EdgeCrossing :=
  mkEdgeCrossing (ringB, ringA) (building, building) (("c", "d"), ("a", "b")) (0%Q, 0%Q).
Definition wallOutlineCrossing : EdgeCrossing :=
  mkEdgeCrossing (wall, outline) (building, building) (("a", "b"), ("c", "d")) (0%Q, 0%Q).

Definition roadZigzagCrossings : list EdgeCrossing :=
  [mkEdgeCrossing (road, zigzag) (highway, highway) (("a", "b"), ("c", "d")) (0%Q, 0%Q);
   mkEdgeCrossing (road, zigzag) (highway, highway) (("a", "b"), ("d", "e")) (5 # 2, 0%Q)].

Definition roadStreamCrossing : EdgeCrossing :=
  mkEdgeCrossing (road, stream) (highway, waterway) (("a", "b"), ("c", "d")) (0%Q, 0%Q).
Definition roadStreamIssue : Issue :=
  createIssue label t sortPairInsertion roadStreamCrossing
    (mkContext roadAndStream roadAndStreamTree).
Definition connectFix : Fix :=
  mkFix "issues.fix.connect_features.title" (Some connectCrossingWays).

(** The map after the connect fix of that issue. *)
Definition connected : Graph :=
  Eval vm_compute in
    default ∅ (executeFix geoClosestNode actionAddMidpoint actionMergeNodes
                 "n-1" roadStreamIssue connectFix roadAndStream).
Definition connectedRoad : Entity := Eval vm_compute in default road (connected !! "road").
Definition connectedStream : Entity :=
  Eval vm_compute in default stream (connected !! "stream").

Definition streamRoadCrossing : EdgeCrossing :=
  mkEdgeCrossing (stream, road) (waterway, highway) (("c", "d"), ("a", "b")) (0%Q, 0%Q).

(** Two corridors, one of them tagged [level=no]. *)
Definition corridor := mkWay "corridor" {["highway" := "corridor"]} ["a"; "b"].
Definition corridorLevelNo :=
  mkWay "hall" {["highway" := "corridor"; "level" := "no"]} ["c"; "d"].
Definition hall := mkWay "hall" {["highway" := "corridor"]} ["c"; "d"].
Definition twoCorridors : Graph := graphOf [a; b; c; d; corridor; corridorLevelNo].

(** The road with an explicit [bridge=no]. *)
Definition roadBridgeNo :=
  mkWay "road" {["highway" := "residential"; "bridge" := "no"]} ["a"; "b"].

(** A road and a stream that end just behind their crossing. *)
Definition b' := mkNode "b" (1 # 2) 0.
Definition d' := mkNode "d" 0 (1 # 2).
Definition shortEnds : Graph := graphOf [a; b'; c; d'; road; stream].

End Sample.

(** The tags [isLegitCrossing] decides on: those of the feature that carries
    the category, with the inferred layer. *)
Definition effectiveTags (layer : Entity → string) (graph : Graph) (w : Entity) : Tags :=
  extendTagsByInferredLayer layer (tags (getFeatureWithFeatureTypeTagsForWay w graph)) w.

(** Two edges have an endpoint node in common. *)
Definition edgesShareNode (e1 e2 : string * string) : Prop :=
  e1.1 = e2.1 ∨ e1.1 = e2.2 ∨ e1.2 = e2.1 ∨ e1.2 = e2.2.

(** The [EdgeCrossing] that [findCrossingsByWay] pushes for a cross
    coordinate. *)
Definition crossingOf (primaryWay : Entity) (primaryFeatureType : FeatureType)
    (w : Entity) (wayFeatureType : FeatureType) (n1 n2 : Entity)
    (crossingInfo : CrossCoord) : EdgeCrossing :=
  mkEdgeCrossing (primaryWay, w) (primaryFeatureType, wayFeatureType)
    ((id n1, id n2), edge crossingInfo) (point crossingInfo).

(** The state of the detection loops only grows. *)
Definition extends (s s' : DetectState) : Prop :=
  (∃ l, s'.1 = s.1 ++ l) ∧ s.2 ⊆ s'.2.

(** A flagged way has been reported. *)
Definition flaggedReported (s : DetectState) : Prop :=
  ∀ i, i ∈ s.2 → ∃ c, c ∈ s.1 ∧ id (ways c).2 = i.

(** At most one element of a list satisfies a property. *)
Definition atMostOne {A} (P : A → Prop) (l : list A) : Prop :=
  ∀ i j x y, l !! i = Some x → l !! j = Some y → P x → P y → i = j.

(** The spatial index returns entities of the graph it is asked about. *)
Definition indexesGraph (tree : Tree) (graph : Graph) : Prop :=
  ∀ extent e, e ∈ intersects tree extent graph → graph !! id e = Some e.

(** The flagged ways are buildings of the graph. *)
Definition flaggedBuildings (graph : Graph) (s : DetectState) : Prop :=
  ∀ i, i ∈ s.2 →
    ∃ w, graph !! i = Some w ∧ getFeatureTypeForCrossingCheck w graph = Some building.

(** A node of the graph under its own id. *)
Definition isNodeOf (graph : Graph) (i : string) (n : Entity) : Prop :=
  graph !! i = Some n ∧ type n = node ∧ id n = i.

(** A way of the graph, under its own id, that runs along an edge. *)
Definition isWayAlong (graph : Graph) (w : Entity) (edge : string * string) : Prop :=
  graph !! id w = Some w ∧ type w = way
  ∧ ∃ k, nodes w !! k = Some edge.1 ∧ nodes w !! S k = Some edge.2.

Definition edgeHasNode (i : string) (edge : string * string) : Prop :=
  i = edge.1 ∨ i = edge.2.

(** The highway values for which no ford is offered, as the specification
    lists them. *)
Definition majorHighwayValue (v : option string) : Prop :=
  ∃ s, v = Some s ∧
       s ∈ ["motorway"; "motorway_link"; "trunk"; "trunk_link";
            "primary"; "primary_link"; "secondary"; "secondary_link"].

(** The highway values of paths, as the source lists them. *)
Definition pathHighwayValue (v : option string) : Prop :=
  ∃ s, v = Some s ∧
       s ∈ ["path"; "footway"; "cycleway"; "bridleway"; "pedestrian"; "steps"; "corridor"].

(** A footway that is itself a marked or unmarked crossing. *)
Definition isCrossingFootway (tags : Tags) (crossing : string) : Prop :=
  tags !! "highway" = Some "footway" ∧ tags !! "footway" = Some "crossing"
  ∧ tags !! "crossing" = Some crossing ∧ (crossing = "marked" ∨ crossing = "unmarked").

(** How often a way passes along an edge, in either direction. *)
Fixpoint countEdge (edge : string * string) (nodes : list string) : nat :=
  match nodes with
  | n1 :: ((n2 :: _) as rest) =>
      ((if edgeEqual (n1, n2) edge then 1 else 0) + countEdge edge rest)%nat
  | _ => 0%nat
  end.

(** No way of the graph doubles back along the edge. *)
Definition passedAtMostOnce (graph : Graph) (edge : string * string) : Prop :=
  ∀ k w, graph !! k = Some w → type w = way → (countEdge edge (nodes w) ≤ 1)%nat.

(** Every entity is stored under its own id. *)
Definition wellKeyed (graph : Graph) : Prop :=
  ∀ k e, graph !! k = Some e → id e = k.

(** One of the two connected edges, in either direction, or an edge that
    ends in the junction node. *)
Definition partOfCrossing (crossed : (string * string) * (string * string))
    (junctionId : string) (e : string * string) : Prop :=
  edgeEqual e crossed.1 = true ∨ edgeEqual e crossed.2 = true ∨ edgeHasNode junctionId e.

(** The node list of a way after an edge has been connected: split by the
    new node unless an end node of the edge was near. *)
Definition splitUnless (near : bool) (edge : string * string) (x : string)
    (l : list string) : list string :=
  if near then l else insertMidpoint edge x l.

(** The nodes that the connect action merges, and the node that survives:
    [near1] and [near2] say which edge has an end node within the threshold,
    [c1] and [c2] are these end nodes. *)
Definition mergedNodes (newId : string) (near1 near2 : bool) (c1 c2 : string)
    : list string :=
  newId :: (if near1 then [c1] else []) ++ (if near2 then [c2] else []).

Definition junctionOf (newId : string) (near1 near2 : bool) (c1 c2 : string) : string :=
  if near2 then c2 else if near1 then c1 else newId.

(** The graph that [actionConnectCrossingWays] returns, in closed form: the two
    edges are split unless an end node is near, then the marked nodes are
    merged. *)
Definition connectedGraph (newId : string) (toLoc : Loc) (connectionTags : Tags)
    (crossed : (string * string) * (string * string)) (near1 near2 : bool)
    (c1 c2 : string) (graph : Graph) : Graph :=
  let node0 := osmNode newId toLoc connectionTags in
  let graph1 := replace graph node0 in
  let graph2 := if near1 then graph1 else actionAddMidpoint (toLoc, crossed.1) node0 graph1 in
  let graph3 := if near2 then graph2 else actionAddMidpoint (toLoc, crossed.2) node0 graph2 in
  if near1 || near2
  then actionMergeNodes (mergedNodes newId near1 near2 c1 c2) toLoc graph3
  else graph3.

(** A key of the graph that holds a node. *)
Definition isNodeKey (graph : Graph) (i : string) : Prop :=
  ∃ n, graph !! i = Some n ∧ type n = node.

(** Further samples. *)
Module MoreSamples.
Import Sample.

(** The road ends half a unit after the crossing; the stream ends far away. *)
Definition oneShortEnd : Graph := graphOf [a; b'; c; d; road; stream].

(** A marked pedestrian crossing along the stream's line. *)
Definition zebra : Entity :=
  mkWay "zebra" {["highway" := "footway"; "footway" := "crossing"; "crossing" := "marked"]}
    ["c"; "d"].

(** A layer method that takes every way with a bridge tag, whatever its
    value, for a bridge on layer 1. *)
Definition layerOfBridge (w : Entity) : string :=
  if bool_decide (is_Some (tags w !! "bridge")) then "1" else "0".

(** The wall of [Sample.twoBuildings] with a bridge tag of value no, and
    with a covered tag. *)
Definition wallBridgeNo : Entity :=
  mkWay "wall" {["building" := "yes"; "bridge" := "no"]} ["a"; "b"].
Definition twoBuildingsBridgeNo : Graph := graphOf [a; b; c; d; e; wallBridgeNo; outline].

Definition wallCovered : Entity :=
  mkWay "wall" {["building" := "yes"; "covered" := "yes"]} ["a"; "b"].
Definition twoBuildingsCovered : Graph := graphOf [a; b; c; d; e; wallCovered; outline].

(** A road that runs from [a] to [b] and back, across the stream, and the
    issue of its first passage. *)
Definition roadBack : Entity :=
  mkWay "road" {["highway" := "residential"]} ["a"; "b"; "a"].
Definition doubledBack : Graph := graphOf [a; b; c; d; roadBack; stream].
Definition doubledBackTree : Tree := treeOf ["road"; "stream"].
Definition doubledBackIssue : Issue :=
  createIssue label t sortPairBinaryInsertion
    (mkEdgeCrossing (roadBack, stream) (highway, waterway) (("a", "b"), ("c", "d"))
       (0%Q, 0%Q))
    (mkContext doubledBack doubledBackTree).

(** The map after the connect fix of that issue, and the road in it. *)
Definition afterDoubledBack : Graph :=
  Eval vm_compute in
    default ∅ (executeFix geoClosestNode actionAddMidpoint actionMergeNodes
                 "n-1" doubledBackIssue connectFix doubledBack).
Definition roadBackConnected : Entity :=
  Eval vm_compute in default roadBack (afterDoubledBack !! "road").

End MoreSamples.

(** * The KeepRight service

    The service of the same file that loads the errors of keepright.at for
    the tiles of the view, posts updates of them, and links the entity ids
    in their descriptions. *)

Module KeepRight.

(** ** Requests for the tiles of the view *)

Definition _krUrlRoot : string := "https://www.keepright.at/".

Definition _krRuleset : list Z :=
  [30; 40; 50; 60; 70; 90; 100; 110; 120; 130; 150; 160; 170; 180;
   190; 191; 192; 193; 194; 195; 196; 197; 198;
   200; 201; 202; 203; 204; 205; 206; 207; 208; 210; 220;
   230; 231; 232; 270; 280; 281; 282; 283; 284; 285;
   290; 291; 292; 293; 294; 295; 296; 297; 298; 300; 310; 311; 312; 313;
   320; 350; 360; 370; 380; 390; 400; 401; 402; 410; 411; 412; 413].

(** A tile of the tiler: [tile.id] and [tile.extent]. *)
Record Tile := mkTile {
  tile_id : string;
  tile_extent : Extent
}.

(** A request object of d3-request, as [d3_json(url, callback)] and
    [d3_request(url).post(callback)] return it. *)
Inductive Request :=
  | jsonRequest (url : string)
  | postRequest (url : string).

(** The part of [_krCache] that the request functions work on: the ids of
    the loaded tiles, which the object [loaded] maps to [true], and the
    requests in flight, which the object [inflight] holds by tile id and by
    error id.  The keys are ids; none is the name of a property that an
    object inherits. *)
Record Cache := mkCache {
  loaded : gset string;
  inflight : gmap string Request
}.

(** The value of a query parameter. *)
Inductive QsValue :=
  | qsString (s : string)
  | qsNumber (q : Q).

(** The fields of a [krError] that an update reads, [krError_id] for [d.id];
    [undefined] is [None]. *)
Record KrError := mkKrError {
  krError_id : string;
  error_id : string;
  schema : string;
  state : option string;
  newComment : option string
}.

Section Requests.

(** [extent.rectangle()] of the geo module: the numbers [rect[0]] to
    [rect[3]]. *)
Variable rectangle : Extent → Q * Q * Q * Q.

(** [utilQsString(params)] of the util module. *)
Variable utilQsString : list (string * QsValue) → string.

(** The callback of [_forEach] in [abortUnwantedRequests], on the requests
    aborted so far, by their key, and the cache.  A request is an object, so
    [abortRequest] aborts it. *)
Definition abortIfUnwanted (tiles : list Tile) (k : string) (v : Request)
    (st : gmap string Request * Cache) : gmap string Request * Cache :=
  let wanted := List.find (λ tile, bool_decide (k = tile_id tile)) tiles in
  match wanted with
  | None => (<[k := v]> st.1, mkCache (loaded st.2) (delete k (inflight st.2)))
  | Some _ => st
  end.

(** [abortUnwantedRequests(cache, tiles)]; [_forEach] visits the keys the
    object has when the call starts. *)
Definition abortUnwantedRequests (cache : Cache) (tiles : list Tile)
    : gmap string Request * Cache :=
  map_fold (abortIfUnwanted tiles) (∅, cache) (inflight cache).

(** The url that [loadErrors] requests for a tile. *)
Definition exportURL (tile : Tile) : string :=
  let options := [("format", qsString "geojson")] in
  let rules := String.concat "," (pretty <$> _krRuleset) in
  let rect := rectangle (tile_extent tile) in
  let params := options ++ [("left", qsNumber rect.1.1.1); ("bottom", qsNumber rect.2);
                            ("right", qsNumber rect.1.2); ("top", qsNumber rect.1.1.2)] in
  (_krUrlRoot ++ "export.php?" ++ utilQsString params ++ "&ch=" ++ rules)%string.

(** The body of [tiles.forEach] in [loadErrors]. *)
Definition requestTile (cache : Cache) (tile : Tile) : Cache :=
  if bool_decide (tile_id tile ∈ loaded cache)
     || bool_decide (is_Some (inflight cache !! tile_id tile))
  then cache
  else mkCache (loaded cache) (<[tile_id tile := jsonRequest (exportURL tile)]> (inflight cache)).

(** [loadErrors(projection)] up to the point where it returns, for the
    tiles that the tiler gives for the projection: the requests it aborts
    and the cache it leaves. *)
Definition loadErrors (tiles : list Tile) (cache : Cache) : gmap string Request * Cache :=
  let aborted := abortUnwantedRequests cache tiles in
  (aborted.1, foldl requestTile aborted.2 tiles).

(** [postKeepRightUpdate(d, callback)] up to the point where it returns:
    the error of the callback when an update is in flight already, or the
    cache with the new request. *)
Definition postKeepRightUpdate (d : KrError) (cache : Cache) : (string * Z) + Cache :=
  if bool_decide (is_Some (inflight cache !! krError_id d)) then
    inl ("Error update already inflight", -2)
  else
    let params := [("schema", qsString (schema d)); ("id", qsString (error_id d))] in
    let params :=
      match state d with
      | Some st => if bool_decide (st ≠ "") then params ++ [("st", qsString st)] else params
      | None => params
      end in
    let params :=
      match newComment d with
      | Some co => params ++ [("co", qsString co)]
      | None => params
      end in
    let url := (_krUrlRoot ++ "comment.php?" ++ utilQsString params)%string in
    inr (mkCache (loaded cache) (<[krError_id d := postRequest url]> (inflight cache))).

End Requests.

(** ** Strings and arrays of the language

    A string is its sequence of code units, one character of [string] for
    each.  [+] on strings is [++], [array.join(separator)] on an array of
    strings is [String.concat]. *)

(** [string.slice(start)] and [string.slice(start, end)], for indexes that
    are not negative. *)
Definition slice (s : string) (start : nat) (end_ : option nat) : string :=
  let to := Nat.min (default (String.length s) end_) (String.length s) in
  String.substring start (to - start) s.

(** [string.split(separator)] for a separator that is not empty: the scan of
    the language definition, which cuts at every occurrence of the separator
    it meets from the left and resumes behind it.  [skip] counts the code
    units of a separator just met that are still to pass, [cur] is the piece
    since the last cut. *)
Fixpoint splitFrom (separator : string) (skip : nat) (cur : string) (text : string)
    : list string :=
  match text with
  | EmptyString => [cur]
  | String c rest =>
      match skip with
      | S k => splitFrom separator k cur rest
      | O =>
          if String.prefix separator text
          then cur :: splitFrom separator (String.length separator - 1) "" rest
          else splitFrom separator 0 (cur ++ String c "")%string rest
      end
  end.

Definition split (separator text : string) : list string :=
  splitFrom separator 0 "" text.

(** The double quote character. *)
Definition quote : string := String "034"%char "".

(** ** Linking the ids of an error description *)

Definition linkEntity (d : string) : string :=
  ("<span><a class=" ++ quote ++ "kr_error_description-id" ++ quote ++ ">"
   ++ d ++ "</a></span>")%string.

(** An arbitrary node list of the form [#ID, #ID, #ID...]. *)
Definition parseError211 (capture : string) : string :=
  let items := split ", " capture in
  let newList := map (λ item, linkEntity ("n" ++ slice item 1 None)%string) items in
  String.concat ", " newList.

(** An item of the form [from/to node/relation #ID]; reading a word that
    the item does not have is [undefined], and taking a slice of
    [undefined] throws. *)
Definition parseError294_item (item : string) : option string :=
  let item := split " " item in
  let role := (quote ++ default "undefined" (item !! 0%nat) ++ quote)%string in
  item1 ← item !! 1%nat;
  let idType := slice item1 0 (Some 1%nat) in
  item2 ← item !! 2%nat;
  let id := slice item2 1 None in
  let id := linkEntity (idType ++ id)%string in
  Some (String.concat " " [role; item1; id]).

(** An arbitrary node/relation list of the form
    [from node #ID,to relation #ID,to node #ID...]. *)
Definition parseError294 (capture : string) : option string :=
  let items := split "," capture in
  newList ← mapM parseError294_item items;
  Some (String.concat ", " newList).

(** An arbitrary node list of the form [#ID,#ID,#ID...]. *)
Definition parseWarning20 (capture : string) : string :=
  let items := split "," capture in
  let newList := map (λ item, linkEntity ("n" ++ slice item 1 None)%string) items in
  String.concat ", " newList.

Section Parse.

(** [parseError231] and [parseError370] take the capture apart with regular
    expressions; they return a string for every capture. *)
Variable parseError231 : string → string.
Variable parseError370 : string → string.

(** [None] is a thrown [TypeError]. *)
Definition parseError (group idType : string) : option string :=
  if bool_decide (idType = "n") || bool_decide (idType = "w") || bool_decide (idType = "r")
  then Some (linkEntity (idType ++ group)%string)
  else if bool_decide (idType = "211") then Some (parseError211 group)
  else if bool_decide (idType = "231") then Some (parseError231 group)
  else if bool_decide (idType = "294") then parseError294 group
  else if bool_decide (idType = "370") then Some (parseError370 group)
  else if bool_decide (idType = "20") then Some (parseWarning20 group)
  else Some group.

End Parse.

End KeepRight.

(** A character does not occur in a string. *)
Fixpoint freeOf (c : ascii) (s : string) : Prop :=
  match s with
  | EmptyString => True
  | String c' rest => c' ≠ c ∧ freeOf c rest
  end.

(** An item of the list that [parseError294] reads. *)
Definition item294 (item : string * string * string) : string :=
  (item.1.1 ++ " " ++ item.1.2 ++ " #" ++ item.2)%string.

(** What [parseError294] makes of it. *)
Definition link294 (item : string * string * string) : string :=
  String.concat " "
    [(KeepRight.quote ++ item.1.1 ++ KeepRight.quote)%string;
     item.1.2;
     KeepRight.linkEntity (KeepRight.slice item.1.2 0 (Some 1%nat) ++ item.2)%string].

(** Neither a comma nor a space occurs in the three words of an item. *)
Definition plainItem (item : string * string * string) : Prop :=
  (freeOf "," item.1.1 ∧ freeOf " " item.1.1)
  ∧ (freeOf "," item.1.2 ∧ freeOf " " item.1.2)
  ∧ (freeOf "," item.2 ∧ freeOf " " item.2).

(** * Properties *)

(** ** Auxiliary facts on tags and arrays *)

(** Case analysis on membership in a list that is written out. *)
Ltac in_list_cases H :=
  repeat (apply elem_of_cons in H as [->|H]); [..|by apply elem_of_nil in H].

Lemma indexOfFrom_absent (l : list string) (s : string) (i : Z) :
  0 <= i → (indexOfFrom i l s = -1 ↔ s ∉ l).
Proof.
  revert i. induction l as [|x l IH]; intros i Hi; simpl.
  - split; [intros _; apply not_elem_of_nil|done].
  - destruct (String.eqb_spec x s) as [->|Hne].
    + split; [lia|]. intros H. exfalso. apply H. left.
    + rewrite IH by lia. rewrite not_elem_of_cons. naive_solver.
Qed.

Lemma indexOf_found (l : list string) (v : option string) :
  negb (indexOf l v =? -1) = true ↔ ∃ s, v = Some s ∧ s ∈ l.
Proof.
  rewrite negb_true_iff, Z.eqb_neq. destruct v as [s|]; simpl.
  - rewrite (indexOfFrom_absent l s 0) by lia. split.
    + intros H. exists s. split; [done|]. by destruct (decide (s ∈ l)).
    + intros (s' & [= <-] & Hin) Hn. done.
  - split; [done|]. by intros (s & ? & _).
Qed.

Lemma indexOf_not_found (l : list string) (v : option string) :
  negb (indexOf l v =? -1) = false ↔ ¬ ∃ s, v = Some s ∧ s ∈ l.
Proof. rewrite <- indexOf_found. by destruct (negb _). Qed.

Lemma hasTag_no (tags : Tags) (key : string) :
  tags !! key = Some "no" → hasTag tags key = false.
Proof. intros H. unfold hasTag. rewrite H. by rewrite andb_false_r. Qed.

(** ** C4: fords *)

(** C4.  For a highway-waterway pair, in either order,
    [tagsForConnectionNodeIfAllowed] returns no connection ([null]) when both
    entities have a non-"no" tunnel tag, or both have a non-"no" bridge tag,
    or the highway value of either entity is one of motorway, motorway_link,
    trunk, trunk_link, primary, primary_link, secondary, secondary_link; in
    every other case it returns exactly [{ford: yes}]. *)
Theorem tagsForConnectionNode_highway_waterway (entity1 entity2 : Entity) :
  (getFeatureTypeForTags (tags entity1) = Some highway
     ∧ getFeatureTypeForTags (tags entity2) = Some waterway)
  ∨ (getFeatureTypeForTags (tags entity1) = Some waterway
     ∧ getFeatureTypeForTags (tags entity2) = Some highway) →
  let refused :=
    (hasTag (tags entity1) "tunnel" = true ∧ hasTag (tags entity2) "tunnel" = true)
    ∨ (hasTag (tags entity1) "bridge" = true ∧ hasTag (tags entity2) "bridge" = true)
    ∨ majorHighwayValue (tags entity1 !! "highway")
    ∨ majorHighwayValue (tags entity2 !! "highway") in
  (refused → tagsForConnectionNodeIfAllowed entity1 entity2 = None)
  ∧ (¬ refused → tagsForConnectionNodeIfAllowed entity1 entity2 = Some {["ford" := "yes"]}).
Proof.
  intros Htypes refused. subst refused. unfold majorHighwayValue.
  assert (tagsForConnectionNodeIfAllowed entity1 entity2 =
    if hasTag (tags entity1) "tunnel" && hasTag (tags entity2) "tunnel" then None
    else if hasTag (tags entity1) "bridge" && hasTag (tags entity2) "bridge" then None
    else if negb (indexOf highwaysDisallowingFords (tags entity1 !! "highway") =? -1)
            || negb (indexOf highwaysDisallowingFords (tags entity2 !! "highway") =? -1)
    then None else Some {["ford" := "yes"]}) as ->.
  { unfold tagsForConnectionNodeIfAllowed.
    destruct Htypes as [[-> ->]|[-> ->]]; reflexivity. }
  destruct (hasTag (tags entity1) "tunnel") eqn:T1, (hasTag (tags entity2) "tunnel") eqn:T2;
    simpl; try (split; [done|intros H; exfalso; apply H; by left]).
  all: destruct (hasTag (tags entity1) "bridge") eqn:B1, (hasTag (tags entity2) "bridge") eqn:B2;
    simpl; try (split; [done|intros H; exfalso; apply H; right; by left]).
  all: destruct (negb (indexOf highwaysDisallowingFords (tags entity1 !! "highway") =? -1)) eqn:H1;
    [apply indexOf_found in H1|apply indexOf_not_found in H1]; simpl;
    try (split; [done|intros H; exfalso; apply H; right; right; by left]).
  all: destruct (negb (indexOf highwaysDisallowingFords (tags entity2 !! "highway") =? -1)) eqn:H2;
    [apply indexOf_found in H2|apply indexOf_not_found in H2]; simpl;
    try (split; [done|intros H; exfalso; apply H; right; right; by right]).
  all: split; [|done]; intros [[? ?]|[[? ?]|[?|?]]]; congruence || done.
Qed.

Lemma tagsForConnectionNode_highway_waterway_witness :
  tagsForConnectionNodeIfAllowed Sample.road Sample.stream = Some {["ford" := "yes"]}.
Proof.
  apply (tagsForConnectionNode_highway_waterway Sample.road Sample.stream).
  - left. split; vm_compute; reflexivity.
  - intros [[H _]|[[H _]|[(s & H & Hin)|(s & H & _)]]].
    + vm_compute in H. discriminate H.
    + vm_compute in H. discriminate H.
    + vm_compute in H. injection H as <-.
      repeat (apply elem_of_cons in Hin as [Hin|Hin]; [discriminate Hin|]).
      by apply elem_of_nil in Hin.
    + vm_compute in H. discriminate H.
Defined.

(** ** C6: the fixes of an issue *)

(** C6, as the code has it.  The "connect features" fix (the only fix with a
    click handler) is in the fix list of an issue exactly when
    [tagsForConnectionNodeIfAllowed] returns a tag set for the two entities,
    and that tag set may be empty: for a same-category waterway pair or a
    same-category railway pair it is the empty set and the fix is offered.
    The last fix of every issue is the advisory "reposition features"
    fix. *)
Theorem createIssue_fixes (utilDisplayLabel : Entity → string)
    (t : string → list (string * string) → string)
    (sortWays : (Entity → Entity → bool) → Entity * Entity → Entity * Entity)
    (crossing : EdgeCrossing) (context : Context) :
  let issue := createIssue utilDisplayLabel t sortWays crossing context in
  let allowed := tagsForConnectionNodeIfAllowed (entities issue).1 (entities issue).2 in
  connectionTags (info issue) = allowed
  ∧ ((∃ f, f ∈ fixes issue ∧ onClick f ≠ None) ↔ allowed ≠ None)
  ∧ (getFeatureTypeForTags (tags (entities issue).1)
       = getFeatureTypeForTags (tags (entities issue).2)
     ∧ (getFeatureTypeForTags (tags (entities issue).1) = Some waterway
        ∨ getFeatureTypeForTags (tags (entities issue).1) = Some railway) →
     allowed = Some ∅
     ∧ mkFix (t "issues.fix.connect_features.title" []) (Some connectCrossingWays)
         ∈ fixes issue)
  ∧ last (fixes issue) = Some (mkFix (t "issues.fix.reposition_features.title" []) None).
Proof.
  intros issue allowed. subst issue allowed. unfold createIssue. cbn [entities info connectionTags fixes fst snd].
  set (ents := sortWays _ _).
  set (e1 := getFeatureWithFeatureTypeTagsForWay ents.1 _).
  set (e2 := getFeatureWithFeatureTypeTagsForWay ents.2 _).
  set (useFix := mkFix (t (_ ++ _ ++ _)%string []) None).
  split; [done|]. split; [|split].
  - destruct (tagsForConnectionNodeIfAllowed e1 e2) as [ct|]; simpl.
    + split; [done|]. intros _. eexists. split; [left|done].
    + split; [|done]. intros (f & Hf & Hc). exfalso.
      apply elem_of_cons in Hf as [->|Hf]; [by apply Hc|].
      apply elem_of_cons in Hf as [->|Hf]; [by apply Hc|].
      by apply elem_of_nil in Hf.
  - intros [Heq Hcat].
    assert (tagsForConnectionNodeIfAllowed e1 e2 = Some ∅) as ->.
    { unfold tagsForConnectionNodeIfAllowed. rewrite <- Heq.
      rewrite bool_decide_eq_true_2 by done.
      destruct Hcat as [-> | ->]; reflexivity. }
    split; [done|]. left.
  - destruct (tagsForConnectionNodeIfAllowed e1 e2); reflexivity.
Qed.

Lemma createIssue_fixes_witness :
  ∃ crossing,
    findCrossingsByWay Sample.layer0 geoLineIntersection Sample.brook
      Sample.twoStreams Sample.twoStreamsTree = Some [crossing]
    ∧ mkFix "issues.fix.connect_features.title" (Some connectCrossingWays)
        ∈ fixes (createIssue Sample.label Sample.t sortPairInsertion crossing
                   (mkContext Sample.twoStreams Sample.twoStreamsTree)).
Proof.
  eexists. split; [vm_compute; reflexivity|].
  apply (createIssue_fixes Sample.label Sample.t sortPairInsertion).
  split; [vm_compute; reflexivity|left; vm_compute; reflexivity].
Defined.

(** The claim as the specification words it fails: a stream crossing a
    stream yields the empty connection tag set, and the issue does offer the
    "connect features" fix. *)
Lemma connect_fix_with_empty_tags :
  map (λ issue, (connectionTags (info issue), fixes issue)) <$>
    validation Sample.layer0 geoLineIntersection Sample.label Sample.t sortPairInsertion
      Sample.brook (mkContext Sample.twoStreams Sample.twoStreamsTree)
  = Some [(Some (∅ : Tags),
           [mkFix "issues.fix.connect_features.title" (Some connectCrossingWays);
            mkFix "issues.fix.use_tunnel.title" None;
            mkFix "issues.fix.reposition_features.title" None])].
Proof. vm_compute. reflexivity. Qed.

(** ** C5: the order of the two entities of an issue *)

(** The claim as the specification words it fails.  A road is validated and
    crosses a stream: the issue lists the road first and the
    waterway-classified stream second, whichever way the engine calls the
    comparator. *)
Lemma waterway_is_not_first :
  let order := λ issue,
    (id (entities issue).1, getFeatureTypeForTags (tags (entities issue).1),
     id (entities issue).2, getFeatureTypeForTags (tags (entities issue).2)) in
  map order <$>
    validation Sample.layer0 geoLineIntersection Sample.label Sample.t sortPairInsertion
      Sample.road (mkContext Sample.roadAndStream Sample.roadAndStreamTree)
  = Some [("road", Some highway, "stream", Some waterway)]
  ∧ map order <$>
    validation Sample.layer0 geoLineIntersection Sample.label Sample.t sortPairBinaryInsertion
      Sample.road (mkContext Sample.roadAndStream Sample.roadAndStreamTree)
  = Some [("road", Some highway, "stream", Some waterway)].
Proof. split; vm_compute; reflexivity. Qed.

Lemma string_ltb_asym (s1 s2 : string) :
  String.ltb s1 s2 = true → String.ltb s2 s1 = false.
Proof.
  unfold String.ltb. rewrite (String.compare_antisym s1 s2).
  by destruct (String.compare s2 s1).
Qed.

(** An engine that moves the second element only on a negative result never
    reorders the two ways: the comparator returns 0 or 1. *)
Lemma sortPairBinaryInsertion_keeps {A} (comparefn : A → A → bool) (a : A * A) :
  sortPairBinaryInsertion comparefn a = a.
Proof. unfold sortPairBinaryInsertion. by destruct (comparefn a.2 a.1). Qed.

Lemma featureTypeName_order (f1 f2 : FeatureType) :
  f1 ≠ f2 →
  String.ltb (featureTypeName f1) (featureTypeName f2) = false →
  String.ltb (featureTypeName f2) (featureTypeName f1) = true.
Proof. destruct f1, f2; intros Hne H; try done; vm_compute in H; discriminate H. Qed.

(** C5, as the code has it.  The entities of an issue are the two ways of
    the crossing, each resolved to the feature that carries its category.
    Their order is the one the sort engine makes of a comparator that
    returns a boolean: with any engine that permutes the pair the issue lists
    the two features in one of the two orders; an engine that moves an
    element only on a negative result ([sortPairBinaryInsertion]) keeps the
    order of detection, the validated way first; an engine that exchanges
    the pair when the comparator returns [true] ([sortPairInsertion]) places
    a waterway-classified feature second when the categories differ, other
    categories in descending order of their names, and for equal categories
    the first label is not greater than the second. *)
Theorem createIssue_entities_order (utilDisplayLabel : Entity → string)
    (t : string → list (string * string) → string)
    (crossing : EdgeCrossing) (context : Context) :
  let graph := context_graph context in
  let resolved := λ w, getFeatureWithFeatureTypeTagsForWay w graph in
  (∀ sortWays : (Entity → Entity → bool) → Entity * Entity → Entity * Entity,
     (∀ comparefn a, sortWays comparefn a = a ∨ sortWays comparefn a = (a.2, a.1)) →
     let issue := createIssue utilDisplayLabel t sortWays crossing context in
     entities issue = (resolved (ways crossing).1, resolved (ways crossing).2)
     ∨ entities issue = (resolved (ways crossing).2, resolved (ways crossing).1))
  ∧ entities (createIssue utilDisplayLabel t sortPairBinaryInsertion crossing context)
    = (resolved (ways crossing).1, resolved (ways crossing).2)
  ∧ (let issue := createIssue utilDisplayLabel t sortPairInsertion crossing context in
     ∃ first second,
       ((first, second) = ways crossing ∨ (second, first) = ways crossing)
       ∧ entities issue = (resolved first, resolved second)
       ∧ let type1 := getFeatureTypeForTags (tags (entities issue).1) in
         let type2 := getFeatureTypeForTags (tags (entities issue).2) in
         (type1 = type2 →
          String.ltb (utilDisplayLabel second) (utilDisplayLabel first) = false)
         ∧ (type1 ≠ type2 → type1 ≠ Some waterway)
         ∧ (∀ f1 f2, type1 = Some f1 → type2 = Some f2 → f1 ≠ f2 → f2 ≠ waterway →
              String.ltb (featureTypeName f2) (featureTypeName f1) = true)).
Proof.
  intros graph resolved. split; [|split].
  - intros sortWays Hperm issue. subst issue. unfold createIssue.
    cbn [entities fst snd]. fold graph.
    destruct (Hperm (compareWays utilDisplayLabel graph) (ways crossing)) as [-> | ->];
      [by left|by right].
  - unfold createIssue. cbn [entities fst snd]. fold graph.
    by rewrite sortPairBinaryInsertion_keeps.
  - intros issue. subst issue. unfold createIssue.
    cbn [entities fst snd]. fold graph.
    destruct (ways crossing) as [x y] eqn:Hways.
    unfold sortPairInsertion. cbn [fst snd].
    destruct (compareWays utilDisplayLabel graph x y) eqn:Hcmp;
      cbn [Z.ltb Z.compare fst snd].
    + exists y, x. split; [by right|]. split; [done|]. subst resolved. cbn beta.
      fold (getFeatureTypeForCrossingCheck y graph).
      fold (getFeatureTypeForCrossingCheck x graph).
      unfold compareWays in Hcmp. cbn zeta in Hcmp.
      destruct (getFeatureTypeForCrossingCheck x graph) as [fx|] eqn:Hx,
               (getFeatureTypeForCrossingCheck y graph) as [fy|] eqn:Hy;
        repeat case_bool_decide; simplify_eq; cbn zeta;
        (split; [intros; try congruence|split; [intros; try congruence|]]);
        try (intros f1 f2 ? ? ? ?; simplify_eq);
        try done; try congruence.
      all: by apply string_ltb_asym.
    + exists x, y. split; [by left|]. split; [done|]. subst resolved. cbn beta.
      fold (getFeatureTypeForCrossingCheck y graph).
      fold (getFeatureTypeForCrossingCheck x graph).
      unfold compareWays in Hcmp. cbn zeta in Hcmp.
      destruct (getFeatureTypeForCrossingCheck x graph) as [fx|] eqn:Hx,
               (getFeatureTypeForCrossingCheck y graph) as [fy|] eqn:Hy;
        repeat case_bool_decide; simplify_eq; cbn zeta;
        (split; [intros; try congruence|split; [intros; try congruence|]]);
        try (intros f1 f2 ? ? ? ?; simplify_eq);
        try done; try congruence.
      all: by apply featureTypeName_order.
Qed.

Lemma createIssue_entities_order_witness :
  let context := mkContext Sample.roadAndStream Sample.roadAndStreamTree in
  let issue := λ sortWays,
    createIssue Sample.label Sample.t sortWays Sample.streamRoadCrossing context in
  findCrossingsByWay Sample.layer0 geoLineIntersection Sample.stream Sample.roadAndStream
    Sample.roadAndStreamTree = Some [Sample.streamRoadCrossing]
  ∧ (entities (issue (λ _ a, (a.2, a.1))) = (Sample.stream, Sample.road)
     ∨ entities (issue (λ _ a, (a.2, a.1))) = (Sample.road, Sample.stream))
  ∧ entities (issue sortPairBinaryInsertion) = (Sample.stream, Sample.road)
  ∧ entities (issue sortPairInsertion) = (Sample.road, Sample.stream)
  ∧ getFeatureTypeForTags (tags (entities (issue sortPairInsertion)).1) ≠ Some waterway.
Proof.
  intros context issue. split; [vm_compute; reflexivity|].
  destruct (createIssue_entities_order Sample.label Sample.t Sample.streamRoadCrossing
              context) as (Hany & Htim & first & second & _ & _ & _ & Hwater & _).
  split; [|split; [|split]].
  - apply (Hany (λ _ a, (a.2, a.1))). intros comparefn a. by right.
  - unfold issue. rewrite Htim. vm_compute. reflexivity.
  - vm_compute. reflexivity.
  - apply Hwater. vm_compute. discriminate.
Defined.

(** ** C10: tags with the value "no" *)

Section NoTags.

Variable layer : Entity → string.

(** [isLegitCrossing] looks at the tags only through the indoor test, the
    layer, and the presence of bridge, tunnel and covered. *)
Lemma isLegitCrossing_ext (graph : Graph) (way1 way1' way2 way2' : Entity)
    (featureType1 featureType2 : FeatureType) :
  let a := effectiveTags layer graph way1 in
  let a' := effectiveTags layer graph way1' in
  let b := effectiveTags layer graph way2 in
  let b' := effectiveTags layer graph way2' in
  tagsImplyIndoors a && tagsImplyIndoors b && bool_decide (a !! "level" ≠ b !! "level")
    = tagsImplyIndoors a' && tagsImplyIndoors b' && bool_decide (a' !! "level" ≠ b' !! "level") →
  a !! "layer" = a' !! "layer" → b !! "layer" = b' !! "layer" →
  (∀ key, key ∈ ["bridge"; "tunnel"; "covered"] → hasTag a key = hasTag a' key) →
  (∀ key, key ∈ ["bridge"; "tunnel"; "covered"] → hasTag b key = hasTag b' key) →
  isLegitCrossing layer way1 featureType1 way2 featureType2 graph
  = isLegitCrossing layer way1' featureType1 way2' featureType2 graph.
Proof.
  intros a a' b b' Hin Hla Hlb Ha Hb. unfold isLegitCrossing. cbn zeta.
  fold (effectiveTags layer graph way1) (effectiveTags layer graph way2)
       (effectiveTags layer graph way1') (effectiveTags layer graph way2').
  fold a a' b b'. rewrite Hin, Hla, Hlb.
  rewrite (Ha "bridge"), (Ha "tunnel"), (Ha "covered") by repeat constructor.
  rewrite (Hb "bridge"), (Hb "tunnel"), (Hb "covered") by repeat constructor.
  reflexivity.
Qed.

Lemma extendTagsByInferredLayer_lookup_ne (tags : Tags) (w : Entity) (key : string) :
  key ≠ "layer" → extendTagsByInferredLayer layer tags w !! key = tags !! key.
Proof.
  intros Hne. unfold extendTagsByInferredLayer.
  destruct (negb (hasTag tags "layer")); [|done]. by rewrite lookup_insert_ne.
Qed.

Lemma extendTagsByInferredLayer_hasTag_ne (tags : Tags) (w : Entity) (key : string) :
  key ≠ "layer" → hasTag (extendTagsByInferredLayer layer tags w) key = hasTag tags key.
Proof. intros Hne. unfold hasTag. by rewrite extendTagsByInferredLayer_lookup_ne. Qed.

Lemma hasTag_delete_no (tags : Tags) (key key' : string) :
  tags !! key = Some "no" → hasTag (delete key tags) key' = hasTag tags key'.
Proof.
  intros Hno. unfold hasTag. destruct (decide (key = key')) as [<-|Hne].
  - rewrite lookup_delete_eq, Hno. reflexivity.
  - by rewrite lookup_delete_ne.
Qed.

Lemma extendTagsByInferredLayer_delete_layer (tags : Tags) (w w' : Entity) (key : string) :
  key ≠ "layer" → layer w' = layer w →
  extendTagsByInferredLayer layer (delete key tags) w' !! "layer"
  = extendTagsByInferredLayer layer tags w !! "layer".
Proof.
  intros Hne Hl. unfold extendTagsByInferredLayer, hasTag.
  rewrite lookup_delete_ne by done.
  destruct (negb _).
  - by rewrite !lookup_insert_eq, Hl.
  - by rewrite lookup_delete_ne.
Qed.

Lemma extendTagsByInferredLayer_explicit (tags : Tags) (w w' : Entity) (key : string) :
  key ≠ "layer" → hasTag tags "layer" = true ∨ layer w' = layer w →
  extendTagsByInferredLayer layer (delete key tags) w' !! "layer"
  = extendTagsByInferredLayer layer tags w !! "layer".
Proof.
  intros Hne [Hhas|Hl]; [|by apply extendTagsByInferredLayer_delete_layer].
  unfold extendTagsByInferredLayer.
  assert (hasTag (delete key tags) "layer" = true) as ->.
  { unfold hasTag in *. by rewrite lookup_delete_ne. }
  rewrite Hhas. cbn [negb]. by rewrite lookup_delete_ne.
Qed.


End NoTags.



(** The proviso on the layer is needed.  With a layer method that puts every
    way with a bridge tag on layer 1, a building with [bridge=no] may cross
    another building, and may not once the tag is removed. *)
Example bridge_no_through_inferred_layer :
  let graph := MoreSamples.twoBuildingsBridgeNo in
  let featureTags := λ w, tags (getFeatureWithFeatureTypeTagsForWay w graph) in
  featureTags MoreSamples.wallBridgeNo !! "bridge" = Some "no"
  ∧ featureTags Sample.wall = delete "bridge" (featureTags MoreSamples.wallBridgeNo)
  ∧ hasTag (featureTags MoreSamples.wallBridgeNo) "layer" = false
  ∧ MoreSamples.layerOfBridge MoreSamples.wallBridgeNo = "1"
  ∧ MoreSamples.layerOfBridge Sample.wall = "0"
  ∧ isLegitCrossing MoreSamples.layerOfBridge MoreSamples.wallBridgeNo building
      Sample.outline building graph = true
  ∧ isLegitCrossing MoreSamples.layerOfBridge Sample.wall building
      Sample.outline building graph = false.
Proof. repeat split; vm_compute; reflexivity. Qed.

(** ** The loops of the detection *)

Lemma pushCrossings_spec (primaryWay : Entity) (primaryFeatureType : FeatureType)
    (w : Entity) (wayFeatureType : FeatureType) (n1 n2 : Entity) (oneOnly : bool)
    (crossCoords : list CrossCoord) (st : DetectState) :
  (pushCrossings primaryWay primaryFeatureType w wayFeatureType n1 n2 oneOnly crossCoords st).1
  = st.1 ++ map (crossingOf primaryWay primaryFeatureType w wayFeatureType n1 n2) crossCoords
  ∧ (pushCrossings primaryWay primaryFeatureType w wayFeatureType n1 n2 oneOnly crossCoords st).2
    = if oneOnly && negb (bool_decide (crossCoords = [])) then {[id w]} ∪ st.2 else st.2.
Proof.
  unfold pushCrossings. revert st.
  induction crossCoords as [|cc ccs IH]; intros st; simpl.
  - rewrite app_nil_r. split; [done|]. by rewrite andb_false_r.
  - destruct (IH (st.1 ++ [crossingOf primaryWay primaryFeatureType w wayFeatureType n1 n2 cc],
                  if oneOnly then {[id w]} ∪ st.2 else st.2)) as [H1 H2].
    unfold crossingOf in *. rewrite H1, H2. cbn [fst snd]. split.
    + by rewrite <- app_assoc.
    + destruct oneOnly; simpl; [|done].
      destruct (negb (bool_decide (ccs = []))); [|done]. set_solver.
Qed.

Lemma sharesNode_false (nA nB n1 n2 : Entity) :
  sharesNode nA nB n1 n2 = false → ¬ edgesShareNode (id nA, id nB) (id n1, id n2).
Proof.
  unfold sharesNode, edgesShareNode. rewrite !orb_false_iff, !bool_decide_eq_false.
  simpl. naive_solver.
Qed.

Section DetectionFacts.

Variable layer : Entity → string.
Variable geoLineIntersection : Loc * Loc → Loc * Loc → option Loc.

Lemma findEdgeToWayCrossCoords_loop_sound (n1 n2 : Entity) (oneOnly : bool)
    (nodes : list Entity) (cc : CrossCoord) :
  cc ∈ findEdgeToWayCrossCoords_loop geoLineIntersection n1 n2 oneOnly nodes →
  ∃ j nA nB,
    nodes !! j = Some nA ∧ nodes !! S j = Some nB
    ∧ sharesNode nA nB n1 n2 = false
    ∧ geoLineIntersection (loc n1, loc n2) (loc nA, loc nB) = Some (point cc)
    ∧ edge cc = (id nA, id nB).
Proof.
  induction nodes as [|nA nodes IH]; [by intros ?%elem_of_nil|].
  destruct nodes as [|nB rest]; [by intros ?%elem_of_nil|].
  cbn [findEdgeToWayCrossCoords_loop].
  assert (cc ∈ findEdgeToWayCrossCoords_loop geoLineIntersection n1 n2 oneOnly (nB :: rest) →
          ∃ j nA0 nB0, (nA :: nB :: rest) !! j = Some nA0 ∧ (nA :: nB :: rest) !! S j = Some nB0
            ∧ sharesNode nA0 nB0 n1 n2 = false
            ∧ geoLineIntersection (loc n1, loc n2) (loc nA0, loc nB0) = Some (point cc)
            ∧ edge cc = (id nA0, id nB0)) as Hrest.
  { intros H. destruct (IH H) as (j & a & b & ? & ? & ?). by exists (S j), a, b. }
  destruct (sharesNode nA nB n1 n2) eqn:Hshare; [done|].
  destruct (geoLineIntersection (loc n1, loc n2) (loc nA, loc nB)) as [pt|] eqn:Hpt; [|done].
  intros [->|Hin]%elem_of_cons.
  - by exists 0%nat, nA, nB.
  - destruct oneOnly; [by apply elem_of_nil in Hin|by apply Hrest].
Qed.

(** With [oneOnly] the loop stops at the first intersection. *)
Lemma findEdgeToWayCrossCoords_loop_oneOnly (n1 n2 : Entity) (nodes : list Entity) :
  (length (findEdgeToWayCrossCoords_loop geoLineIntersection n1 n2 true nodes) ≤ 1)%nat.
Proof.
  induction nodes as [|nA nodes IH]; [simpl; lia|].
  destruct nodes as [|nB rest]; [simpl; lia|].
  cbn [findEdgeToWayCrossCoords_loop].
  destruct (sharesNode nA nB n1 n2); [done|].
  destruct (geoLineIntersection _ _); [simpl; lia|done].
Qed.

(** Without [oneOnly] every intersection of an edge that shares no node is
    in the result. *)
Lemma findEdgeToWayCrossCoords_loop_complete (n1 n2 : Entity) (nodes : list Entity)
    (j : nat) (nA nB : Entity) (pt : Loc) :
  nodes !! j = Some nA → nodes !! S j = Some nB →
  sharesNode nA nB n1 n2 = false →
  geoLineIntersection (loc n1, loc n2) (loc nA, loc nB) = Some pt →
  mkCrossCoord (id nA, id nB) pt
    ∈ findEdgeToWayCrossCoords_loop geoLineIntersection n1 n2 false nodes.
Proof.
  revert j. induction nodes as [|a nodes IH]; intros j Hj HSj Hshare Hpt; [done|].
  destruct nodes as [|b rest]; [done|].
  cbn [findEdgeToWayCrossCoords_loop].
  destruct j as [|j].
  - simpl in Hj, HSj. simplify_eq. rewrite Hshare, Hpt. left.
  - assert (mkCrossCoord (id nA, id nB) pt
              ∈ findEdgeToWayCrossCoords_loop geoLineIntersection n1 n2 false (b :: rest))
      as Hin by (by apply (IH j)).
    destruct (sharesNode a b n1 n2); [done|].
    destruct (geoLineIntersection (loc n1, loc n2) (loc a, loc b)); [by right|done].
Qed.

(** What one candidate does to the state. *)
Lemma checkCandidate_cases (primaryWay : Entity) (primaryFeatureType : FeatureType)
    (graph : Graph) (n1 n2 : Entity) (st st' : DetectState) (w : Entity) :
  checkCandidate layer geoLineIntersection primaryWay primaryFeatureType graph n1 n2 st w
    = Some st' →
  st' = st
  ∨ ∃ wayFeatureType crossCoords,
      type w = way ∧ (id w ∉ st.2) ∧ id w ≠ id primaryWay
      ∧ getFeatureTypeForCrossingCheck w graph = Some wayFeatureType
      ∧ isLegitCrossing layer primaryWay primaryFeatureType w wayFeatureType graph = false
      ∧ isLegitCrossing layer w wayFeatureType primaryWay primaryFeatureType graph = false
      ∧ findEdgeToWayCrossCoords geoLineIntersection n1 n2 w graph
          (bool_decide (primaryFeatureType = building) || bool_decide (wayFeatureType = building))
        = Some crossCoords
      ∧ st' = pushCrossings primaryWay primaryFeatureType w wayFeatureType n1 n2
                (bool_decide (primaryFeatureType = building)
                 || bool_decide (wayFeatureType = building)) crossCoords st.
Proof.
  unfold checkCandidate.
  destruct (bool_decide (type w = way)) eqn:Hty; cbn [negb];
    [|intros [= <-]; by left].
  destruct (bool_decide (id w ∈ st.2)) eqn:Hch; [intros [= <-]; by left|].
  destruct (bool_decide (id w = id primaryWay)) eqn:Hid; [intros [= <-]; by left|].
  destruct (getFeatureTypeForCrossingCheck w graph) as [wF|] eqn:HwF;
    [|intros [= <-]; by left].
  destruct (isLegitCrossing layer primaryWay primaryFeatureType w wF graph) eqn:L1;
    cbn [orb]; [intros [= <-]; by left|].
  destruct (isLegitCrossing layer w wF primaryWay primaryFeatureType graph) eqn:L2;
    [intros [= <-]; by left|].
  intros (ccs & Hccs & [= <-])%bind_Some. right. exists wF, ccs.
  apply bool_decide_eq_true in Hty. apply bool_decide_eq_false in Hch, Hid. done.
Qed.

(** Invariants of the two loops. *)
Lemma checkCandidates_invariant (P : DetectState → Prop) (primaryWay : Entity)
    (primaryFeatureType : FeatureType) (graph : Graph) (n1 n2 : Entity)
    (intersected : list Entity) (st st' : DetectState) :
  (∀ s s' w, w ∈ intersected → P s →
     checkCandidate layer geoLineIntersection primaryWay primaryFeatureType graph n1 n2 s w
       = Some s' → P s') →
  P st →
  checkCandidates layer geoLineIntersection primaryWay primaryFeatureType graph n1 n2
    intersected st = Some st' →
  P st'.
Proof.
  revert st. induction intersected as [|w rest IH]; intros st Hstep HP.
  - by intros [= <-].
  - cbn [checkCandidates]. intros (s1 & H1 & H2)%bind_Some. revert H2.
    apply IH.
    + intros s s' w' Hin. apply Hstep. by right.
    + eapply Hstep; [left|exact HP|exact H1].
Qed.

Lemma findCrossingsByWay_loop_step (primaryWay : Entity)
    (primaryFeatureType : FeatureType) (graph : Graph) (tree : Tree)
    (nid1 nid2 : string) (rest : list string) (st : DetectState) :
  findCrossingsByWay_loop layer geoLineIntersection primaryWay primaryFeatureType graph tree
    (nid1 :: nid2 :: rest) st
  = (n1 ← entity graph nid1;
     n2 ← entity graph nid2;
     st' ← checkCandidates layer geoLineIntersection primaryWay primaryFeatureType graph
             n1 n2 (intersects tree (edgeExtent n1 n2) graph) st;
     findCrossingsByWay_loop layer geoLineIntersection primaryWay primaryFeatureType graph
       tree (nid2 :: rest) st').
Proof. reflexivity. Qed.

Lemma findCrossingsByWay_loop_invariant (P : DetectState → Prop) (primaryWay : Entity)
    (primaryFeatureType : FeatureType) (graph : Graph) (tree : Tree)
    (nids : list string) (st st' : DetectState) :
  (∀ n1 n2 s s' w, w ∈ intersects tree (edgeExtent n1 n2) graph → P s →
     checkCandidate layer geoLineIntersection primaryWay primaryFeatureType graph n1 n2 s w
       = Some s' → P s') →
  P st →
  findCrossingsByWay_loop layer geoLineIntersection primaryWay primaryFeatureType graph tree
    nids st = Some st' →
  P st'.
Proof.
  intros Hstep. revert st. induction nids as [|nid1 nids IH]; intros st HP.
  - by intros [= <-].
  - destruct nids as [|nid2 rest]; [by intros [= <-]|].
    rewrite findCrossingsByWay_loop_step.
    intros (n1 & Hn1 & (n2 & Hn2 & (s1 & H1 & H2)%bind_Some)%bind_Some)%bind_Some.
    revert H2. apply IH.
    eapply (checkCandidates_invariant P); [|exact HP|exact H1].
    intros s s' w Hin. by apply Hstep.
Qed.

Lemma extends_refl (s : DetectState) : extends s s.
Proof. split; [exists []; by rewrite app_nil_r|done]. Qed.

Lemma extends_trans (s1 s2 s3 : DetectState) :
  extends s1 s2 → extends s2 s3 → extends s1 s3.
Proof.
  intros [[l1 H1] S1] [[l2 H2] S2]. split.
  - exists (l1 ++ l2). by rewrite H2, H1, app_assoc.
  - set_solver.
Qed.

Lemma extends_elem_of (s s' : DetectState) (c : EdgeCrossing) :
  extends s s' → c ∈ s.1 → c ∈ s'.1.
Proof. intros [[l ->] _] Hin. apply elem_of_app. by left. Qed.

Lemma checkCandidate_extends (primaryWay : Entity) (primaryFeatureType : FeatureType)
    (graph : Graph) (n1 n2 : Entity) (st st' : DetectState) (w : Entity) :
  checkCandidate layer geoLineIntersection primaryWay primaryFeatureType graph n1 n2 st w
    = Some st' →
  extends st st'.
Proof.
  intros [->|(wF & ccs & _ & _ & _ & _ & _ & _ & _ & ->)]%checkCandidate_cases;
    [apply extends_refl|].
  destruct (pushCrossings_spec primaryWay primaryFeatureType w wF n1 n2
              (bool_decide (primaryFeatureType = building) || bool_decide (wF = building))
              ccs st) as [H1 H2].
  split; [by eexists|]. rewrite H2. destruct (_ && _); set_solver.
Qed.

(** A candidate that passes the guards and is legitimate in neither order
    is examined: every cross coordinate found becomes an [EdgeCrossing]. *)
Lemma checkCandidate_examined (primaryWay : Entity) (primaryFeatureType : FeatureType)
    (graph : Graph) (n1 n2 : Entity) (st : DetectState) (w : Entity)
    (wayFeatureType : FeatureType) :
  type w = way → id w ∉ st.2 → id w ≠ id primaryWay →
  getFeatureTypeForCrossingCheck w graph = Some wayFeatureType →
  isLegitCrossing layer primaryWay primaryFeatureType w wayFeatureType graph = false →
  isLegitCrossing layer w wayFeatureType primaryWay primaryFeatureType graph = false →
  checkCandidate layer geoLineIntersection primaryWay primaryFeatureType graph n1 n2 st w
  = (crossCoords ← findEdgeToWayCrossCoords geoLineIntersection n1 n2 w graph
                     (bool_decide (primaryFeatureType = building)
                      || bool_decide (wayFeatureType = building));
     Some (pushCrossings primaryWay primaryFeatureType w wayFeatureType n1 n2
             (bool_decide (primaryFeatureType = building)
              || bool_decide (wayFeatureType = building)) crossCoords st)).
Proof.
  intros Hty Hch Hid HwF L1 L2. unfold checkCandidate.
  rewrite (bool_decide_eq_true_2 _ Hty), (bool_decide_eq_false_2 _ Hch),
    (bool_decide_eq_false_2 _ Hid), HwF, L1, L2.
  reflexivity.
Qed.

(** Every candidate of every edge is visited, in a state that satisfies the
    invariant and that the final state extends. *)
Lemma checkCandidates_visit (P : DetectState → Prop) (primaryWay : Entity)
    (primaryFeatureType : FeatureType) (graph : Graph) (n1 n2 : Entity)
    (intersected : list Entity) (st st' : DetectState) (w : Entity) :
  (∀ s s' w, w ∈ intersected → P s →
     checkCandidate layer geoLineIntersection primaryWay primaryFeatureType graph n1 n2 s w
       = Some s' → P s') →
  P st →
  checkCandidates layer geoLineIntersection primaryWay primaryFeatureType graph n1 n2
    intersected st = Some st' →
  w ∈ intersected →
  ∃ s s', P s
    ∧ checkCandidate layer geoLineIntersection primaryWay primaryFeatureType graph n1 n2 s w
      = Some s'
    ∧ extends s' st'.
Proof.
  revert st. induction intersected as [|w0 rest IH]; intros st Hstep HP Hrun Hin;
    [by apply elem_of_nil in Hin|].
  cbn [checkCandidates] in Hrun. apply bind_Some in Hrun as (s1 & H1 & H2).
  apply elem_of_cons in Hin as [->|Hin].
  - exists st, s1. split; [done|]. split; [done|].
    apply (checkCandidates_invariant (extends s1) primaryWay primaryFeatureType graph
             n1 n2 rest s1 st'); [|apply extends_refl|exact H2].
    intros s s' w' _ He Hc. eapply extends_trans; [exact He|].
    by eapply checkCandidate_extends.
  - apply (IH s1); [|eapply Hstep; [left|done..]|done..].
    intros s s' w' Hw'. apply Hstep. by right.
Qed.

Lemma findCrossingsByWay_loop_extends (primaryWay : Entity)
    (primaryFeatureType : FeatureType) (graph : Graph) (tree : Tree)
    (nids : list string) (st st' : DetectState) :
  findCrossingsByWay_loop layer geoLineIntersection primaryWay primaryFeatureType graph tree
    nids st = Some st' →
  extends st st'.
Proof.
  apply (findCrossingsByWay_loop_invariant (extends st)); [|apply extends_refl].
  intros n1 n2 s s' w _ He Hc. eapply extends_trans; [exact He|].
  by eapply checkCandidate_extends.
Qed.

Lemma findCrossingsByWay_loop_visit (P : DetectState → Prop) (primaryWay : Entity)
    (primaryFeatureType : FeatureType) (graph : Graph) (tree : Tree)
    (nids : list string) (st st' : DetectState) (i : nat) (nid1 nid2 : string) :
  (∀ n1 n2 s s' w, w ∈ intersects tree (edgeExtent n1 n2) graph → P s →
     checkCandidate layer geoLineIntersection primaryWay primaryFeatureType graph n1 n2 s w
       = Some s' → P s') →
  P st →
  findCrossingsByWay_loop layer geoLineIntersection primaryWay primaryFeatureType graph tree
    nids st = Some st' →
  nids !! i = Some nid1 → nids !! S i = Some nid2 →
  ∃ n1 n2, graph !! nid1 = Some n1 ∧ graph !! nid2 = Some n2
    ∧ ∀ w, w ∈ intersects tree (edgeExtent n1 n2) graph →
        ∃ s s', P s
          ∧ checkCandidate layer geoLineIntersection primaryWay primaryFeatureType graph
              n1 n2 s w = Some s'
          ∧ extends s' st'.
Proof.
  intros Hstep. revert st i.
  induction nids as [|a nids IH]; intros st i HP Hrun Hi HSi; [done|].
  destruct nids as [|b rest]; [done|].
  rewrite findCrossingsByWay_loop_step in Hrun.
  apply bind_Some in Hrun as (n1 & Hn1 & Hrun).
  apply bind_Some in Hrun as (n2 & Hn2 & Hrun).
  apply bind_Some in Hrun as (s1 & H1 & H2).
  assert (P s1) as HP1.
  { eapply (checkCandidates_invariant P); [|exact HP|exact H1].
    intros s s' w Hin. by apply Hstep. }
  destruct i as [|i].
  - simpl in Hi, HSi. simplify_eq. exists n1, n2. split; [done|]. split; [done|].
    intros w Hw.
    destruct (checkCandidates_visit P primaryWay primaryFeatureType graph n1 n2
                (intersects tree (edgeExtent n1 n2) graph) st s1 w)
      as (s & s' & HPs & Hc & He); [|done..|].
    { intros s s' w' Hin. by apply Hstep. }
    exists s, s'. split; [done|]. split; [done|].
    eapply extends_trans; [exact He|]. by eapply findCrossingsByWay_loop_extends.
  - by apply (IH s1 i).
Qed.

Lemma findEdgeToWayCrossCoords_loop_nonempty (n1 n2 : Entity) (oneOnly : bool)
    (nodes : list Entity) (j : nat) (nA nB : Entity) (pt : Loc) :
  nodes !! j = Some nA → nodes !! S j = Some nB →
  sharesNode nA nB n1 n2 = false →
  geoLineIntersection (loc n1, loc n2) (loc nA, loc nB) = Some pt →
  findEdgeToWayCrossCoords_loop geoLineIntersection n1 n2 oneOnly nodes ≠ [].
Proof.
  revert j. induction nodes as [|a nodes IH]; intros j Hj HSj Hshare Hpt; [done|].
  destruct nodes as [|b rest]; [done|].
  cbn [findEdgeToWayCrossCoords_loop].
  destruct j as [|j].
  - simpl in Hj, HSj. simplify_eq. by rewrite Hshare, Hpt.
  - assert (findEdgeToWayCrossCoords_loop geoLineIntersection n1 n2 oneOnly (b :: rest) ≠ [])
      as Hne by (by apply (IH j)).
    destruct (sharesNode a b n1 n2); [done|].
    by destruct (geoLineIntersection (loc n1, loc n2) (loc a, loc b)).
Qed.

Lemma checkCandidate_flaggedReported (primaryWay : Entity)
    (primaryFeatureType : FeatureType) (graph : Graph) (n1 n2 : Entity)
    (s s' : DetectState) (w : Entity) :
  flaggedReported s →
  checkCandidate layer geoLineIntersection primaryWay primaryFeatureType graph n1 n2 s w
    = Some s' →
  flaggedReported s'.
Proof.
  intros HQ [->|(wF & ccs & _ & _ & _ & _ & _ & _ & _ & ->)]%checkCandidate_cases; [done|].
  destruct (pushCrossings_spec primaryWay primaryFeatureType w wF n1 n2
              (bool_decide (primaryFeatureType = building) || bool_decide (wF = building))
              ccs s) as [H1 H2].
  intros i. rewrite H1, H2. intros Hi.
  assert (i ∈ s.2 ∨ (i = id w ∧ ccs ≠ [])) as [Hold|[-> Hne]].
  { destruct (_ || _); simpl in Hi; [|by left].
    case_bool_decide; simpl in Hi; [by left|].
    apply elem_of_union in Hi as [->%elem_of_singleton|Hi]; [by right|by left]. }
  - destruct (HQ i Hold) as (c & Hc & Hid). exists c. split; [|done].
    apply elem_of_app. by left.
  - destruct ccs as [|cc ccs]; [done|].
    exists (crossingOf primaryWay primaryFeatureType w wF n1 n2 cc). split; [|done].
    apply elem_of_app. right. left.
Qed.

End DetectionFacts.

(** ** C2: edges that share a node *)

Lemma findEdgeToWayCrossCoords_disjoint
    (geoLineIntersection : Loc * Loc → Loc * Loc → option Loc)
    (n1 n2 w : Entity) (graph : Graph) (oneOnly : bool) (crossCoords : list CrossCoord) :
  findEdgeToWayCrossCoords geoLineIntersection n1 n2 w graph oneOnly = Some crossCoords →
  ∀ cc, cc ∈ crossCoords → ¬ edgesShareNode (edge cc) (id n1, id n2).
Proof.
  intros (ns & Hns & [= <-])%bind_Some cc Hcc.
  apply findEdgeToWayCrossCoords_loop_sound in Hcc
    as (j & nA & nB & _ & _ & Hshare & _ & ->).
  by apply sharesNode_false.
Qed.

Lemma findCrossingsByWay_edges_disjoint (layer : Entity → string)
    (geoLineIntersection : Loc * Loc → Loc * Loc → option Loc)
    (primaryWay : Entity) (graph : Graph) (tree : Tree) (crossings : list EdgeCrossing) :
  findCrossingsByWay layer geoLineIntersection primaryWay graph tree = Some crossings →
  ∀ crossing, crossing ∈ crossings →
    ¬ edgesShareNode (edges crossing).2 (edges crossing).1.
Proof.
  intros Hrun crossing Hin.
  unfold findCrossingsByWay in Hrun.
  destruct (negb (bool_decide (type primaryWay = way)));
    [injection Hrun as <-; by apply elem_of_nil in Hin|].
  destruct (getFeatureTypeForCrossingCheck primaryWay graph) as [pF|];
    [|injection Hrun as <-; by apply elem_of_nil in Hin].
  apply bind_Some in Hrun as (st & Hloop & [= <-]).
  revert crossing Hin.
  apply (findCrossingsByWay_loop_invariant layer geoLineIntersection
           (λ s, ∀ c, c ∈ s.1 → ¬ edgesShareNode (edges c).2 (edges c).1)
           primaryWay pF graph tree (nodes primaryWay) ([], ∅) st);
    [|by intros c ?%elem_of_nil|exact Hloop].
  intros n1 n2 s s' w _ HP Hstep.
  apply checkCandidate_cases in Hstep as [->|(wF & ccs & _ & _ & _ & _ & _ & _ & Hccs & ->)];
    [exact HP|].
  intros c. rewrite (proj1 (pushCrossings_spec _ _ _ _ _ _ _ _ _)).
  intros [Hc|Hc]%elem_of_app; [by apply HP|].
  apply list_elem_of_fmap in Hc as (cc & -> & Hcc). simpl.
  by eapply findEdgeToWayCrossCoords_disjoint.
Qed.

Lemma collectCrossings_elem (layer : Entity → string)
    (geoLineIntersection : Loc * Loc → Loc * Loc → option Loc)
    (graph : Graph) (tree : Tree) (toCheck : list (option Entity))
    (array crossings : list EdgeCrossing) :
  collectCrossings layer geoLineIntersection graph tree toCheck array = Some crossings →
  ∀ c, c ∈ crossings →
    c ∈ array
    ∨ ∃ w found, Some w ∈ toCheck
        ∧ findCrossingsByWay layer geoLineIntersection w graph tree = Some found
        ∧ c ∈ found.
Proof.
  revert array. induction toCheck as [|w rest IH]; intros array.
  - intros [= <-] c Hc. by left.
  - cbn [collectCrossings]. intros (found & Hfound & Hrest)%bind_Some c Hc.
    destruct (IH _ Hrest c Hc) as [Hin|(w' & found' & Hw' & Hrun & Hin)].
    + apply elem_of_app in Hin as [Hin|Hin]; [by left|]. right.
      destruct w as [w|]; [|injection Hfound as <-; by apply elem_of_nil in Hin].
      exists w, found. split; [left|done].
    + right. exists w', found'. split; [by right|done].
Qed.

Lemma validation_issue_origin (layer : Entity → string)
    (geoLineIntersection : Loc * Loc → Loc * Loc → option Loc)
    (utilDisplayLabel : Entity → string) (t : string → list (string * string) → string)
    (sortWays : (Entity → Entity → bool) → Entity * Entity → Entity * Entity)
    (entity0 : Entity) (context : Context) (issues : list Issue) (issue : Issue) :
  validation layer geoLineIntersection utilDisplayLabel t sortWays entity0 context
    = Some issues →
  issue ∈ issues →
  ∃ w found crossing,
    findCrossingsByWay layer geoLineIntersection w (context_graph context)
      (context_tree context) = Some found
    ∧ crossing ∈ found
    ∧ issue = createIssue utilDisplayLabel t sortWays crossing context.
Proof.
  unfold validation. cbn zeta. intros (crossings & Hcollect & [= <-])%bind_Some Hin.
  apply list_elem_of_fmap in Hin as (crossing & -> & Hin).
  destruct (collectCrossings_elem _ _ _ _ _ _ _ Hcollect crossing Hin)
    as [Hnil|(w & found & _ & Hrun & Hfound)]; [by apply elem_of_nil in Hnil|].
  by exists w, found, crossing.
Qed.

(** C2.  A candidate edge that has a node id in common with the primary edge
    [(n1, n2)] is never reported: every cross coordinate that
    [findEdgeToWayCrossCoords] returns belongs to a candidate edge that shares
    no endpoint with the primary edge, and in every [EdgeCrossing] that
    [findCrossingsByWay] emits the two edges have no node in common.  So two
    ways connected at a segment endpoint produce no crossing for the edges
    that meet there, and neither does any issue of a validation pass. *)
Theorem shared_node_is_no_crossing (layer : Entity → string)
    (geoLineIntersection : Loc * Loc → Loc * Loc → option Loc) :
  (∀ n1 n2 w graph oneOnly crossCoords,
     findEdgeToWayCrossCoords geoLineIntersection n1 n2 w graph oneOnly = Some crossCoords →
     ∀ cc, cc ∈ crossCoords → ¬ edgesShareNode (edge cc) (id n1, id n2))
  ∧ (∀ primaryWay graph tree crossings,
       findCrossingsByWay layer geoLineIntersection primaryWay graph tree = Some crossings →
       ∀ crossing, crossing ∈ crossings →
         ¬ edgesShareNode (edges crossing).2 (edges crossing).1)
  ∧ (∀ utilDisplayLabel t sortWays entity0 context issues,
       validation layer geoLineIntersection utilDisplayLabel t sortWays entity0 context
         = Some issues →
       ∀ issue, issue ∈ issues →
         ¬ edgesShareNode (info_edges (info issue)).2 (info_edges (info issue)).1).
Proof.
  split; [|split].
  - apply findEdgeToWayCrossCoords_disjoint.
  - apply findCrossingsByWay_edges_disjoint.
  - intros utilDisplayLabel t sortWays entity0 context issues Hval issue Hin.
    destruct (validation_issue_origin _ _ _ _ _ _ _ _ _ Hval Hin)
      as (w & found & crossing & Hrun & Hfound & ->).
    by apply (findCrossingsByWay_edges_disjoint _ _ _ _ _ _ Hrun).
Qed.

(** Two roads that meet in a shared node: their edges touch at the node
    and nothing is reported. *)
Example connected_roads_do_not_cross :
  findCrossingsByWay Sample.layer0 geoLineIntersection Sample.mainStreet Sample.junction
    Sample.junctionTree = Some []
  ∧ geoLineIntersection (loc Sample.a, loc Sample.o) (loc Sample.c, loc Sample.o)
    = Some (0%Q, 0%Q).
Proof. split; vm_compute; reflexivity. Qed.

Lemma shared_node_is_no_crossing_witness :
  findCrossingsByWay Sample.layer0 geoLineIntersection Sample.road Sample.roadAndBypass
    Sample.roadAndBypassTree = Some [Sample.roadBypassCrossing]
  ∧ ¬ edgesShareNode (edges Sample.roadBypassCrossing).2 (edges Sample.roadBypassCrossing).1.
Proof.
  assert (findCrossingsByWay Sample.layer0 geoLineIntersection Sample.road
            Sample.roadAndBypass Sample.roadAndBypassTree = Some [Sample.roadBypassCrossing])
    as Hrun by (vm_compute; reflexivity).
  split; [exact Hrun|].
  apply (proj1 (proj2 (shared_node_is_no_crossing Sample.layer0 geoLineIntersection))
           Sample.road Sample.roadAndBypass Sample.roadAndBypassTree
           [Sample.roadBypassCrossing] Hrun).
  left.
Defined.

(** ** C1: legitimate pairs are suppressed *)

(** C1.  During detection a candidate pair is suppressed if and only if the
    legitimacy check returns true in at least one of the two argument orders.
    If it does, [findCrossingsByWay] emits no crossing with that candidate.
    If it does in neither order, and the candidate (a way other than the
    primary way, with a category, that the index returns for a primary edge)
    has an edge that shares no node with the primary edge and intersects it,
    then a crossing with that candidate is emitted.  In particular, when both
    categories allow bridges and exactly one of the two features has a
    non-"no" bridge tag, the check is true in both argument orders. *)
Theorem legitimate_pair_is_suppressed (layer : Entity → string)
    (geoLineIntersection : Loc * Loc → Loc * Loc → option Loc) :
  (∀ primaryWay graph tree crossings primaryFeatureType w wayFeatureType,
     findCrossingsByWay layer geoLineIntersection primaryWay graph tree = Some crossings →
     getFeatureTypeForCrossingCheck primaryWay graph = Some primaryFeatureType →
     getFeatureTypeForCrossingCheck w graph = Some wayFeatureType →
     isLegitCrossing layer primaryWay primaryFeatureType w wayFeatureType graph = true
     ∨ isLegitCrossing layer w wayFeatureType primaryWay primaryFeatureType graph = true →
     ∀ crossing, crossing ∈ crossings → (ways crossing).2 ≠ w)
  ∧ (∀ primaryWay graph tree crossings primaryFeatureType w wayFeatureType
       i nid1 nid2 n1 n2 wayNodes j nA nB crossPoint,
       findCrossingsByWay layer geoLineIntersection primaryWay graph tree = Some crossings →
       type primaryWay = way →
       getFeatureTypeForCrossingCheck primaryWay graph = Some primaryFeatureType →
       nodes primaryWay !! i = Some nid1 → nodes primaryWay !! S i = Some nid2 →
       entity graph nid1 = Some n1 → entity graph nid2 = Some n2 →
       w ∈ intersects tree (edgeExtent n1 n2) graph →
       type w = way → id w ≠ id primaryWay →
       getFeatureTypeForCrossingCheck w graph = Some wayFeatureType →
       isLegitCrossing layer primaryWay primaryFeatureType w wayFeatureType graph = false →
       isLegitCrossing layer w wayFeatureType primaryWay primaryFeatureType graph = false →
       childNodes graph w = Some wayNodes →
       wayNodes !! j = Some nA → wayNodes !! S j = Some nB →
       sharesNode nA nB n1 n2 = false →
       geoLineIntersection (loc n1, loc n2) (loc nA, loc nB) = Some crossPoint →
       ∃ crossing, crossing ∈ crossings ∧ id (ways crossing).2 = id w)
  ∧ (∀ way1 featureType1 way2 featureType2 graph,
       allowsBridge featureType1 = true → allowsBridge featureType2 = true →
       hasTag (tags (getFeatureWithFeatureTypeTagsForWay way1 graph)) "bridge"
       ≠ hasTag (tags (getFeatureWithFeatureTypeTagsForWay way2 graph)) "bridge" →
       isLegitCrossing layer way1 featureType1 way2 featureType2 graph = true
       ∧ isLegitCrossing layer way2 featureType2 way1 featureType1 graph = true).
Proof.
  split; [|split].
  - intros primaryWay graph tree crossings pF w wF Hrun HpF HwF Hlegit crossing Hin.
    unfold findCrossingsByWay in Hrun.
    destruct (negb (bool_decide (type primaryWay = way)));
      [injection Hrun as <-; by apply elem_of_nil in Hin|].
    rewrite HpF in Hrun. apply bind_Some in Hrun as (st & Hloop & [= <-]).
    revert crossing Hin.
    apply (findCrossingsByWay_loop_invariant layer geoLineIntersection
             (λ s, ∀ c, c ∈ s.1 → (ways c).2 ≠ w)
             primaryWay pF graph tree (nodes primaryWay) ([], ∅) st);
      [|by intros c ?%elem_of_nil|exact Hloop].
    intros n1 n2 s s' w' _ HP Hstep.
    apply checkCandidate_cases in Hstep
      as [->|(wF' & ccs & _ & _ & _ & HwF' & L1 & L2 & _ & ->)]; [exact HP|].
    intros c. rewrite (proj1 (pushCrossings_spec _ _ _ _ _ _ _ _ _)).
    intros [Hc|Hc]%elem_of_app; [by apply HP|].
    apply list_elem_of_fmap in Hc as (cc & -> & _). simpl. intros ->.
    rewrite HwF in HwF'. injection HwF' as <-.
    destruct Hlegit; congruence.
  - intros primaryWay graph tree crossings pF w wF i nid1 nid2 n1 n2 wayNodes j nA nB pt
      Hrun Hty HpF Hi HSi Hn1 Hn2 Hw Htw Hid HwF L1 L2 Hnodes Hj HSj Hshare Hpt.
    unfold findCrossingsByWay in Hrun.
    rewrite (bool_decide_eq_true_2 _ Hty), HpF in Hrun. cbn [negb] in Hrun.
    apply bind_Some in Hrun as (st & Hloop & [= <-]).
    destruct (findCrossingsByWay_loop_visit layer geoLineIntersection
                (flaggedReported) primaryWay pF graph tree (nodes primaryWay)
                ([], ∅) st i nid1 nid2) as (m1 & m2 & Hm1 & Hm2 & Hvisit); [|done..|].
    { intros ? ? s s' w' _. apply checkCandidate_flaggedReported. }
    unfold entity in Hn1, Hn2. simplify_eq.
    destruct (Hvisit w Hw) as (s & s' & HQ & Hstep & Hext).
    destruct (decide (id w ∈ s.2)) as [Hflag|Hflag].
    + destruct (HQ _ Hflag) as (c & Hc & Hcid). exists c. split; [|done].
      apply (extends_elem_of s' st); [done|].
      apply (extends_elem_of s s'); [|done]. by eapply checkCandidate_extends.
    + rewrite (checkCandidate_examined layer geoLineIntersection primaryWay pF graph
                 n1 n2 s w wF) in Hstep by done.
      apply bind_Some in Hstep as (ccs & Hccs & [= <-]).
      apply bind_Some in Hccs as (ns & Hns & [= <-]).
      rewrite Hnodes in Hns. injection Hns as <-.
      pose proof (findEdgeToWayCrossCoords_loop_nonempty geoLineIntersection n1 n2
                    (bool_decide (pF = building) || bool_decide (wF = building))
                    wayNodes j nA nB pt Hj HSj Hshare Hpt) as Hne.
      destruct (findEdgeToWayCrossCoords_loop _ _ _ _ _) as [|cc ccs] eqn:Hccs; [done|].
      exists (crossingOf primaryWay pF w wF n1 n2 cc). split; [|done].
      apply (extends_elem_of _ st _ Hext).
      rewrite (proj1 (pushCrossings_spec _ _ _ _ _ _ _ _ _)).
      apply elem_of_app. right. left.
  - intros way1 f1 way2 f2 graph A1 A2 Hne.
    unfold isLegitCrossing. cbn zeta. rewrite A1, A2.
    rewrite !extendTagsByInferredLayer_hasTag_ne by done.
    destruct (hasTag (tags (getFeatureWithFeatureTypeTagsForWay way1 graph)) "bridge"),
      (hasTag (tags (getFeatureWithFeatureTypeTagsForWay way2 graph)) "bridge");
      try done; cbn [andb orb negb]; split; by destruct (_ && _ && _).
Qed.

Lemma legitimate_pair_is_suppressed_witness :
  findCrossingsByWay Sample.layer0 geoLineIntersection Sample.rails Sample.railsAndRoads
    Sample.railsAndRoadsTree = Some [Sample.railsRoadCrossing]
  ∧ (isLegitCrossing Sample.layer0 Sample.rails railway Sample.viaduct highway
       Sample.railsAndRoads = true
     ∧ isLegitCrossing Sample.layer0 Sample.viaduct highway Sample.rails railway
         Sample.railsAndRoads = true)
  ∧ (ways Sample.railsRoadCrossing).2 ≠ Sample.viaduct
  ∧ ∃ crossing, crossing ∈ [Sample.railsRoadCrossing] ∧ id (ways crossing).2 = id Sample.road.
Proof.
  destruct (legitimate_pair_is_suppressed Sample.layer0 geoLineIntersection)
    as (Hif & Honlyif & Hbridge).
  assert (findCrossingsByWay Sample.layer0 geoLineIntersection Sample.rails
            Sample.railsAndRoads Sample.railsAndRoadsTree = Some [Sample.railsRoadCrossing])
    as Hrun by (vm_compute; reflexivity).
  assert (isLegitCrossing Sample.layer0 Sample.rails railway Sample.viaduct highway
            Sample.railsAndRoads = true
          ∧ isLegitCrossing Sample.layer0 Sample.viaduct highway Sample.rails railway
              Sample.railsAndRoads = true) as Hlegit.
  { apply Hbridge; [reflexivity|reflexivity|]. vm_compute. discriminate. }
  split; [exact Hrun|]. split; [exact Hlegit|]. split.
  - apply (Hif Sample.rails Sample.railsAndRoads Sample.railsAndRoadsTree
             [Sample.railsRoadCrossing] railway Sample.viaduct highway Hrun).
    + vm_compute. reflexivity.
    + vm_compute. reflexivity.
    + left. exact (proj1 Hlegit).
    + left.
  - apply (Honlyif Sample.rails Sample.railsAndRoads Sample.railsAndRoadsTree
             [Sample.railsRoadCrossing] railway Sample.road highway
             0%nat "c" "d" Sample.c Sample.d [Sample.a; Sample.b] 0%nat Sample.a Sample.b
             (0%Q, 0%Q) Hrun).
    all: try (vm_compute; reflexivity).
    + vm_compute. right. right. left.
    + vm_compute. discriminate.
Defined.

(** ** C3: one crossing per building pair *)

Lemma atMostOne_app_none {A} (P : A → Prop) (l l2 : list A) :
  atMostOne P l → (∀ x, x ∈ l2 → ¬ P x) → atMostOne P (l ++ l2).
Proof.
  intros Hl Hnone i j x y Hi Hj Px Py.
  apply lookup_app_Some in Hi as [Hi|[_ Hi]];
    [|exfalso; eapply Hnone; [eapply list_elem_of_lookup_2, Hi|done]].
  apply lookup_app_Some in Hj as [Hj|[_ Hj]];
    [|exfalso; eapply Hnone; [eapply list_elem_of_lookup_2, Hj|done]].
  by eapply Hl.
Qed.

Lemma atMostOne_app_one {A} (P : A → Prop) (l l2 : list A) :
  (∀ x, x ∈ l → ¬ P x) → (length l2 ≤ 1)%nat → atMostOne P (l ++ l2).
Proof.
  intros Hnone Hlen i j x y Hi Hj Px Py.
  apply lookup_app_Some in Hi as [Hi|[Hi1 Hi2]];
    [exfalso; eapply Hnone; [eapply list_elem_of_lookup_2, Hi|done]|].
  apply lookup_app_Some in Hj as [Hj|[Hj1 Hj2]];
    [exfalso; eapply Hnone; [eapply list_elem_of_lookup_2, Hj|done]|].
  apply lookup_lt_Some in Hi2, Hj2. lia.
Qed.

(** The claim as the specification words it fails for a validation pass on a
    building multipolygon.  Its two rings cross each other; both classify as
    building through the relation.  The pass runs [findCrossingsByWay] once
    per ring, and each run reports the pair: two crossings and two issues for
    the one unordered pair of features. *)
Lemma two_issues_for_one_building_pair :
  let context := mkContext Sample.crossedRings Sample.crossedRingsTree in
  waysToCheck Sample.block context = [Some Sample.ringA; Some Sample.ringB]
  ∧ getFeatureTypeForCrossingCheck Sample.ringA Sample.crossedRings = Some building
  ∧ getFeatureTypeForCrossingCheck Sample.ringB Sample.crossedRings = Some building
  ∧ findCrossingsByWay Sample.layer0 geoLineIntersection Sample.ringA Sample.crossedRings
      Sample.crossedRingsTree = Some [Sample.ringsCrossingAB]
  ∧ findCrossingsByWay Sample.layer0 geoLineIntersection Sample.ringB Sample.crossedRings
      Sample.crossedRingsTree = Some [Sample.ringsCrossingBA]
  ∧ validation Sample.layer0 geoLineIntersection Sample.label Sample.t sortPairInsertion
      Sample.block context
    = Some [createIssue Sample.label Sample.t sortPairInsertion Sample.ringsCrossingAB context;
            createIssue Sample.label Sample.t sortPairInsertion Sample.ringsCrossingBA context].
Proof. repeat split; vm_compute; reflexivity. Qed.

(** C3, as the code has it.  In one run of [findCrossingsByWay] (one primary
    way), when the primary way or the candidate classifies as building, at
    most one [EdgeCrossing] is emitted for the candidate, however many
    segment intersections there are; a validation pass on a way is one such
    run and makes one issue per [EdgeCrossing].  For a pair without building
    involvement every intersection of a primary edge with a candidate edge
    that shares no node with it is reported. *)
Theorem one_crossing_per_building_pair (layer : Entity → string)
    (geoLineIntersection : Loc * Loc → Loc * Loc → option Loc) :
  (∀ primaryWay graph tree crossings primaryFeatureType w wayFeatureType,
     findCrossingsByWay layer geoLineIntersection primaryWay graph tree = Some crossings →
     getFeatureTypeForCrossingCheck primaryWay graph = Some primaryFeatureType →
     getFeatureTypeForCrossingCheck w graph = Some wayFeatureType →
     primaryFeatureType = building ∨ wayFeatureType = building →
     atMostOne (λ crossing, (ways crossing).2 = w) crossings)
  ∧ (∀ utilDisplayLabel t sortWays entity0 context issues,
       type entity0 = way →
       getFeatureTypeForTags (tags entity0) ≠ None →
       validation layer geoLineIntersection utilDisplayLabel t sortWays entity0 context
         = Some issues →
       ∃ crossings,
         findCrossingsByWay layer geoLineIntersection entity0 (context_graph context)
           (context_tree context) = Some crossings
         ∧ issues = map (λ crossing, createIssue utilDisplayLabel t sortWays crossing context)
                      crossings)
  ∧ (∀ primaryWay graph tree crossings primaryFeatureType w wayFeatureType
       i nid1 nid2 n1 n2 wayNodes j nA nB crossPoint,
       findCrossingsByWay layer geoLineIntersection primaryWay graph tree = Some crossings →
       indexesGraph tree graph →
       type primaryWay = way →
       getFeatureTypeForCrossingCheck primaryWay graph = Some primaryFeatureType →
       nodes primaryWay !! i = Some nid1 → nodes primaryWay !! S i = Some nid2 →
       entity graph nid1 = Some n1 → entity graph nid2 = Some n2 →
       w ∈ intersects tree (edgeExtent n1 n2) graph →
       type w = way → id w ≠ id primaryWay →
       getFeatureTypeForCrossingCheck w graph = Some wayFeatureType →
       primaryFeatureType ≠ building → wayFeatureType ≠ building →
       isLegitCrossing layer primaryWay primaryFeatureType w wayFeatureType graph = false →
       isLegitCrossing layer w wayFeatureType primaryWay primaryFeatureType graph = false →
       childNodes graph w = Some wayNodes →
       wayNodes !! j = Some nA → wayNodes !! S j = Some nB →
       sharesNode nA nB n1 n2 = false →
       geoLineIntersection (loc n1, loc n2) (loc nA, loc nB) = Some crossPoint →
       mkEdgeCrossing (primaryWay, w) (primaryFeatureType, wayFeatureType)
         ((id n1, id n2), (id nA, id nB)) crossPoint ∈ crossings).
Proof.
  split; [|split].
  - intros primaryWay graph tree crossings pF w wF Hrun HpF HwF Hbuilding.
    unfold findCrossingsByWay in Hrun.
    destruct (negb (bool_decide (type primaryWay = way)));
      [injection Hrun as <-; by intros i j x y ?|].
    rewrite HpF in Hrun. apply bind_Some in Hrun as (st & Hloop & [= <-]).
    apply (findCrossingsByWay_loop_invariant layer geoLineIntersection
             (λ s, atMostOne (λ crossing, (ways crossing).2 = w) s.1
                   ∧ ∀ c, c ∈ s.1 → (ways c).2 = w → id w ∈ s.2)
             primaryWay pF graph tree (nodes primaryWay) ([], ∅) st);
      [|split; [by intros i j x y ?|by intros c ?%elem_of_nil]|exact Hloop].
    intros n1 n2 s s' w' _ [Hone Hflag] Hstep.
    apply checkCandidate_cases in Hstep
      as [->|(wF' & ccs & _ & Hnew & _ & HwF' & _ & _ & Hccs & ->)]; [done|].
    destruct (pushCrossings_spec primaryWay pF w' wF' n1 n2
                (bool_decide (pF = building) || bool_decide (wF' = building)) ccs s)
      as [H1 H2].
    rewrite H1, H2. destruct (decide (w' = w)) as [->|Hother].
    + rewrite HwF in HwF'. injection HwF' as <-.
      assert (bool_decide (pF = building) || bool_decide (wF = building) = true) as Hone'.
      { destruct Hbuilding as [-> | ->]; [done|]. apply orb_true_r. }
      rewrite Hone' in *. apply bind_Some in Hccs as (ns & _ & [= <-]).
      split.
      * apply atMostOne_app_one; [|rewrite length_map;
                                    apply findEdgeToWayCrossCoords_loop_oneOnly].
        intros c Hc Hw. apply Hnew. by apply (Hflag c).
      * intros c [Hc|Hc]%elem_of_app Hw.
        -- exfalso. apply Hnew. by apply (Hflag c).
        -- apply list_elem_of_fmap in Hc as (cc & _ & Hcc).
           destruct (findEdgeToWayCrossCoords_loop geoLineIntersection n1 n2 true ns);
             [by apply elem_of_nil in Hcc|].
           apply elem_of_union. left. by apply elem_of_singleton.
    + split.
      * apply atMostOne_app_none; [done|].
        intros c (cc & -> & _)%list_elem_of_fmap. simpl. done.
      * intros c [Hc|Hc]%elem_of_app Hw.
        -- destruct (_ && _); [apply elem_of_union; right|]; by apply (Hflag c).
        -- apply list_elem_of_fmap in Hc as (cc & -> & _). simpl in Hw. done.
  - intros utilDisplayLabel t sortWays entity0 context issues Hty Hown Hval.
    unfold validation in Hval. cbn zeta in Hval.
    apply bind_Some in Hval as (crossings & Hcollect & [= <-]).
    unfold waysToCheck in Hcollect.
    destruct (getFeatureTypeForTags (tags entity0)) as [f|] eqn:Hf; [|done].
    rewrite (bool_decide_eq_true_2 _ Hty) in Hcollect.
    cbn [collectCrossings] in Hcollect.
    apply bind_Some in Hcollect as (found & Hfound & [= <-]).
    exists found. split; [exact Hfound|done].
  - intros primaryWay graph tree crossings pF w wF i nid1 nid2 n1 n2 wayNodes j nA nB pt
      Hrun Htree Hty HpF Hi HSi Hn1 Hn2 Hw Htw Hid HwF HpB HwB L1 L2 Hnodes Hj HSj
      Hshare Hpt.
    unfold findCrossingsByWay in Hrun.
    rewrite (bool_decide_eq_true_2 _ Hty), HpF in Hrun. cbn [negb] in Hrun.
    apply bind_Some in Hrun as (st & Hloop & [= <-]).
    destruct (findCrossingsByWay_loop_visit layer geoLineIntersection
                (flaggedBuildings graph) primaryWay pF graph tree (nodes primaryWay)
                ([], ∅) st i nid1 nid2) as (m1 & m2 & Hm1 & Hm2 & Hvisit); [| |done..|].
    { intros ? ? s s' w' Hw' HR Hstep.
      apply checkCandidate_cases in Hstep
        as [->|(wF' & ccs & _ & _ & _ & HwF' & _ & _ & _ & ->)]; [done|].
      intros k. rewrite (proj2 (pushCrossings_spec _ _ _ _ _ _ _ _ _)).
      rewrite (bool_decide_eq_false_2 _ HpB). cbn [orb].
      destruct (bool_decide_reflect (wF' = building)) as [->|_]; cbn [andb]; [|apply HR].
      destruct (negb _); [|apply HR].
      intros [->%elem_of_singleton|Hk]%elem_of_union; [|by apply HR].
      exists w'. split; [by eapply Htree|done]. }
    { by intros k ?%elem_of_empty. }
    unfold entity in Hn1, Hn2. simplify_eq.
    destruct (Hvisit w Hw) as (s & s' & HR & Hstep & Hext).
    assert (id w ∉ s.2) as Hflag.
    { intros (w' & Hw' & Hb)%HR. rewrite (Htree _ _ Hw) in Hw'. simplify_eq. }
    rewrite (checkCandidate_examined layer geoLineIntersection primaryWay pF graph
               n1 n2 s w wF) in Hstep by done.
    rewrite (bool_decide_eq_false_2 _ HpB), (bool_decide_eq_false_2 _ HwB) in Hstep.
    cbn [orb] in Hstep.
    apply bind_Some in Hstep as (ccs & Hccs & [= <-]).
    apply bind_Some in Hccs as (ns & Hns & [= <-]).
    rewrite Hnodes in Hns. injection Hns as <-.
    apply (extends_elem_of _ st _ Hext).
    rewrite (proj1 (pushCrossings_spec _ _ _ _ _ _ _ _ _)).
    apply elem_of_app. right.
    apply list_elem_of_fmap.
    exists (mkCrossCoord (id nA, id nB) pt). split; [done|].
    by eapply findEdgeToWayCrossCoords_loop_complete.
Qed.

Lemma one_crossing_per_building_pair_witness :
  findCrossingsByWay Sample.layer0 geoLineIntersection Sample.wall Sample.twoBuildings
    Sample.twoBuildingsTree = Some [Sample.wallOutlineCrossing]
  ∧ atMostOne (λ crossing, (ways crossing).2 = Sample.outline) [Sample.wallOutlineCrossing]
  ∧ (∃ crossings,
       findCrossingsByWay Sample.layer0 geoLineIntersection Sample.wall Sample.twoBuildings
         Sample.twoBuildingsTree = Some crossings
       ∧ [createIssue Sample.label Sample.t sortPairInsertion Sample.wallOutlineCrossing
            (mkContext Sample.twoBuildings Sample.twoBuildingsTree)]
         = map (λ crossing, createIssue Sample.label Sample.t sortPairInsertion crossing
                              (mkContext Sample.twoBuildings Sample.twoBuildingsTree))
             crossings)
  ∧ findCrossingsByWay Sample.layer0 geoLineIntersection Sample.road Sample.roadAndZigzag
      Sample.roadAndZigzagTree = Some Sample.roadZigzagCrossings
  ∧ mkEdgeCrossing (Sample.road, Sample.zigzag) (highway, highway)
      (("a", "b"), ("c", "d")) (0%Q, 0%Q) ∈ Sample.roadZigzagCrossings
  ∧ mkEdgeCrossing (Sample.road, Sample.zigzag) (highway, highway)
      (("a", "b"), ("d", "e")) (5 # 2, 0%Q) ∈ Sample.roadZigzagCrossings.
Proof.
  destruct (one_crossing_per_building_pair Sample.layer0 geoLineIntersection)
    as (Hone & Hissues & Hall).
  assert (findCrossingsByWay Sample.layer0 geoLineIntersection Sample.wall
            Sample.twoBuildings Sample.twoBuildingsTree = Some [Sample.wallOutlineCrossing])
    as Hrun by (vm_compute; reflexivity).
  split; [exact Hrun|]. split; [|split].
  - apply (Hone Sample.wall Sample.twoBuildings Sample.twoBuildingsTree
             [Sample.wallOutlineCrossing] building Sample.outline building Hrun).
    + vm_compute. reflexivity.
    + vm_compute. reflexivity.
    + by left.
  - apply (Hissues Sample.label Sample.t sortPairInsertion Sample.wall
             (mkContext Sample.twoBuildings Sample.twoBuildingsTree)).
    + reflexivity.
    + vm_compute. discriminate.
    + vm_compute. reflexivity.
  - assert (findCrossingsByWay Sample.layer0 geoLineIntersection Sample.road
              Sample.roadAndZigzag Sample.roadAndZigzagTree = Some Sample.roadZigzagCrossings)
      as Hzig by (vm_compute; reflexivity).
    split; [exact Hzig|].
    assert (indexesGraph Sample.roadAndZigzagTree Sample.roadAndZigzag) as Htree.
    { intros extent e0 He. vm_compute in He.
      in_list_cases He; vm_compute; reflexivity. }
    split.
    + apply (Hall Sample.road Sample.roadAndZigzag Sample.roadAndZigzagTree
               Sample.roadZigzagCrossings highway Sample.zigzag highway 0%nat "a" "b" Sample.a Sample.b
               [Sample.c; Sample.d; Sample.e] 0%nat Sample.c Sample.d (0%Q, 0%Q) Hzig Htree).
      all: try (vm_compute; reflexivity); try (vm_compute; discriminate).
      vm_compute. right. left.
    + apply (Hall Sample.road Sample.roadAndZigzag Sample.roadAndZigzagTree
               Sample.roadZigzagCrossings highway Sample.zigzag highway 0%nat "a" "b" Sample.a Sample.b
               [Sample.c; Sample.d; Sample.e] 1%nat Sample.d Sample.e (5 # 2, 0%Q) Hzig Htree).
      all: try (vm_compute; reflexivity); try (vm_compute; discriminate).
      vm_compute. right. left.
Defined.


(** ** C8: ways that take their category from a parent relation *)

Lemma firstRelationWithFeatureType_exists (parentRels : list Entity) (r : Entity) :
  r ∈ parentRels → getFeatureTypeForTags (tags r) ≠ None →
  ∃ rel, firstRelationWithFeatureType parentRels = Some rel.
Proof.
  induction parentRels as [|r0 rest IH]; [by intros ?%elem_of_nil|].
  intros [->|Hin]%elem_of_cons Hty; simpl.
  - destruct (getFeatureTypeForTags (tags r0)); [by eexists|done].
  - destruct (getFeatureTypeForTags (tags r0)); [by eexists|by apply IH].
Qed.

Lemma elem_of_parentRelations (graph : Graph) (w r : Entity) :
  r ∈ parentRelations graph w ↔
  (∃ k, graph !! k = Some r) ∧ type r = relation ∧ id w ∈ (member_id <$> members r).
Proof.
  unfold parentRelations. rewrite list_elem_of_filter. unfold isParentRelationOf.
  split.
  - intros [[Hty Hmem] Hin]. apply list_elem_of_fmap in Hin as ([k r'] & Heq & Hin).
    simpl in Heq. subst r'. apply elem_of_map_to_list in Hin. eauto.
  - intros [[k Hk] [Hty Hmem]]. split; [done|].
    apply list_elem_of_fmap. exists (k, r). split; [done|].
    by apply elem_of_map_to_list.
Qed.


Lemma firstRelationWithFeatureType_first (parentRels : list Entity) (rel : Entity) :
  firstRelationWithFeatureType parentRels = Some rel ↔
  ∃ before after,
    parentRels = before ++ rel :: after
    ∧ Forall (λ r, getFeatureTypeForTags (tags r) = None) before
    ∧ getFeatureTypeForTags (tags rel) ≠ None.
Proof.
  induction parentRels as [|r rest IH]; cbn [firstRelationWithFeatureType].
  - split; [done|]. intros (before & after & Heq & _). by destruct before.
  - destruct (getFeatureTypeForTags (tags r)) as [f|] eqn:Hr.
    + split.
      * intros [= <-]. exists [], rest. by rewrite Hr.
      * intros (before & after & Heq & Hnone & _).
        destruct before as [|r0 before]; [by injection Heq as ->|].
        injection Heq as <- _. apply Forall_cons in Hnone as [Hnone _]. congruence.
    + rewrite IH. split.
      * intros (before & after & -> & Hnone & Hrel).
        exists (r :: before), after. split; [done|]. split; [by constructor|done].
      * intros (before & after & Heq & Hnone & Hrel).
        destruct before as [|r0 before]; [injection Heq as -> _; congruence|].
        injection Heq as <- ->. apply Forall_cons in Hnone as [_ Hnone].
        by exists before, after.
Qed.

Lemma firstRelationWithFeatureType_None (parentRels : list Entity) :
  firstRelationWithFeatureType parentRels = None ↔
  Forall (λ r, getFeatureTypeForTags (tags r) = None) parentRels.
Proof.
  induction parentRels as [|r rest IH]; cbn [firstRelationWithFeatureType].
  - split; [constructor|done].
  - destruct (getFeatureTypeForTags (tags r)) as [f|] eqn:Hr.
    + split; [done|]. intros [H _]%Forall_cons. congruence.
    + rewrite IH. split; [by constructor|by intros [_ ?]%Forall_cons].
Qed.

Lemma waysToCheck_untagged (entity0 : Entity) (context : Context) (w : Entity) :
  getFeatureTypeForTags (tags w) = None →
  Some w ∈ waysToCheck entity0 context ↔
  type entity0 = relation
  ∧ tags entity0 !! "type" = Some "multipolygon"
  ∧ hasTag (tags entity0) "building" = true
  ∧ type w = way
  ∧ ∃ member, member ∈ members entity0
      ∧ context_graph context !! member_id member = Some w.
Proof.
  intros Hown. unfold waysToCheck. split.
  - destruct (getFeatureTypeForTags (tags entity0)) eqn:H0; [|by intros ?%elem_of_nil].
    destruct (bool_decide_reflect (type entity0 = way)) as [Hway|_].
    { intros [= ->]%list_elem_of_singleton. congruence. }
    destruct (bool_decide_reflect (type entity0 = relation)) as [Hrel|_];
      [|by intros ?%elem_of_nil].
    destruct (bool_decide_reflect (tags entity0 !! "type" = Some "multipolygon"))
      as [Hmp|_]; [|by intros ?%elem_of_nil].
    destruct (hasTag (tags entity0) "building") eqn:Hb; [|by intros ?%elem_of_nil].
    cbn [andb]. intros (member & Hw & Hin)%list_elem_of_fmap.
    destruct (hasEntity _ _); [|done]. unfold entity in Hw.
    destruct (context_graph context !! member_id member) as [e|] eqn:He; [|done].
    destruct (bool_decide_reflect (type e = way)) as [Hty|]; [|done].
    injection Hw as ->. repeat split; try done. by exists member.
  - intros (Hty & Hmp & Hb & Htw & member & Hmem & Hw).
    assert (getFeatureTypeForTags (tags entity0) = Some building) as ->.
    { unfold getFeatureTypeForTags. by rewrite Hb. }
    rewrite Hty, Hmp, Hb.
    rewrite (bool_decide_eq_false_2 (relation = way)) by done.
    rewrite !bool_decide_eq_true_2 by done. cbn [andb].
    apply list_elem_of_fmap. exists member. split; [|done].
    unfold hasEntity, entity. rewrite Hw.
    rewrite bool_decide_eq_true_2 by eauto. by rewrite bool_decide_eq_true_2.
Qed.



(** ** C7: merging with nearby endpoints *)

Lemma Qltb_lt (x y : Q) : Qltb x y = true ↔ (x < y)%Q.
Proof.
  unfold Qltb. rewrite negb_true_iff, <- not_true_iff_false, Qle_bool_iff.
  split; [apply Qnot_le_lt|apply Qlt_not_le].
Qed.

(** C7.  When, for each of the two crossing edges, the closer endpoint lies
    within (less than) 0.75 of the crossing location, the action splits no
    edge: its result is exactly the merge of the new node and the two closest
    endpoints, in this order, at the crossing location, applied to the graph
    that holds the new node.  [actionAddMidpoint] does not occur in the
    result. *)
Theorem connect_merges_nearby_endpoints
    (geoSphericalClosestNode : list Entity → Loc → ClosestNodeInfo)
    (actionAddMidpoint : Loc * (string * string) → Entity → Graph → Graph)
    (actionMergeNodes : list string → Loc → Graph → Graph)
    (newId : string) (loc : Loc) (connectionTags : Tags)
    (edges : (string * string) * (string * string)) (graph : Graph)
    (a1 b1 a2 b2 : Entity) :
  let graph1 := replace graph (osmNode newId loc connectionTags) in
  let closest1 := geoSphericalClosestNode [a1; b1] loc in
  let closest2 := geoSphericalClosestNode [a2; b2] loc in
  entity graph1 edges.1.1 = Some a1 → entity graph1 edges.1.2 = Some b1 →
  entity graph1 edges.2.1 = Some a2 → entity graph1 edges.2.2 = Some b2 →
  (distance closest1 < 3 # 4)%Q → (distance closest2 < 3 # 4)%Q →
  actionConnectCrossingWays geoSphericalClosestNode actionAddMidpoint actionMergeNodes
    newId loc connectionTags edges graph
  = Some (actionMergeNodes [newId; id (closest_node closest1); id (closest_node closest2)]
            loc graph1).
Proof.
  intros graph1 closest1 closest2 Ha1 Hb1 Ha2 Hb2 Hd1 Hd2.
  unfold actionConnectCrossingWays, mergeThresholdInMeters. cbn zeta. fold graph1.
  unfold connectEdge at 2, mergeThresholdInMeters. cbn [fst snd]. rewrite Ha1, Hb1. cbn [mbind option_bind].
  fold closest1. rewrite (proj2 (Qltb_lt _ _) Hd1). cbn [mbind option_bind].
  unfold connectEdge, mergeThresholdInMeters. cbn [fst snd].
  rewrite Ha2, Hb2. cbn [mbind option_bind].
  fold closest2. rewrite (proj2 (Qltb_lt _ _) Hd2). cbn [mbind option_bind].
  reflexivity.
Qed.

Lemma connect_merges_nearby_endpoints_witness :
  actionConnectCrossingWays geoClosestNode actionAddMidpoint actionMergeNodes
    "n-1" (0%Q, 0%Q) {["ford" := "yes"]} (("a", "b"), ("c", "d")) Sample.shortEnds
  = Some (actionMergeNodes ["n-1"; "b"; "d"] (0%Q, 0%Q)
            (replace Sample.shortEnds (osmNode "n-1" (0%Q, 0%Q) {["ford" := "yes"]}))).
Proof.
  apply (connect_merges_nearby_endpoints geoClosestNode actionAddMidpoint actionMergeNodes
           "n-1" (0%Q, 0%Q) {["ford" := "yes"]} (("a", "b"), ("c", "d")) Sample.shortEnds
           Sample.a Sample.b' Sample.c Sample.d').
  - vm_compute. reflexivity.
  - vm_compute. reflexivity.
  - vm_compute. reflexivity.
  - vm_compute. reflexivity.
  - vm_compute. reflexivity.
  - vm_compute. reflexivity.
Defined.

(** ** C9: the primitives of the connect fix, and the round trip on a sample *)

Lemma elem_of_insertMidpoint (edge : string * string) (x y : string) (l : list string) :
  y ∈ l → y ∈ insertMidpoint edge x l.
Proof.
  induction l as [|n1 l IH]; [done|].
  destruct l as [|n2 rest]; [done|].
  cbn [insertMidpoint]. intros [->|Hin]%elem_of_cons.
  - destruct (edgeEqual (n1, n2) edge); left.
  - destruct (edgeEqual (n1, n2) edge); [by do 2 right|]. right. by apply IH.
Qed.

Lemma insertMidpoint_new (edge : string * string) (x : string) (l : list string) (k : nat) :
  l !! k = Some edge.1 → l !! S k = Some edge.2 → x ∈ insertMidpoint edge x l.
Proof.
  destruct edge as [p q]. cbn [fst snd].
  revert k. induction l as [|n1 l IH]; intros k Hk HSk; [done|].
  destruct l as [|n2 rest]; [done|].
  cbn [insertMidpoint].
  destruct (edgeEqual (n1, n2) (p, q)) eqn:Heq; [right; left|].
  destruct k as [|k].
  - simpl in Hk, HSk. simplify_eq. exfalso.
    unfold edgeEqual in Heq. cbn [fst snd] in Heq.
    rewrite !bool_decide_eq_true_2 in Heq by done. done.
  - right. by apply (IH k).
Qed.

Lemma insertMidpoint_same_or_new (edge : string * string) (x : string) (l : list string) :
  insertMidpoint edge x l = l ∨ x ∈ insertMidpoint edge x l.
Proof.
  induction l as [|n1 l IH]; [by left|].
  destruct l as [|n2 rest]; [by left|].
  cbn [insertMidpoint].
  destruct (edgeEqual (n1, n2) edge); [right; right; left|].
  destruct IH as [IH|IH]; [left; f_equal; exact IH|right; right; exact IH].
Qed.

Lemma actionAddMidpoint_lookup (midpoint : Loc * (string * string)) (node0 : Entity)
    (graph : Graph) (k : string) :
  actionAddMidpoint midpoint node0 graph !! k
  = (λ e, if bool_decide (type e = way)
          then withNodes e (insertMidpoint midpoint.2 (id node0) (nodes e)) else e)
    <$> (if decide (id node0 = k) then Some (withLoc node0 midpoint.1) else graph !! k).
Proof.
  unfold actionAddMidpoint, replace. rewrite lookup_fmap. cbn [withLoc id].
  by rewrite lookup_insert.
Qed.

Lemma removed_lookup (survivor : string) (nodeIDs : list string) (renamed : Graph)
    (k : string) :
  foldr (λ i (acc : Graph), if bool_decide (i = survivor) then acc else delete i acc)
    renamed nodeIDs !! k
  = if bool_decide (k ∈ nodeIDs ∧ k ≠ survivor) then None else renamed !! k.
Proof.
  induction nodeIDs as [|i rest IH]; cbn [foldr].
  - case_bool_decide as H; [|done]. destruct H as [H _]. by apply elem_of_nil in H.
  - assert ((if bool_decide (i = survivor)
             then foldr (λ i (acc : Graph),
                           if bool_decide (i = survivor) then acc else delete i acc)
                    renamed rest
             else delete i (foldr (λ i (acc : Graph),
                           if bool_decide (i = survivor) then acc else delete i acc)
                    renamed rest)) !! k
            = if bool_decide (i = k ∧ k ≠ survivor) then None
              else if bool_decide (k ∈ rest ∧ k ≠ survivor) then None else renamed !! k)
      as ->.
    { destruct (bool_decide_reflect (i = survivor)) as [->|Hi].
      - rewrite IH. rewrite (bool_decide_eq_false_2 (survivor = k ∧ _)); [done|].
        intros [-> ?]. done.
      - destruct (decide (i = k)) as [->|Hik].
        + rewrite lookup_delete_eq. by rewrite bool_decide_eq_true_2.
        + rewrite lookup_delete_ne by done. rewrite IH.
          rewrite (bool_decide_eq_false_2 (i = k ∧ _)); [done|]. by intros [? _]. }
    repeat case_bool_decide; try done; exfalso;
      match goal with
      | H : context [k ∈ i :: rest] |- _ => rewrite elem_of_cons in H
      end; naive_solver.
Qed.

Lemma actionMergeNodes_lookup_other (nodeIDs : list string) (survivor : string)
    (toLoc : Loc) (graph : Graph) (k : string) :
  last nodeIDs = Some survivor → k ∉ nodeIDs →
  actionMergeNodes nodeIDs toLoc graph !! k = renameNodes nodeIDs survivor <$> graph !! k.
Proof.
  intros Hlast Hk. unfold actionMergeNodes. rewrite Hlast. cbn zeta.
  assert (survivor ≠ k) as Hne.
  { intros <-. apply Hk. apply last_Some in Hlast as [l' ->].
    apply elem_of_app. right. left. }
  assert (foldr (λ i (acc : Graph), if bool_decide (i = survivor) then acc else delete i acc)
            (renameNodes nodeIDs survivor <$> graph) nodeIDs !! k
          = renameNodes nodeIDs survivor <$> graph !! k) as Hrem.
  { rewrite removed_lookup, lookup_fmap.
    rewrite bool_decide_eq_false_2; [done|]. by intros [? _]. }
  destruct (foldr _ _ _ !! survivor); [by rewrite lookup_insert_ne|done].
Qed.

Lemma node_after_actionAddMidpoint (l : Loc) (edge : string * string) (node0 : Entity)
    (graph : Graph) (k : string) (n : Entity) :
  isNodeOf graph k n → k ≠ id node0 →
  isNodeOf (actionAddMidpoint (l, edge) node0 graph) k n.
Proof.
  intros (Hk & Hty & Hid) Hne. split; [|done].
  rewrite actionAddMidpoint_lookup. rewrite decide_False by done. rewrite Hk.
  cbn [fmap option_fmap option_map]. rewrite bool_decide_eq_false_2; [done|].
  by rewrite Hty.
Qed.

Lemma new_after_actionAddMidpoint (l : Loc) (edge : string * string) (node0 : Entity)
    (graph : Graph) :
  type node0 = node →
  actionAddMidpoint (l, edge) node0 graph !! id node0 = Some (withLoc node0 l).
Proof.
  intros Hty. rewrite actionAddMidpoint_lookup. rewrite decide_True by done.
  cbn [fmap option_fmap option_map fst]. rewrite bool_decide_eq_false_2; [done|].
  cbn [withLoc type]. by rewrite Hty.
Qed.

Lemma isNodeOf_replace (graph : Graph) (e : Entity) (k : string) (n : Entity) :
  graph !! id e = None → isNodeOf graph k n → isNodeOf (replace graph e) k n ∧ k ≠ id e.
Proof.
  intros Hfresh (Hk & Hty & Hid).
  assert (k ≠ id e) as Hne by (intros ->; congruence).
  split; [|done]. split; [|done]. unfold replace. by rewrite lookup_insert_ne.
Qed.

Lemma edge_nodes_of_way (graph : Graph) (w : Entity) (edge : string * string) :
  isWayAlong graph w edge → edge.1 ∈ nodes w ∧ edge.2 ∈ nodes w.
Proof.
  intros (_ & _ & k & Hk & HSk).
  split; eapply list_elem_of_lookup_2; eassumption.
Qed.

Lemma closestOf_in (best : ClosestNodeInfo) (ns : list Entity) (point : Loc) :
  closest_node (closestOf best ns point) = closest_node best
  ∨ closest_node (closestOf best ns point) ∈ ns.
Proof.
  revert best. induction ns as [|n ns IH]; intros best; [by left|].
  cbn [closestOf].
  destruct (IH (if Qltb (planarDistance (loc n) point) (distance best)
                then mkClosestNodeInfo n (planarDistance (loc n) point) else best))
    as [H|H]; [|right; by right].
  rewrite H. destruct (Qltb _ _); [right; left|by left].
Qed.

Lemma geoClosestNode_in (ns : list Entity) (point : Loc) :
  ns ≠ [] → closest_node (geoClosestNode ns point) ∈ ns.
Proof.
  destruct ns as [|n ns]; [done|]. intros _. cbn [geoClosestNode].
  destruct (closestOf_in (mkClosestNodeInfo n (planarDistance (loc n) point)) ns point)
    as [H|H]; [rewrite H; left|by right].
Qed.

(** The round trip on the sample map: the road is validated, its issue
    offers the connect fix, the fix splices the new node into both ways, and
    validating the road or the stream again reports nothing. *)
Example round_trip_on_sample :
  let run := validation Sample.layer0 geoLineIntersection Sample.label Sample.t
               sortPairInsertion in
  run Sample.road (mkContext Sample.roadAndStream Sample.roadAndStreamTree)
    = Some [Sample.roadStreamIssue]
  ∧ Sample.connectFix ∈ fixes Sample.roadStreamIssue
  ∧ executeFix geoClosestNode actionAddMidpoint actionMergeNodes
      "n-1" Sample.roadStreamIssue Sample.connectFix Sample.roadAndStream
    = Some Sample.connected
  ∧ Sample.connected !! "road" = Some Sample.connectedRoad
  ∧ nodes Sample.connectedRoad = ["a"; "n-1"; "b"]
  ∧ Sample.connected !! "stream" = Some Sample.connectedStream
  ∧ nodes Sample.connectedStream = ["c"; "n-1"; "d"]
  ∧ run Sample.connectedRoad (mkContext Sample.connected Sample.roadAndStreamTree) = Some []
  ∧ run Sample.connectedStream (mkContext Sample.connected Sample.roadAndStreamTree)
    = Some [].
Proof.
  split; [vm_compute; reflexivity|]. split; [vm_compute; left|].
  repeat split; vm_compute; reflexivity.
Qed.

(** * Further properties of the crossing-ways validation *)

(** ** The legitimacy check is symmetric *)

Lemma if_true_orb (a b : bool) : (if a then true else b) = a || b.
Proof. by destruct a. Qed.

Lemma bool_decide_ne_sym {A} `{EqDecision A} (x y : A) :
  bool_decide (x ≠ y) = bool_decide (y ≠ x).
Proof. apply bool_decide_ext. naive_solver. Qed.

Lemma structure_rule_sym (allows1 allows2 has1 has2 differ : bool) :
  (if allows1 && allows2
   then (has1 && negb has2) || (negb has1 && has2) || (has1 && has2 && differ)
   else if allows1 && has1 then true else allows2 && has2)
  = (if allows2 && allows1
     then (has2 && negb has1) || (negb has2 && has1) || (has2 && has1 && differ)
     else if allows2 && has2 then true else allows1 && has1).
Proof. by destruct allows1, allows2, has1, has2, differ. Qed.

Lemma cover_rule_sym (can1 can2 has1 has2 differ : bool) :
  (if can1 && can2 then has1 && has2 && differ
   else if can1 && has2 then true else can2 && has1)
  = (if can2 && can1 then has2 && has1 && differ
     else if can2 && has1 then true else can1 && has2).
Proof. by destruct can1, can2, has1, has2, differ. Qed.

(** X1.  [isLegitCrossing] gives the same verdict in both argument orders,
    for all ways, categories and graphs: the second call that
    [findCrossingsByWay] makes with the arguments exchanged never changes the
    outcome. *)
Theorem isLegitCrossing_symmetric (layer : Entity → string)
    (way1 way2 : Entity) (featureType1 featureType2 : FeatureType) (graph : Graph) :
  isLegitCrossing layer way1 featureType1 way2 featureType2 graph
  = isLegitCrossing layer way2 featureType2 way1 featureType1 graph.
Proof.
  unfold isLegitCrossing. cbn zeta.
  set (tags1 := extendTagsByInferredLayer layer _ way1).
  set (tags2 := extendTagsByInferredLayer layer _ way2).
  rewrite !if_true_orb.
  rewrite (bool_decide_ne_sym (tags2 !! "level")), (bool_decide_ne_sym (tags2 !! "layer")).
  rewrite (structure_rule_sym (allowsBridge featureType2)),
    (structure_rule_sym (allowsTunnel featureType2)),
    (cover_rule_sym (canCover featureType2)).
  rewrite (andb_comm (tagsImplyIndoors tags2)).
  rewrite (andb_comm (negb (allowsStructures featureType2))).
  reflexivity.
Qed.

(** ** The tags of the connection node *)

Lemma not_highway_not_path_or_major (tags : Tags) :
  getFeatureTypeForTags tags ≠ Some highway →
  getFeatureTypeForTags tags ≠ Some building →
  getFeatureTypeForTags tags ≠ None →
  indexOf pathHighways (tags !! "highway") = -1.
Proof.
  unfold getFeatureTypeForTags.
  destruct (hasTag tags "building"); [done|].
  destruct (hasTag tags "area"); [done|].
  destruct (hasTag tags "highway") eqn:Hh; cbn [andb].
  - destruct (indexOf ignoredHighways (tags !! "highway") =? -1) eqn:Hi; [done|].
    intros _ _ _. apply Z.eqb_neq in Hi.
    destruct (tags !! "highway") as [v|]; [|done]. cbn [indexOf] in *.
    unfold ignoredHighways in Hi. cbn [indexOfFrom] in Hi.
    destruct (String.eqb_spec "rest_area" v) as [E|]; [by subst v|].
    destruct (String.eqb_spec "services" v) as [E|]; [by subst v|done].
  - intros _ _ _. unfold hasTag in Hh.
    destruct (tags !! "highway") as [v|]; [|done].
    destruct (decide (v = "no")) as [->|Hne]; [reflexivity|].
    rewrite !bool_decide_eq_true_2 in Hh by congruence. done.
Qed.

Lemma tagsForConnectionNodeIfAllowed_comm (entity1 entity2 : Entity) :
  tagsForConnectionNodeIfAllowed entity1 entity2
  = tagsForConnectionNodeIfAllowed entity2 entity1.
Proof.
  unfold tagsForConnectionNodeIfAllowed. cbn zeta.
  set (p1 := negb (indexOf pathHighways (tags entity1 !! "highway") =? -1)).
  set (p2 := negb (indexOf pathHighways (tags entity2 !! "highway") =? -1)).
  set (m1 := negb (indexOf highwaysDisallowingFords (tags entity1 !! "highway") =? -1)).
  set (m2 := negb (indexOf highwaysDisallowingFords (tags entity2 !! "highway") =? -1)).
  set (t1 := hasTag (tags entity1) "tunnel"). set (t2 := hasTag (tags entity2) "tunnel").
  set (b1 := hasTag (tags entity1) "bridge"). set (b2 := hasTag (tags entity2) "bridge").
  destruct (getFeatureTypeForTags (tags entity1)) as [[]|],
           (getFeatureTypeForTags (tags entity2)) as [[]|];
    try reflexivity.
  - by destruct p1, p2.
  - by destruct p1, p2.
  - by destruct t1, t2, b1, b2, m1, m2.
  - by destruct p1, p2.
  - by destruct t1, t2, b1, b2, m1, m2.
Qed.

(** X2.  The connection tags do not depend on the order of the two
    entities. *)
Theorem tagsForConnectionNodeIfAllowed_symmetric (entity1 entity2 : Entity) :
  tagsForConnectionNodeIfAllowed entity1 entity2
  = tagsForConnectionNodeIfAllowed entity2 entity1.
Proof. apply tagsForConnectionNodeIfAllowed_comm. Qed.

(** X3.  No connection is offered when one of the two entities classifies
    as building or has no category, whatever the other one is. *)
Theorem no_connection_with_building (entity1 entity2 : Entity) :
  getFeatureTypeForTags (tags entity1) = Some building
  ∨ getFeatureTypeForTags (tags entity1) = None
  ∨ getFeatureTypeForTags (tags entity2) = Some building
  ∨ getFeatureTypeForTags (tags entity2) = None →
  tagsForConnectionNodeIfAllowed entity1 entity2 = None.
Proof.
  intros H. unfold tagsForConnectionNodeIfAllowed. cbn zeta.
  destruct (getFeatureTypeForTags (tags entity1)) as [[]|],
           (getFeatureTypeForTags (tags entity2)) as [[]|];
    try reflexivity; destruct H as [H|[H|[H|H]]]; discriminate H.
Qed.

Lemma no_connection_with_building_witness :
  tagsForConnectionNodeIfAllowed Sample.wall Sample.road = None.
Proof.
  apply no_connection_with_building. left. vm_compute. reflexivity.
Defined.

Lemma indexOf_pathHighways (v : option string) :
  negb (indexOf pathHighways v =? -1) = true ↔ pathHighwayValue v.
Proof. apply indexOf_found. Qed.

(** X4.  For a highway-railway pair, in either order, the connection node is
    tagged [railway=crossing] when the highway value of the highway feature
    is one of path, footway, cycleway, bridleway, pedestrian, steps,
    corridor, and [railway=level_crossing] otherwise. *)
Theorem tagsForConnectionNode_highway_railway (road rail : Entity) :
  getFeatureTypeForTags (tags road) = Some highway →
  getFeatureTypeForTags (tags rail) = Some railway →
  (pathHighwayValue (tags road !! "highway") →
   tagsForConnectionNodeIfAllowed road rail = Some {["railway" := "crossing"]}
   ∧ tagsForConnectionNodeIfAllowed rail road = Some {["railway" := "crossing"]})
  ∧ (¬ pathHighwayValue (tags road !! "highway") →
     tagsForConnectionNodeIfAllowed road rail = Some {["railway" := "level_crossing"]}
     ∧ tagsForConnectionNodeIfAllowed rail road = Some {["railway" := "level_crossing"]}).
Proof.
  intros Hroad Hrail.
  assert (indexOf pathHighways (tags rail !! "highway") = -1) as Hnot.
  { apply not_highway_not_path_or_major; rewrite Hrail; done. }
  assert (tagsForConnectionNodeIfAllowed road rail
          = if negb (indexOf pathHighways (tags road !! "highway") =? -1)
            then Some {["railway" := "crossing"]}
            else Some {["railway" := "level_crossing"]}) as Heq.
  { unfold tagsForConnectionNodeIfAllowed. cbn zeta. rewrite Hroad, Hrail, Hnot.
    by destruct (negb _). }
  rewrite <- (tagsForConnectionNodeIfAllowed_comm road rail), Heq.
  destruct (negb (indexOf pathHighways (tags road !! "highway") =? -1)) eqn:Hp.
  - split; [done|]. intros Hn. exfalso. apply Hn. by apply indexOf_pathHighways.
  - split; [|done]. intros Hy%indexOf_pathHighways. congruence.
Qed.

Lemma tagsForConnectionNode_highway_railway_witness :
  tagsForConnectionNodeIfAllowed Sample.road Sample.rails
  = Some {["railway" := "level_crossing"]}
  ∧ tagsForConnectionNodeIfAllowed Sample.rails Sample.road
    = Some {["railway" := "level_crossing"]}.
Proof.
  apply (tagsForConnectionNode_highway_railway Sample.road Sample.rails).
  - vm_compute. reflexivity.
  - vm_compute. reflexivity.
  - intros (s & Hs & Hin). vm_compute in Hs. injection Hs as <-.
    repeat (apply elem_of_cons in Hin as [Hin|Hin]; [discriminate Hin|]).
    by apply elem_of_nil in Hin.
Defined.

(** X5.  For two highways the connection node carries no tags when both or
    neither of them is a path.  When exactly one is a path it is tagged
    [highway=crossing], and it takes over the crossing type when the path is
    a footway tagged [footway=crossing] with [crossing] marked or
    unmarked. *)
Theorem tagsForConnectionNode_highways (entity1 entity2 : Entity) :
  getFeatureTypeForTags (tags entity1) = Some highway →
  getFeatureTypeForTags (tags entity2) = Some highway →
  ((pathHighwayValue (tags entity1 !! "highway")
    ↔ pathHighwayValue (tags entity2 !! "highway")) →
   tagsForConnectionNodeIfAllowed entity1 entity2 = Some ∅)
  ∧ (pathHighwayValue (tags entity1 !! "highway") →
     ¬ pathHighwayValue (tags entity2 !! "highway") →
     (∀ crossing, isCrossingFootway (tags entity1) crossing →
        tagsForConnectionNodeIfAllowed entity1 entity2
        = Some {["highway" := "crossing"; "crossing" := crossing]}
        ∧ tagsForConnectionNodeIfAllowed entity2 entity1
          = Some {["highway" := "crossing"; "crossing" := crossing]})
     ∧ ((¬ ∃ crossing, isCrossingFootway (tags entity1) crossing) →
        tagsForConnectionNodeIfAllowed entity1 entity2 = Some {["highway" := "crossing"]}
        ∧ tagsForConnectionNodeIfAllowed entity2 entity1
          = Some {["highway" := "crossing"]})).
Proof.
  intros H1 H2.
  assert (tagsForConnectionNodeIfAllowed entity1 entity2
    = let p1 := negb (indexOf pathHighways (tags entity1 !! "highway") =? -1) in
      let p2 := negb (indexOf pathHighways (tags entity2 !! "highway") =? -1) in
      if (p1 || p2) && negb (eqb p1 p2) then
        let pathFeature := if p1 then entity1 else entity2 in
        match tags pathFeature !! "crossing" with
        | Some crossing =>
            if bool_decide (tags pathFeature !! "highway" = Some "footway")
               && bool_decide (tags pathFeature !! "footway" = Some "crossing")
               && negb (indexOf ["marked"; "unmarked"] (Some crossing) =? -1)
            then Some (<["crossing" := crossing]> {["highway" := "crossing"]})
            else Some {["highway" := "crossing"]}
        | None => Some {["highway" := "crossing"]}
        end
      else Some ∅) as Heq.
  { unfold tagsForConnectionNodeIfAllowed. cbn zeta. rewrite H1, H2.
    rewrite !bool_decide_eq_true_2 by done. reflexivity. }
  rewrite <- (tagsForConnectionNodeIfAllowed_comm entity1 entity2), Heq. cbn zeta.
  destruct (negb (indexOf pathHighways (tags entity1 !! "highway") =? -1)) eqn:P1,
           (negb (indexOf pathHighways (tags entity2 !! "highway") =? -1)) eqn:P2;
    cbn [orb andb negb eqb].
  - split; [done|]. intros _ Hn. exfalso. apply Hn. by apply indexOf_pathHighways.
  - split.
    + intros [Hi _]. apply indexOf_pathHighways in P1. apply Hi in P1.
      apply indexOf_pathHighways in P1. congruence.
    + intros _ _. split.
      * intros crossing (Hh & Hf & Hc & Hm). rewrite Hc, Hh, Hf.
        rewrite !bool_decide_eq_true_2 by done.
        assert (negb (indexOf ["marked"; "unmarked"] (Some crossing) =? -1) = true) as ->.
        { by destruct Hm as [-> | ->]. }
        cbn [andb]. split; f_equal; apply insert_insert_ne; done.
      * intros Hnone.
        destruct (tags entity1 !! "crossing") as [crossing|] eqn:Hc; [|done].
        destruct (bool_decide_reflect (tags entity1 !! "highway" = Some "footway"));
          [|done].
        destruct (bool_decide_reflect (tags entity1 !! "footway" = Some "crossing"));
          [|done].
        destruct (negb (indexOf ["marked"; "unmarked"] (Some crossing) =? -1)) eqn:Hm;
          [|done].
        exfalso. apply Hnone. exists crossing. repeat split; try done.
        apply indexOf_found in Hm as (s & [= <-] & Hin).
        in_list_cases Hin; [by left|by right].
  - split.
    + intros [_ Hi]. apply indexOf_pathHighways in P2. apply Hi in P2.
      apply indexOf_pathHighways in P2. congruence.
    + intros P%indexOf_pathHighways. congruence.
  - split; [done|]. intros P%indexOf_pathHighways. congruence.
Qed.

Lemma tagsForConnectionNode_highways_witness :
  tagsForConnectionNodeIfAllowed MoreSamples.zebra Sample.road
  = Some {["highway" := "crossing"; "crossing" := "marked"]}
  ∧ tagsForConnectionNodeIfAllowed Sample.road MoreSamples.zebra
    = Some {["highway" := "crossing"; "crossing" := "marked"]}.
Proof.
  destruct (tagsForConnectionNode_highways MoreSamples.zebra Sample.road) as [_ H].
  - vm_compute. reflexivity.
  - vm_compute. reflexivity.
  - destruct H as [H _].
    + exists "footway". split; [vm_compute; reflexivity|]. right. left.
    + intros (s & Hs & Hin). vm_compute in Hs. injection Hs as <-.
      repeat (apply elem_of_cons in Hin as [Hin|Hin]; [discriminate Hin|]).
      by apply elem_of_nil in Hin.
    + apply H. repeat split; try (vm_compute; reflexivity). by left.
Defined.

(** ** The classifier looks at five keys *)

Lemma getFeatureTypeForTags_ext (tags tags' : Tags) :
  (∀ key, key ∈ ["building"; "area"; "highway"; "railway"; "waterway"] →
     hasTag tags key = hasTag tags' key
     ∧ (hasTag tags key = true → tags !! key = tags' !! key)) →
  getFeatureTypeForTags tags = getFeatureTypeForTags tags'.
Proof.
  intros H. unfold getFeatureTypeForTags.
  destruct (H "building" ltac:(repeat constructor)) as [<- _].
  destruct (H "area" ltac:(repeat constructor)) as [<- _].
  destruct (H "highway" ltac:(repeat constructor)) as [<- Hh].
  destruct (H "railway" ltac:(repeat constructor)) as [<- Hr].
  destruct (H "waterway" ltac:(repeat constructor)) as [<- Hw].
  destruct (hasTag tags "building"); [done|].
  destruct (hasTag tags "area"); [done|].
  destruct (hasTag tags "highway"); [rewrite <- Hh by done|]; cbn [andb].
  - destruct (_ =? _); [done|].
    destruct (hasTag tags "railway"); [rewrite <- Hr by done|]; cbn [andb].
    + destruct (_ =? _); [done|].
      destruct (hasTag tags "waterway"); [rewrite <- Hw by done|]; done.
    + destruct (hasTag tags "waterway"); [rewrite <- Hw by done|]; done.
  - destruct (hasTag tags "railway"); [rewrite <- Hr by done|]; cbn [andb].
    + destruct (_ =? _); [done|].
      destruct (hasTag tags "waterway"); [rewrite <- Hw by done|]; done.
    + destruct (hasTag tags "waterway"); [rewrite <- Hw by done|]; done.
Qed.

(** X6.  The category of a tag set depends only on the keys building, area,
    highway, railway and waterway: tag sets that agree on these five have the
    same category, and removing any tag whose value is "no" never changes the
    category. *)
Theorem getFeatureTypeForTags_frame :
  (∀ tags tags' : Tags,
     (∀ key, key ∈ ["building"; "area"; "highway"; "railway"; "waterway"] →
        tags !! key = tags' !! key) →
     getFeatureTypeForTags tags = getFeatureTypeForTags tags')
  ∧ (∀ (tags : Tags) key,
       tags !! key = Some "no" →
       getFeatureTypeForTags (delete key tags) = getFeatureTypeForTags tags).
Proof.
  split.
  - intros tags tags' H. apply getFeatureTypeForTags_ext.
    intros key Hkey. unfold hasTag. by rewrite (H key Hkey).
  - intros tags key Hno. apply getFeatureTypeForTags_ext.
    intros key' _. split; [by apply hasTag_delete_no|].
    intros Hhas. destruct (decide (key = key')) as [<-|Hne].
    + rewrite (hasTag_delete_no _ _ _ Hno), (hasTag_no _ _ Hno) in Hhas. done.
    + by rewrite lookup_delete_ne.
Qed.

Lemma getFeatureTypeForTags_frame_witness :
  getFeatureTypeForTags (delete "bridge" (tags Sample.roadBridgeNo))
  = getFeatureTypeForTags (tags Sample.roadBridgeNo).
Proof.
  apply (proj2 getFeatureTypeForTags_frame). vm_compute. reflexivity.
Defined.

(** ** Two buildings *)

(** X7.  Two buildings cross legitimately exactly when their layers differ
    or when both are indoors on different levels.  Bridges and tunnels do
    not apply to buildings, and the covered tag never decides: where its
    rule asks for different layers, the last rule accepts the crossing for
    the different layers alone.  So a bridge, tunnel or covered tag changes
    the verdict only through the layer that is inferred from it: a way whose
    tags, with the inferred layer, agree with those of the first building on
    every key but one of these three gets the same verdict against the
    second building. *)
Theorem buildings_cross_on_different_layers (layer : Entity → string)
    (way1 way2 : Entity) (graph : Graph) :
  let tags1 := effectiveTags layer graph way1 in
  let tags2 := effectiveTags layer graph way2 in
  isLegitCrossing layer way1 building way2 building graph
  = (tagsImplyIndoors tags1 && tagsImplyIndoors tags2
     && bool_decide (tags1 !! "level" ≠ tags2 !! "level"))
    || bool_decide (tags1 !! "layer" ≠ tags2 !! "layer")
  ∧ ∀ (way1' : Entity) (graph' : Graph) (key : string),
      key ∈ ["bridge"; "tunnel"; "covered"] →
      (∀ k, k ≠ key → effectiveTags layer graph' way1' !! k = tags1 !! k) →
      effectiveTags layer graph' way2 = tags2 →
      isLegitCrossing layer way1' building way2 building graph'
      = isLegitCrossing layer way1 building way2 building graph.
Proof.
  intros tags1 tags2.
  assert (∀ w1 w2 g,
            isLegitCrossing layer w1 building w2 building g
            = (tagsImplyIndoors (effectiveTags layer g w1)
               && tagsImplyIndoors (effectiveTags layer g w2)
               && bool_decide (effectiveTags layer g w1 !! "level"
                               ≠ effectiveTags layer g w2 !! "level"))
              || bool_decide (effectiveTags layer g w1 !! "layer"
                              ≠ effectiveTags layer g w2 !! "layer")) as Hform.
  { intros w1 w2 g. unfold isLegitCrossing. cbn zeta.
    fold (effectiveTags layer g w1). fold (effectiveTags layer g w2).
    set (t1 := effectiveTags layer g w1). set (t2 := effectiveTags layer g w2).
    cbn [allowsBridge allowsTunnel allowsStructures canCover andb orb negb].
    destruct (tagsImplyIndoors t1 && tagsImplyIndoors t2
              && bool_decide (t1 !! "level" ≠ t2 !! "level")); [done|].
    cbn [orb].
    destruct (hasTag t1 "covered"), (hasTag t2 "covered"),
      (bool_decide (t1 !! "layer" ≠ t2 !! "layer")); done. }
  split; [apply Hform|].
  intros way1' graph' key Hkey Hsame Hsame2. rewrite !Hform. fold tags1 tags2.
  rewrite Hsame2.
  assert (key ≠ "level" ∧ key ≠ "layer" ∧ key ≠ "highway") as (H1 & H2 & H3).
  { in_list_cases Hkey; done. }
  unfold tagsImplyIndoors, hasTag.
  by rewrite (Hsame "level"), (Hsame "layer"), (Hsame "highway") by done.
Qed.

Lemma buildings_cross_on_different_layers_witness :
  isLegitCrossing Sample.layer0 MoreSamples.wallCovered building Sample.outline building
    MoreSamples.twoBuildingsCovered
  = isLegitCrossing Sample.layer0 Sample.wall building Sample.outline building
      Sample.twoBuildings.
Proof.
  apply (proj2 (buildings_cross_on_different_layers Sample.layer0 Sample.wall
                  Sample.outline Sample.twoBuildings)
           MoreSamples.wallCovered MoreSamples.twoBuildingsCovered "covered").
  - do 2 right. left.
  - intros k Hk.
    assert (effectiveTags Sample.layer0 MoreSamples.twoBuildingsCovered
              MoreSamples.wallCovered
            = <["covered" := "yes"]>
                (effectiveTags Sample.layer0 Sample.twoBuildings Sample.wall)) as ->
      by (vm_compute; reflexivity).
    by rewrite lookup_insert_ne.
  - vm_compute. reflexivity.
Defined.

(** ** What a reported crossing is *)

Section CrossingFacts.

Variable layer : Entity → string.
Variable geoLineIntersection : Loc * Loc → Loc * Loc → option Loc.

(** The invariant rule of the edge loop, with the position of the edge. *)
Lemma findCrossingsByWay_loop_invariant_at (P : DetectState → Prop) (primaryWay : Entity)
    (primaryFeatureType : FeatureType) (graph : Graph) (tree : Tree)
    (nids : list string) (st st' : DetectState) :
  (∀ i nid1 nid2 n1 n2 s s' w,
     nids !! i = Some nid1 → nids !! S i = Some nid2 →
     graph !! nid1 = Some n1 → graph !! nid2 = Some n2 →
     w ∈ intersects tree (edgeExtent n1 n2) graph → P s →
     checkCandidate layer geoLineIntersection primaryWay primaryFeatureType graph n1 n2 s w
       = Some s' → P s') →
  P st →
  findCrossingsByWay_loop layer geoLineIntersection primaryWay primaryFeatureType graph tree
    nids st = Some st' →
  P st'.
Proof.
  revert st. induction nids as [|nid1 nids IH]; intros st Hstep HP.
  - by intros [= <-].
  - destruct nids as [|nid2 rest]; [by intros [= <-]|].
    rewrite findCrossingsByWay_loop_step.
    intros (n1 & Hn1 & (n2 & Hn2 & (s1 & H1 & H2)%bind_Some)%bind_Some)%bind_Some.
    revert H2. apply IH.
    + intros i a b na nb s s' w Hi HSi. by apply (Hstep (S i)).
    + eapply (checkCandidates_invariant layer geoLineIntersection P); [|exact HP|exact H1].
      intros s s' w Hin. by apply (Hstep 0%nat nid1 nid2 n1 n2).
Qed.

Lemma findCrossingsByWay_sound (primaryWay : Entity) (graph : Graph) (tree : Tree)
    (crossings : list EdgeCrossing) (crossing : EdgeCrossing) :
  findCrossingsByWay layer geoLineIntersection primaryWay graph tree = Some crossings →
  crossing ∈ crossings →
  ∃ i nid1 nid2 n1 n2 wayNodes j nA nB,
    type primaryWay = way
    ∧ (ways crossing).1 = primaryWay
    ∧ nodes primaryWay !! i = Some nid1 ∧ nodes primaryWay !! S i = Some nid2
    ∧ graph !! nid1 = Some n1 ∧ graph !! nid2 = Some n2
    ∧ (ways crossing).2 ∈ intersects tree (edgeExtent n1 n2) graph
    ∧ type (ways crossing).2 = way
    ∧ id (ways crossing).2 ≠ id primaryWay
    ∧ childNodes graph (ways crossing).2 = Some wayNodes
    ∧ wayNodes !! j = Some nA ∧ wayNodes !! S j = Some nB
    ∧ edges crossing = ((id n1, id n2), (id nA, id nB))
    ∧ geoLineIntersection (loc n1, loc n2) (loc nA, loc nB) = Some (crossPoint crossing).
Proof.
  intros Hrun Hin. unfold findCrossingsByWay in Hrun.
  destruct (bool_decide_reflect (type primaryWay = way)) as [Hty|Hty]; cbn [negb] in Hrun;
    [|injection Hrun as <-; by apply elem_of_nil in Hin].
  destruct (getFeatureTypeForCrossingCheck primaryWay graph) as [pF|];
    [|injection Hrun as <-; by apply elem_of_nil in Hin].
  apply bind_Some in Hrun as (st & Hloop & [= <-]).
  revert crossing Hin.
  apply (findCrossingsByWay_loop_invariant_at
           (λ s, ∀ c, c ∈ s.1 →
              ∃ i nid1 nid2 n1 n2 wayNodes j nA nB,
                type primaryWay = way
                ∧ (ways c).1 = primaryWay
                ∧ nodes primaryWay !! i = Some nid1 ∧ nodes primaryWay !! S i = Some nid2
                ∧ graph !! nid1 = Some n1 ∧ graph !! nid2 = Some n2
                ∧ (ways c).2 ∈ intersects tree (edgeExtent n1 n2) graph
                ∧ type (ways c).2 = way
                ∧ id (ways c).2 ≠ id primaryWay
                ∧ childNodes graph (ways c).2 = Some wayNodes
                ∧ wayNodes !! j = Some nA ∧ wayNodes !! S j = Some nB
                ∧ edges c = ((id n1, id n2), (id nA, id nB))
                ∧ geoLineIntersection (loc n1, loc n2) (loc nA, loc nB)
                  = Some (crossPoint c))
           primaryWay pF graph tree (nodes primaryWay) ([], ∅) st);
    [|by intros c ?%elem_of_nil|exact Hloop].
  intros i nid1 nid2 n1 n2 s s' w Hi HSi Hn1 Hn2 Hw HP Hstep.
  apply checkCandidate_cases in Hstep
    as [->|(wF & ccs & Htw & _ & Hid & _ & _ & _ & Hccs & ->)]; [exact HP|].
  intros c. rewrite (proj1 (pushCrossings_spec _ _ _ _ _ _ _ _ _)).
  intros [Hc|Hc]%elem_of_app; [by apply HP|].
  apply list_elem_of_fmap in Hc as (cc & -> & Hcc).
  apply bind_Some in Hccs as (ns & Hns & [= <-]).
  apply findEdgeToWayCrossCoords_loop_sound in Hcc
    as (j & nA & nB & Hj & HSj & _ & Hpt & Hedge).
  exists i, nid1, nid2, n1, n2, ns, j, nA, nB.
  cbn [crossingOf ways edges crossPoint fst snd]. rewrite Hedge. done.
Qed.

(** ** The detection returns when the node references resolve *)

Lemma checkCandidate_total (primaryWay : Entity) (primaryFeatureType : FeatureType)
    (graph : Graph) (n1 n2 : Entity) (st : DetectState) (w : Entity) :
  (type w = way → ∀ nid, nid ∈ nodes w → is_Some (graph !! nid)) →
  is_Some (checkCandidate layer geoLineIntersection primaryWay primaryFeatureType
             graph n1 n2 st w).
Proof.
  intros Hres. unfold checkCandidate.
  destruct (bool_decide_reflect (type w = way)) as [Hty|]; cbn [negb]; [|done].
  destruct (bool_decide (id w ∈ st.2)); [done|].
  destruct (bool_decide (id w = id primaryWay)); [done|].
  destruct (getFeatureTypeForCrossingCheck w graph); [|done].
  destruct (_ || _); [done|].
  unfold findEdgeToWayCrossCoords, childNodes.
  destruct (mapM (entity graph) (nodes w)) as [ns|] eqn:Hns; [done|].
  exfalso. assert (is_Some (mapM (entity graph) (nodes w))) as [? ?]; [|congruence].
  apply mapM_is_Some. apply Forall_forall. intros nid Hnid. by apply Hres.
Qed.

Lemma checkCandidates_total (primaryWay : Entity) (primaryFeatureType : FeatureType)
    (graph : Graph) (n1 n2 : Entity) (intersected : list Entity) (st : DetectState) :
  (∀ w, w ∈ intersected → type w = way → ∀ nid, nid ∈ nodes w → is_Some (graph !! nid)) →
  is_Some (checkCandidates layer geoLineIntersection primaryWay primaryFeatureType
             graph n1 n2 intersected st).
Proof.
  revert st. induction intersected as [|w rest IH]; intros st Hres; [done|].
  cbn [checkCandidates].
  destruct (checkCandidate_total primaryWay primaryFeatureType graph n1 n2 st w)
    as [s1 ->]; [apply Hres; left|].
  cbn [mbind option_bind]. apply IH. intros w' Hw'. apply Hres. by right.
Qed.

Lemma findCrossingsByWay_loop_total (primaryWay : Entity) (primaryFeatureType : FeatureType)
    (graph : Graph) (tree : Tree) (nids : list string) (st : DetectState) :
  (∀ nid, nid ∈ nids → is_Some (graph !! nid)) →
  (∀ extent w, w ∈ intersects tree extent graph → type w = way →
     ∀ nid, nid ∈ nodes w → is_Some (graph !! nid)) →
  is_Some (findCrossingsByWay_loop layer geoLineIntersection primaryWay primaryFeatureType
             graph tree nids st).
Proof.
  intros Hnids Htree. revert st. induction nids as [|nid1 nids IH]; intros st; [done|].
  destruct nids as [|nid2 rest]; [done|].
  rewrite findCrossingsByWay_loop_step. unfold entity.
  destruct (Hnids nid1) as [n1 ->]; [left|].
  destruct (Hnids nid2) as [n2 ->]; [right; left|].
  cbn [mbind option_bind].
  destruct (checkCandidates_total primaryWay primaryFeatureType graph n1 n2
              (intersects tree (edgeExtent n1 n2) graph) st) as [s1 ->];
    [intros w Hw; by apply (Htree _ w Hw)|].
  cbn [mbind option_bind]. apply IH. intros nid Hnid. apply Hnids. by right.
Qed.

End CrossingFacts.

(** X8.  Every [EdgeCrossing] that [findCrossingsByWay] emits is between an
    edge of the primary way and an edge of a way, other than the primary way,
    that the spatial index returned for the extent of that primary edge; its
    two edges are consecutive node pairs of the two ways as the graph
    resolves them, and its crossing point is what [geoLineIntersection]
    returns for these two segments. *)
Theorem reported_crossing_is_an_intersection (layer : Entity → string)
    (geoLineIntersection : Loc * Loc → Loc * Loc → option Loc)
    (primaryWay : Entity) (graph : Graph) (tree : Tree)
    (crossings : list EdgeCrossing) (crossing : EdgeCrossing) :
  findCrossingsByWay layer geoLineIntersection primaryWay graph tree = Some crossings →
  crossing ∈ crossings →
  ∃ i nid1 nid2 n1 n2 wayNodes j nA nB,
    type primaryWay = way
    ∧ (ways crossing).1 = primaryWay
    ∧ nodes primaryWay !! i = Some nid1 ∧ nodes primaryWay !! S i = Some nid2
    ∧ graph !! nid1 = Some n1 ∧ graph !! nid2 = Some n2
    ∧ (ways crossing).2 ∈ intersects tree (edgeExtent n1 n2) graph
    ∧ type (ways crossing).2 = way
    ∧ id (ways crossing).2 ≠ id primaryWay
    ∧ childNodes graph (ways crossing).2 = Some wayNodes
    ∧ wayNodes !! j = Some nA ∧ wayNodes !! S j = Some nB
    ∧ edges crossing = ((id n1, id n2), (id nA, id nB))
    ∧ geoLineIntersection (loc n1, loc n2) (loc nA, loc nB) = Some (crossPoint crossing).
Proof. apply findCrossingsByWay_sound. Qed.

Lemma reported_crossing_is_an_intersection_witness :
  ∃ i nid1 nid2 n1 n2 wayNodes j nA nB,
    type Sample.road = way
    ∧ (ways Sample.roadBypassCrossing).1 = Sample.road
    ∧ nodes Sample.road !! i = Some nid1 ∧ nodes Sample.road !! S i = Some nid2
    ∧ Sample.roadAndBypass !! nid1 = Some n1 ∧ Sample.roadAndBypass !! nid2 = Some n2
    ∧ (ways Sample.roadBypassCrossing).2
        ∈ intersects Sample.roadAndBypassTree (edgeExtent n1 n2) Sample.roadAndBypass
    ∧ type (ways Sample.roadBypassCrossing).2 = way
    ∧ id (ways Sample.roadBypassCrossing).2 ≠ id Sample.road
    ∧ childNodes Sample.roadAndBypass (ways Sample.roadBypassCrossing).2 = Some wayNodes
    ∧ wayNodes !! j = Some nA ∧ wayNodes !! S j = Some nB
    ∧ edges Sample.roadBypassCrossing = ((id n1, id n2), (id nA, id nB))
    ∧ geoLineIntersection (loc n1, loc n2) (loc nA, loc nB)
      = Some (crossPoint Sample.roadBypassCrossing).
Proof.
  apply (reported_crossing_is_an_intersection Sample.layer0 geoLineIntersection
           Sample.road Sample.roadAndBypass Sample.roadAndBypassTree
           [Sample.roadBypassCrossing]).
  - vm_compute. reflexivity.
  - left.
Defined.

(** X9.  [findCrossingsByWay] returns a result (it does not fail on a node
    lookup) whenever every node reference of the primary way resolves in the
    graph and so does every node reference of the ways the spatial index
    returns. *)
Theorem findCrossingsByWay_returns (layer : Entity → string)
    (geoLineIntersection : Loc * Loc → Loc * Loc → option Loc)
    (primaryWay : Entity) (graph : Graph) (tree : Tree) :
  (∀ nid, nid ∈ nodes primaryWay → is_Some (graph !! nid)) →
  (∀ extent w, w ∈ intersects tree extent graph → type w = way →
     ∀ nid, nid ∈ nodes w → is_Some (graph !! nid)) →
  ∃ crossings,
    findCrossingsByWay layer geoLineIntersection primaryWay graph tree = Some crossings.
Proof.
  intros Hnids Htree. unfold findCrossingsByWay.
  destruct (negb _); [by eexists|].
  destruct (getFeatureTypeForCrossingCheck primaryWay graph) as [pF|]; [|by eexists].
  destruct (findCrossingsByWay_loop_total layer geoLineIntersection primaryWay pF graph tree
              (nodes primaryWay) ([], ∅) Hnids Htree) as [st ->].
  by eexists.
Qed.

Lemma findCrossingsByWay_returns_witness :
  ∃ crossings,
    findCrossingsByWay Sample.layer0 geoLineIntersection Sample.road
      Sample.roadAndStream Sample.roadAndStreamTree = Some crossings.
Proof.
  apply (findCrossingsByWay_returns Sample.layer0 geoLineIntersection
           Sample.road Sample.roadAndStream Sample.roadAndStreamTree).
  - intros nid Hnid. vm_compute in Hnid.
    apply elem_of_cons in Hnid as [->|Hnid]; [vm_compute; by eexists|].
    apply elem_of_cons in Hnid as [->|Hnid]; [vm_compute; by eexists|].
    by apply elem_of_nil in Hnid.
  - intros extent w Hw _ nid Hnid. vm_compute in Hw.
    apply elem_of_cons in Hw as [->|Hw].
    { vm_compute in Hnid.
      apply elem_of_cons in Hnid as [->|Hnid]; [vm_compute; by eexists|].
      apply elem_of_cons in Hnid as [->|Hnid]; [vm_compute; by eexists|].
      by apply elem_of_nil in Hnid. }
    apply elem_of_cons in Hw as [->|Hw]; [|by apply elem_of_nil in Hw].
    vm_compute in Hnid.
    apply elem_of_cons in Hnid as [->|Hnid]; [vm_compute; by eexists|].
    apply elem_of_cons in Hnid as [->|Hnid]; [vm_compute; by eexists|].
    by apply elem_of_nil in Hnid.
Defined.


(** ** The connect action, case by case *)

Lemma Qltb_ge (x y : Q) : Qltb x y = false ↔ (y <= x)%Q.
Proof.
  unfold Qltb. rewrite negb_false_iff. apply Qle_bool_iff.
Qed.

Section ConnectFacts.

Variable geoSphericalClosestNode : list Entity → Loc → ClosestNodeInfo.
Variable actionAddMidpoint : Loc * (string * string) → Entity → Graph → Graph.
Variable actionMergeNodes : list string → Loc → Graph → Graph.

Lemma connectEdge_resolved (loc : Loc) (node0 : Entity) (st : Graph * list string)
    (edge : string * string) (n0 n1 : Entity) :
  entity st.1 edge.1 = Some n0 → entity st.1 edge.2 = Some n1 →
  connectEdge geoSphericalClosestNode actionAddMidpoint loc node0 st edge
  = Some (if Qltb (distance (geoSphericalClosestNode [n0; n1] loc)) (3 # 4)
          then (st.1, st.2 ++ [id (closest_node (geoSphericalClosestNode [n0; n1] loc))])
          else (actionAddMidpoint (loc, edge) node0 st.1, st.2)).
Proof.
  intros H0 H1. unfold connectEdge, mergeThresholdInMeters. rewrite H0, H1.
  cbn [mbind option_bind]. by destruct (Qltb _ _).
Qed.

End ConnectFacts.

(** X10.  The connect action, for every combination of near and far
    endpoints.  An edge whose closer endpoint is within (less than) 0.75 of
    the crossing location is not split and its closer endpoint is marked for
    merging; any other edge, also one at exactly 0.75, is split by the new
    node.  The second edge is examined in the graph that the first edge left
    behind.  The nodes are merged, the new node first and the endpoints in
    the order of the edges, exactly when an endpoint was marked; when both
    edges are split [actionMergeNodes] is not applied. *)
Theorem connect_action_by_cases
    (geoSphericalClosestNode : list Entity → Loc → ClosestNodeInfo)
    (actionAddMidpoint : Loc * (string * string) → Entity → Graph → Graph)
    (actionMergeNodes : list string → Loc → Graph → Graph)
    (newId : string) (loc : Loc) (connectionTags : Tags)
    (edges : (string * string) * (string * string)) (graph : Graph)
    (a1 b1 a2 b2 : Entity) :
  let node0 := osmNode newId loc connectionTags in
  let graph1 := replace graph node0 in
  let closest1 := geoSphericalClosestNode [a1; b1] loc in
  let near1 := Qltb (distance closest1) (3 # 4) in
  let graph2 := if near1 then graph1 else actionAddMidpoint (loc, edges.1) node0 graph1 in
  let closest2 := geoSphericalClosestNode [a2; b2] loc in
  let near2 := Qltb (distance closest2) (3 # 4) in
  let graph3 := if near2 then graph2 else actionAddMidpoint (loc, edges.2) node0 graph2 in
  entity graph1 edges.1.1 = Some a1 → entity graph1 edges.1.2 = Some b1 →
  entity graph2 edges.2.1 = Some a2 → entity graph2 edges.2.2 = Some b2 →
  actionConnectCrossingWays geoSphericalClosestNode actionAddMidpoint actionMergeNodes
    newId loc connectionTags edges graph
  = Some (if near1 || near2
          then actionMergeNodes
                 (newId :: (if near1 then [id (closest_node closest1)] else [])
                        ++ (if near2 then [id (closest_node closest2)] else []))
                 loc graph3
          else graph3).
Proof.
  intros node0 graph1 closest1 near1 graph2 closest2 near2 graph3 Ha1 Hb1 Ha2 Hb2.
  unfold actionConnectCrossingWays. cbn zeta. fold node0. fold graph1.
  rewrite (connectEdge_resolved _ _ loc node0 (graph1, [id node0]) edges.1 a1 b1 Ha1 Hb1).
  fold closest1. fold near1. cbn [mbind option_bind].
  subst graph3 graph2. destruct near1; cbn [fst snd] in *.
  - rewrite (connectEdge_resolved _ _ loc node0 (graph1, _) edges.2 a2 b2 Ha2 Hb2).
    fold closest2. fold near2. cbn [mbind option_bind]. by destruct near2.
  - rewrite (connectEdge_resolved _ _ loc node0 (_, _) edges.2 a2 b2 Ha2 Hb2).
    fold closest2. fold near2. cbn [mbind option_bind]. by destruct near2.
Qed.

Lemma connect_action_by_cases_witness :
  actionConnectCrossingWays geoClosestNode actionAddMidpoint actionMergeNodes
    "n-1" (0%Q, 0%Q) {["ford" := "yes"]} (("a", "b"), ("c", "d")) MoreSamples.oneShortEnd
  = Some (actionMergeNodes ["n-1"; "b"] (0%Q, 0%Q)
            (actionAddMidpoint ((0%Q, 0%Q), ("c", "d"))
               (osmNode "n-1" (0%Q, 0%Q) {["ford" := "yes"]})
               (replace MoreSamples.oneShortEnd
                  (osmNode "n-1" (0%Q, 0%Q) {["ford" := "yes"]})))).
Proof.
  apply (connect_action_by_cases geoClosestNode actionAddMidpoint actionMergeNodes
           "n-1" (0%Q, 0%Q) {["ford" := "yes"]} (("a", "b"), ("c", "d"))
           MoreSamples.oneShortEnd Sample.a Sample.b' Sample.c Sample.d).
  - vm_compute. reflexivity.
  - vm_compute. reflexivity.
  - vm_compute. reflexivity.
  - vm_compute. reflexivity.
Defined.

(** ** Where the issues of a validation come from *)

Lemma waysToCheck_elem (entity0 : Entity) (context : Context) (w : Entity) :
  Some w ∈ waysToCheck entity0 context →
  type w = way
  ∧ (w = entity0
     ∨ (type entity0 = relation
        ∧ tags entity0 !! "type" = Some "multipolygon"
        ∧ ∃ member, member ∈ members entity0
            ∧ context_graph context !! member_id member = Some w)).
Proof.
  unfold waysToCheck.
  destruct (getFeatureTypeForTags (tags entity0)); [|by intros ?%elem_of_nil].
  destruct (bool_decide_reflect (type entity0 = way)) as [Hway|_].
  { intros [= ->]%list_elem_of_singleton. split; [done|by left]. }
  destruct (bool_decide_reflect (type entity0 = relation)) as [Hrel|_];
    [|by intros ?%elem_of_nil].
  destruct (bool_decide_reflect (tags entity0 !! "type" = Some "multipolygon")) as [Hmp|_];
    [|by intros ?%elem_of_nil].
  destruct (hasTag (tags entity0) "building"); [|by intros ?%elem_of_nil].
  cbn [andb]. intros (member & Hw & Hin)%list_elem_of_fmap.
  destruct (hasEntity _ _); [|done]. unfold entity in Hw.
  destruct (context_graph context !! member_id member) as [e|] eqn:He; [|done].
  destruct (bool_decide_reflect (type e = way)) as [Hty|]; [|done].
  injection Hw as ->. split; [done|]. right. repeat split; try done. by exists member.
Qed.

(** X11.  Every issue that [validation] returns for an entity lies on a
    crossing of the geometry: it comes from a way that is the entity itself
    or a way member of the multipolygon relation, and from another way;
    its two edges are consecutive nodes of these two ways, its location is
    the point where [geoLineIntersection] finds the two segments to cross,
    and it is a warning of the type crossing_ways. *)
Theorem issue_is_at_an_intersection (layer : Entity → string)
    (geoLineIntersection : Loc * Loc → Loc * Loc → option Loc)
    (utilDisplayLabel : Entity → string) (t : string → list (string * string) → string)
    (sortWays : (Entity → Entity → bool) → Entity * Entity → Entity * Entity)
    (entity0 : Entity) (context : Context) (issues : list Issue) (issue : Issue) :
  validation layer geoLineIntersection utilDisplayLabel t sortWays entity0 context
    = Some issues →
  issue ∈ issues →
  ∃ (w other : Entity) (i j : nat) (n1 n2 nA nB : Entity) (otherNodes : list Entity),
    (w = entity0
     ∨ (type entity0 = relation
        ∧ tags entity0 !! "type" = Some "multipolygon"
        ∧ ∃ member, member ∈ members entity0
            ∧ context_graph context !! member_id member = Some w))
    ∧ type w = way ∧ type other = way ∧ id other ≠ id w
    ∧ (∃ nid1 nid2, nodes w !! i = Some nid1 ∧ nodes w !! S i = Some nid2
         ∧ context_graph context !! nid1 = Some n1
         ∧ context_graph context !! nid2 = Some n2)
    ∧ other ∈ intersects (context_tree context) (edgeExtent n1 n2) (context_graph context)
    ∧ childNodes (context_graph context) other = Some otherNodes
    ∧ otherNodes !! j = Some nA ∧ otherNodes !! S j = Some nB
    ∧ info_edges (info issue) = ((id n1, id n2), (id nA, id nB))
    ∧ geoLineIntersection (loc n1, loc n2) (loc nA, loc nB) = Some (issue_loc issue)
    ∧ issue_type issue = "crossing_ways" ∧ severity issue = "warning".
Proof.
  unfold validation. cbn zeta. intros (crossings & Hcollect & [= <-])%bind_Some Hin.
  apply list_elem_of_fmap in Hin as (crossing & -> & Hin).
  destruct (collectCrossings_elem _ _ _ _ _ _ _ Hcollect crossing Hin)
    as [Hnil|(w & found & Hw & Hrun & Hfound)]; [by apply elem_of_nil in Hnil|].
  apply waysToCheck_elem in Hw as [Hty Hw].
  destruct (findCrossingsByWay_sound _ _ _ _ _ _ _ Hrun Hfound)
    as (i & nid1 & nid2 & n1 & n2 & ns & j & nA & nB & _ & Hw1 & Hi & HSi & Hn1 & Hn2
        & Hint & Hty2 & Hne & Hns & Hj & HSj & Hedges & Hpt).
  exists w, (ways crossing).2, i, j, n1, n2, nA, nB, ns.
  cbn [createIssue info info_edges issue_loc issue_type severity].
  repeat split; try done. by exists nid1, nid2.
Qed.

Lemma issue_is_at_an_intersection_witness :
  ∃ (w other : Entity) (i j : nat) (n1 n2 nA nB : Entity) (otherNodes : list Entity),
    (w = Sample.road
     ∨ (type Sample.road = relation
        ∧ tags Sample.road !! "type" = Some "multipolygon"
        ∧ ∃ member, member ∈ members Sample.road
            ∧ Sample.roadAndStream !! member_id member = Some w))
    ∧ type w = way ∧ type other = way ∧ id other ≠ id w
    ∧ (∃ nid1 nid2, nodes w !! i = Some nid1 ∧ nodes w !! S i = Some nid2
         ∧ Sample.roadAndStream !! nid1 = Some n1
         ∧ Sample.roadAndStream !! nid2 = Some n2)
    ∧ other ∈ intersects Sample.roadAndStreamTree (edgeExtent n1 n2) Sample.roadAndStream
    ∧ childNodes Sample.roadAndStream other = Some otherNodes
    ∧ otherNodes !! j = Some nA ∧ otherNodes !! S j = Some nB
    ∧ info_edges (info Sample.roadStreamIssue) = ((id n1, id n2), (id nA, id nB))
    ∧ geoLineIntersection (loc n1, loc n2) (loc nA, loc nB)
      = Some (issue_loc Sample.roadStreamIssue)
    ∧ issue_type Sample.roadStreamIssue = "crossing_ways"
    ∧ severity Sample.roadStreamIssue = "warning".
Proof.
  apply (issue_is_at_an_intersection Sample.layer0 geoLineIntersection
           Sample.label Sample.t sortPairInsertion Sample.road
           (mkContext Sample.roadAndStream Sample.roadAndStreamTree)
           [Sample.roadStreamIssue]).
  - vm_compute. reflexivity.
  - left.
Defined.

(** * Properties of the KeepRight service *)

(** ** Splitting and joining *)

Lemma append_cons (c : ascii) (s1 s2 : string) :
  (String c s1 ++ s2)%string = String c (s1 ++ s2).
Proof. reflexivity. Qed.

Lemma append_nil_r (s : string) : (s ++ "")%string = s.
Proof. induction s as [|c s IH]; [done|]. by rewrite append_cons, IH. Qed.

Lemma append_assoc (s1 s2 s3 : string) :
  ((s1 ++ s2) ++ s3)%string = (s1 ++ (s2 ++ s3))%string.
Proof. induction s1 as [|c s IH]; [done|]. by rewrite !append_cons, IH. Qed.

Lemma prefix_app (s rest : string) : String.prefix s (s ++ rest) = true.
Proof.
  induction s as [|c s IH]; [by destruct rest|].
  rewrite append_cons. cbn [String.prefix].
  destruct (ascii_dec c c); [apply IH|done].
Qed.

Lemma prefix_head_ne (c c' : ascii) (sep text : string) :
  c' ≠ c → String.prefix (String c sep) (String c' text) = false.
Proof. intros Hne. cbn [String.prefix]. destruct (ascii_dec c c') as [->|]; done. Qed.

Lemma splitFrom_skip (sep : string) (s : string) (cur rest : string) :
  KeepRight.splitFrom sep (String.length s) cur (s ++ rest)
  = KeepRight.splitFrom sep 0 cur rest.
Proof.
  induction s as [|c s IH]; [done|].
  rewrite append_cons. cbn [String.length KeepRight.splitFrom]. apply IH.
Qed.

Lemma splitFrom_piece (c : ascii) (sep x cur rest : string) :
  freeOf c x →
  KeepRight.splitFrom (String c sep) 0 cur (x ++ rest)
  = KeepRight.splitFrom (String c sep) 0 (cur ++ x) rest.
Proof.
  revert cur. induction x as [|c' x IH]; intros cur.
  - intros _. by rewrite append_nil_r.
  - intros [Hne Hfree]. rewrite append_cons. cbn [KeepRight.splitFrom].
    rewrite (prefix_head_ne c c' sep (x ++ rest) Hne), IH by done.
    by rewrite append_assoc.
Qed.

Lemma splitFrom_separator (c : ascii) (sep cur rest : string) :
  KeepRight.splitFrom (String c sep) 0 cur (String c sep ++ rest)
  = cur :: KeepRight.splitFrom (String c sep) 0 "" rest.
Proof.
  rewrite append_cons. cbn [KeepRight.splitFrom].
  rewrite <- append_cons, prefix_app. cbn [String.length]. f_equal.
  replace (S (String.length sep) - 1)%nat with (String.length sep) by lia.
  apply splitFrom_skip.
Qed.

Lemma concat_cons (sep x y : string) (ys : list string) :
  String.concat sep (x :: y :: ys) = (x ++ sep ++ String.concat sep (y :: ys))%string.
Proof. reflexivity. Qed.

(** Splitting what [join] made gives the pieces back, when the first code
    unit of the separator occurs in no piece. *)
Lemma split_join (c : ascii) (sep : string) (x : string) (xs : list string) :
  Forall (freeOf c) (x :: xs) →
  KeepRight.split (String c sep) (String.concat (String c sep) (x :: xs)) = x :: xs.
Proof.
  assert (∀ cur, Forall (freeOf c) (x :: xs) →
            KeepRight.splitFrom (String c sep) 0 cur (String.concat (String c sep) (x :: xs))
            = (cur ++ x)%string :: xs) as H; [|intros Hall; by apply (H ""%string)].
  revert x. induction xs as [|y ys IH]; intros x cur [Hx Hrest]%Forall_cons.
  - cbn [String.concat]. rewrite <- (append_nil_r x) at 1.
    by rewrite splitFrom_piece.
  - rewrite concat_cons, splitFrom_piece by done.
    rewrite splitFrom_separator. f_equal. by rewrite IH.
Qed.

(** ** Decoding the id lists of a description *)

Lemma substring_all (s : string) : String.substring 0 (String.length s) s = s.
Proof. induction s as [|c s IH]; [done|]. cbn [String.length String.substring]. by rewrite IH. Qed.

Lemma slice_tail (c : ascii) (s : string) : KeepRight.slice (String c s) 1 None = s.
Proof.
  unfold KeepRight.slice. cbn [default String.length]. rewrite Nat.min_id.
  cbn [Nat.sub String.substring]. rewrite Nat.sub_0_r. apply substring_all.
Qed.

Lemma freeOf_append (c : ascii) (s1 s2 : string) :
  freeOf c (s1 ++ s2) ↔ freeOf c s1 ∧ freeOf c s2.
Proof.
  induction s1 as [|c' s1 IH]; [cbn [freeOf]; change ("" ++ s2)%string with s2; tauto|].
  rewrite append_cons. cbn [freeOf]. rewrite IH. tauto.
Qed.

Lemma mapM_fmap_images {A B C} (f : B → option C) (g : A → B) (h : A → C) (l : list A) :
  (∀ x, x ∈ l → f (g x) = Some (h x)) → mapM f (g <$> l) = Some (h <$> l).
Proof.
  induction l as [|x l IH]; intros Hf; [done|].
  cbn [fmap list_fmap mapM]. rewrite (Hf x) by left. cbn [mbind option_bind].
  rewrite IH by (intros y Hy; apply Hf; by right). done.
Qed.

Lemma node_list_links (c : ascii) (sep : string) (id : string) (ids : list string) :
  Forall (freeOf c) (id :: ids) → c ≠ "#"%char →
  map (λ item, KeepRight.linkEntity ("n" ++ KeepRight.slice item 1 None)%string)
    (KeepRight.split (String c sep)
       (String.concat (String c sep) (String.append "#" <$> (id :: ids))))
  = (λ i, KeepRight.linkEntity ("n" ++ i)%string) <$> (id :: ids).
Proof.
  intros Hfree Hc.
  change (String.append "#" <$> (id :: ids))
    with (String.append "#" id :: (String.append "#" <$> ids)).
  rewrite split_join.
  - change (String.append "#" id :: (String.append "#" <$> ids))
      with (String.append "#" <$> (id :: ids)).
    generalize (id :: ids) as l. intros l. induction l as [|x l IH]; [done|].
    cbn [fmap list_fmap map]. f_equal; [|apply IH].
    change (String.append "#" x) with (String "#" x). by rewrite slice_tail.
  - change (String.append "#" id :: (String.append "#" <$> ids))
      with (String.append "#" <$> (id :: ids)).
    apply Forall_fmap. eapply Forall_impl; [exact Hfree|].
    intros x Hx. cbn. split; [congruence|done].
Qed.

Lemma parseError294_item_plain (item : string * string * string) :
  plainItem item → KeepRight.parseError294_item (item294 item) = Some (link294 item).
Proof.
  destruct item as [[role kind] id]. intros ((_ & Hr) & (_ & Hk) & (_ & Hi)).
  cbn [fst snd] in *. unfold KeepRight.parseError294_item, item294, link294.
  cbn [fst snd].
  change (role ++ " " ++ kind ++ " #" ++ id)%string
    with (String.concat " " [role; kind; String "#" id]).
  rewrite (split_join " "%char "" role [kind; String "#" id]).
  - cbn [lookup list_lookup default mbind option_bind]. rewrite slice_tail.
    reflexivity.
  - repeat constructor; try done.
Qed.

Lemma parseError294_item_fails (item : string) :
  KeepRight.parseError294_item item = None
  ↔ (length (KeepRight.split " " item) < 3)%nat.
Proof.
  unfold KeepRight.parseError294_item. cbn zeta.
  destruct (KeepRight.split " " item) as [|w0 [|w1 [|w2 ws]]];
    cbn [lookup list_lookup mbind option_bind length]; split; intros H;
    first [done | lia].
Qed.

Lemma mapM_None {A B} (f : A → option B) (l : list A) :
  mapM f l = None ↔ ∃ x, x ∈ l ∧ f x = None.
Proof.
  induction l as [|y l IH]; cbn [mapM].
  - split; [done|]. by intros (x & ?%elem_of_nil & _).
  - destruct (f y) as [b|] eqn:Hy; cbn [mbind option_bind].
    + destruct (mapM f l) as [bs|]; cbn [mbind option_bind mret option_ret].
      * split; [done|]. intros (x & [->|Hin]%elem_of_cons & Hx); [congruence|].
        assert (Some bs = None) as Habs; [|done]. apply IH. by exists x.
      * split; [|done]. intros _. destruct (proj1 IH eq_refl) as (x & Hin & Hx).
        exists x. split; [by right|done].
    + split; [|done]. intros _. exists y. split; [left|done].
Qed.

(** X12.  [parseError] turns a list of node ids of the kind 20
    ([#ID,#ID,...]) or 211 ([#ID, #ID, ...]) into the links of these nodes,
    one for each id and in the same order, separated by a comma and a
    space. *)
Theorem parseError_node_lists (parseError231 parseError370 : string → string)
    (id : string) (ids : list string) :
  Forall (freeOf ",") (id :: ids) →
  let links :=
    String.concat ", " ((λ i, KeepRight.linkEntity ("n" ++ i)%string) <$> (id :: ids)) in
  KeepRight.parseError parseError231 parseError370
    (String.concat "," (String.append "#" <$> (id :: ids))) "20" = Some links
  ∧ KeepRight.parseError parseError231 parseError370
      (String.concat ", " (String.append "#" <$> (id :: ids))) "211" = Some links.
Proof.
  intros Hfree links. unfold KeepRight.parseError.
  rewrite !bool_decide_eq_false_2 by done. cbn [orb].
  rewrite bool_decide_eq_true_2 by done.
  rewrite !bool_decide_eq_false_2 by done. rewrite bool_decide_eq_true_2 by done.
  unfold KeepRight.parseWarning20, KeepRight.parseError211. cbn zeta.
  rewrite (node_list_links ","%char "" id ids Hfree) by done.
  rewrite (node_list_links ","%char " " id ids Hfree) by done.
  done.
Qed.

Lemma parseError_node_lists_witness :
  KeepRight.parseError (λ s, s) (λ s, s) "#12,#345" "20"
  = Some (String.concat ", " [KeepRight.linkEntity "n12"; KeepRight.linkEntity "n345"])
  ∧ KeepRight.parseError (λ s, s) (λ s, s) "#12, #345" "211"
    = Some (String.concat ", " [KeepRight.linkEntity "n12"; KeepRight.linkEntity "n345"]).
Proof.
  apply (parseError_node_lists (λ s, s) (λ s, s) "12" ["345"]).
  repeat constructor; done.
Defined.

(** X13.  [parseError] turns a list of the kind 294 whose items are three
    words, [role kind #ID], into the items [role] in quotes, [kind], and the
    link of the entity that the first letter of [kind] and the id name, in
    the same order, separated by a comma and a space. *)
Theorem parseError_294_items (parseError231 parseError370 : string → string)
    (item : string * string * string) (items : list (string * string * string)) :
  Forall plainItem (item :: items) →
  KeepRight.parseError parseError231 parseError370
    (String.concat "," (item294 <$> (item :: items))) "294"
  = Some (String.concat ", " (link294 <$> (item :: items))).
Proof.
  intros Hplain. unfold KeepRight.parseError.
  rewrite !bool_decide_eq_false_2 by done. cbn [orb].
  rewrite bool_decide_eq_true_2 by done.
  unfold KeepRight.parseError294. cbn zeta.
  change (item294 <$> (item :: items)) with (item294 item :: (item294 <$> items)).
  rewrite split_join.
  - change (item294 item :: (item294 <$> items)) with (item294 <$> (item :: items)).
    rewrite (mapM_fmap_images _ item294 link294); [done|].
    intros x Hx. apply parseError294_item_plain.
    by apply (proj1 (Forall_forall _ _) Hplain).
  - change (item294 item :: (item294 <$> items)) with (item294 <$> (item :: items)).
    apply Forall_fmap. eapply Forall_impl; [exact Hplain|].
    intros [[role kind] i] ((Hr & _) & (Hk & _) & (Hi & _)). cbn [fst snd] in *.
    unfold item294. cbn [fst snd compose].
    rewrite !freeOf_append. cbn [freeOf]. repeat split; try done.
Qed.

Lemma parseError_294_items_witness :
  KeepRight.parseError (λ s, s) (λ s, s) "from node #12,to relation #345" "294"
  = Some (String.concat ", "
            [link294 ("from", "node", "12"); link294 ("to", "relation", "345")]).
Proof.
  apply (parseError_294_items (λ s, s) (λ s, s) ("from", "node", "12")
           [("to", "relation", "345")]).
  repeat constructor; done.
Defined.

(** X14.  [parseError] throws only for the kind 294, and there exactly when
    an item of the list, between two commas, has fewer than three words
    between spaces: the second or the third word it reads is [undefined]. *)
Theorem parseError_throws (parseError231 parseError370 : string → string)
    (group idType : string) :
  KeepRight.parseError parseError231 parseError370 group idType = None
  ↔ idType = "294"
    ∧ ∃ item, item ∈ KeepRight.split "," group
        ∧ (length (KeepRight.split " " item) < 3)%nat.
Proof.
  unfold KeepRight.parseError.
  destruct (bool_decide_reflect (idType = "n")) as [->|_]; [by split; [|intros [? _]]|].
  destruct (bool_decide_reflect (idType = "w")) as [->|_]; [by split; [|intros [? _]]|].
  destruct (bool_decide_reflect (idType = "r")) as [->|_]; [by split; [|intros [? _]]|].
  cbn [orb].
  destruct (bool_decide_reflect (idType = "211")) as [->|_]; [by split; [|intros [? _]]|].
  destruct (bool_decide_reflect (idType = "231")) as [->|_]; [by split; [|intros [? _]]|].
  destruct (bool_decide_reflect (idType = "294")) as [->|Hne].
  - unfold KeepRight.parseError294. cbn zeta. split.
    + intros H. split; [done|].
      destruct (mapM _ _) as [l|] eqn:Hl; [done|].
      apply mapM_None in Hl as (item & Hin & Hitem). exists item.
      split; [done|]. by apply parseError294_item_fails.
    + intros (_ & item & Hin & Hlen).
      assert (mapM KeepRight.parseError294_item (KeepRight.split "," group) = None) as ->;
        [|done].
      apply mapM_None. exists item. split; [done|]. by apply parseError294_item_fails.
  - destruct (bool_decide _); [by split; [|intros [? _]]|].
    destruct (bool_decide _); by split; [|intros [? _]].
Qed.

(** ** Requests of the KeepRight service *)

Section RequestFacts.

Import KeepRight.

Variable rectangle : Extent → Q * Q * Q * Q.
Variable utilQsString : list (string * QsValue) → string.

Lemma find_tile_None (k : string) (tiles : list Tile) :
  List.find (λ tile, bool_decide (k = tile_id tile)) tiles = None
  ↔ k ∉ tile_id <$> tiles.
Proof.
  induction tiles as [|tile tiles IH]; cbn [List.find fmap list_fmap].
  - split; [intros _ ?%elem_of_nil; done|done].
  - rewrite not_elem_of_cons. destruct (bool_decide_reflect (k = tile_id tile)) as [->|Hne].
    + split; [done|]. by intros [? _].
    + rewrite IH. split; [by intros ?|by intros [_ ?]].
Qed.

Lemma find_tile_is_Some (k : string) (tiles : list Tile) :
  is_Some (List.find (λ tile, bool_decide (k = tile_id tile)) tiles)
  ↔ k ∈ tile_id <$> tiles.
Proof.
  rewrite <- not_eq_None_Some, find_tile_None.
  destruct (decide (k ∈ tile_id <$> tiles)); naive_solver.
Qed.

Lemma abortIfUnwanted_fold (cache : Cache) (tiles : list Tile) (m : gmap string Request) :
  loaded (map_fold (abortIfUnwanted tiles) (∅, cache) m).2 = loaded cache
  ∧ ∀ k : string,
      (map_fold (abortIfUnwanted tiles) (∅, cache) m).1 !! k
      = (if decide (k ∈ tile_id <$> tiles) then None else m !! k)
      ∧ inflight (map_fold (abortIfUnwanted tiles) (∅, cache) m).2 !! k
        = (if decide (k ∈ tile_id <$> tiles) then inflight cache !! k
           else match m !! k with
                | Some _ => None
                | None => inflight cache !! k
                end).
Proof.
  revert m.
  apply (map_fold_weak_ind
           (λ (r : gmap string Request * Cache) (m : gmap string Request),
              loaded r.2 = loaded cache
              ∧ ∀ k : string,
                  r.1 !! k = (if decide (k ∈ tile_id <$> tiles) then None else m !! k)
                  ∧ inflight r.2 !! k
                    = (if decide (k ∈ tile_id <$> tiles) then inflight cache !! k
                       else match m !! k with
                            | Some _ => None
                            | None => inflight cache !! k
                            end))).
  - split; [done|]. intros k. cbn [fst snd]. rewrite !lookup_empty.
    by destruct (decide _).
  - intros i x m r Hi [Hl Hk]. unfold abortIfUnwanted. cbn zeta.
    destruct (List.find _ tiles) as [tile|] eqn:Hfind.
    + split; [done|]. intros k. destruct (Hk k) as [Hk1 Hk2]. rewrite Hk1, Hk2.
      assert (i ∈ tile_id <$> tiles) as Hin
          by (apply find_tile_is_Some; rewrite Hfind; by eexists).
      destruct (decide (k ∈ tile_id <$> tiles)) as [|Hout]; [done|].
      assert (k ≠ i) by congruence. by rewrite lookup_insert_ne.
    + apply find_tile_None in Hfind. split; [done|]. intros k. cbn [fst snd inflight].
      destruct (Hk k) as [Hk1 Hk2]. destruct (decide (k = i)) as [->|Hne].
      * rewrite !lookup_insert_eq, lookup_delete_eq.
        by destruct (decide (i ∈ tile_id <$> tiles)).
      * by rewrite !lookup_insert_ne, lookup_delete_ne.
Qed.

Lemma abortUnwantedRequests_lookup (cache : Cache) (tiles : list Tile) :
  loaded (abortUnwantedRequests cache tiles).2 = loaded cache
  ∧ ∀ k,
      (abortUnwantedRequests cache tiles).1 !! k
      = (if decide (k ∈ tile_id <$> tiles) then None else inflight cache !! k)
      ∧ inflight (abortUnwantedRequests cache tiles).2 !! k
        = (if decide (k ∈ tile_id <$> tiles) then inflight cache !! k else None).
Proof.
  unfold abortUnwantedRequests.
  destruct (abortIfUnwanted_fold cache tiles (inflight cache)) as [Hl Hk].
  split; [done|]. intros k. destruct (Hk k) as [Hk1 Hk2]. split; [done|].
  rewrite Hk2. destruct (decide _); [done|]. by destruct (inflight cache !! k).
Qed.

Lemma requestTiles_lookup (tiles : list Tile) (cache : Cache) :
  loaded (foldl (requestTile rectangle utilQsString) cache tiles) = loaded cache
  ∧ ∀ k,
      inflight (foldl (requestTile rectangle utilQsString) cache tiles) !! k
      = match inflight cache !! k with
        | Some r => Some r
        | None =>
            if decide (k ∈ loaded cache) then None
            else (λ tile, jsonRequest (exportURL rectangle utilQsString tile))
                   <$> List.find (λ tile, bool_decide (k = tile_id tile)) tiles
        end.
Proof.
  revert cache. induction tiles as [|tile tiles IH]; intros cache.
  - split; [done|]. intros k. cbn [foldl List.find fmap option_fmap option_map].
    destruct (inflight cache !! k); [done|]. by destruct (decide _).
  - cbn [foldl]. destruct (IH (requestTile rectangle utilQsString cache tile)) as [Hl Hk].
    unfold requestTile in *.
    destruct (bool_decide_reflect (tile_id tile ∈ loaded cache)) as [Hloaded|Hloaded];
      cbn [orb] in *.
    { split; [done|]. intros k. rewrite Hk. destruct (inflight cache !! k); [done|].
      destruct (decide (k ∈ loaded cache)) as [|Hnot]; [done|]. cbn [List.find].
      destruct (bool_decide_reflect (k = tile_id tile)) as [->|]; done. }
    destruct (bool_decide_reflect (is_Some (inflight cache !! tile_id tile)))
      as [[r Hr]|Hnone].
    { split; [done|]. intros k. rewrite Hk.
      destruct (inflight cache !! k) eqn:Hc; [done|].
      destruct (decide (k ∈ loaded cache)); [done|]. cbn [List.find].
      destruct (bool_decide_reflect (k = tile_id tile)) as [->|]; [congruence|done]. }
    split; [done|]. intros k. rewrite Hk. cbn [inflight loaded].
    apply eq_None_not_Some in Hnone. cbn [List.find].
    destruct (bool_decide_reflect (k = tile_id tile)) as [->|Hne].
    + rewrite lookup_insert_eq, Hnone.
      by destruct (decide (tile_id tile ∈ loaded cache)).
    + by rewrite lookup_insert_ne.
Qed.

Lemma loadErrors_lookup (tiles : list Tile) (cache : Cache) :
  loaded (loadErrors rectangle utilQsString tiles cache).2 = loaded cache
  ∧ ∀ k,
      (loadErrors rectangle utilQsString tiles cache).1 !! k
      = (if decide (k ∈ tile_id <$> tiles) then None else inflight cache !! k)
      ∧ inflight (loadErrors rectangle utilQsString tiles cache).2 !! k
        = if decide (k ∈ tile_id <$> tiles) then
            match inflight cache !! k with
            | Some r => Some r
            | None =>
                if decide (k ∈ loaded cache) then None
                else (λ tile, jsonRequest (exportURL rectangle utilQsString tile))
                       <$> List.find (λ tile, bool_decide (k = tile_id tile)) tiles
            end
          else None.
Proof.
  unfold loadErrors. cbn [fst snd].
  destruct (abortUnwantedRequests_lookup cache tiles) as [Hl Hk].
  destruct (requestTiles_lookup tiles (abortUnwantedRequests cache tiles).2) as [Hl' Hk'].
  split; [congruence|]. intros k. destruct (Hk k) as [Hk1 Hk2]. split; [done|].
  rewrite Hk', Hk2, Hl. destruct (decide (k ∈ tile_id <$> tiles)) as [|Hout]; [done|].
  destruct (decide _); [done|].
  apply find_tile_None in Hout. by rewrite Hout.
Qed.

End RequestFacts.

(** X15.  What [loadErrors] does to the requests.  It leaves the set of
    loaded tiles alone; it aborts exactly the requests in flight whose key
    is not the id of a wanted tile; a request in flight for a wanted tile
    stays as it is; afterwards a key has a request in flight exactly when it
    is the id of a wanted tile that had one before or is not loaded; and a
    new request is the export request of a wanted tile with this id. *)
Theorem loadErrors_requests (rectangle : Extent → Q * Q * Q * Q)
    (utilQsString : list (string * KeepRight.QsValue) → string)
    (tiles : list KeepRight.Tile) (cache : KeepRight.Cache) :
  let aborted := (KeepRight.loadErrors rectangle utilQsString tiles cache).1 in
  let cache' := (KeepRight.loadErrors rectangle utilQsString tiles cache).2 in
  let wanted := KeepRight.tile_id <$> tiles in
  KeepRight.loaded cache' = KeepRight.loaded cache
  ∧ (∀ k r, aborted !! k = Some r
            ↔ KeepRight.inflight cache !! k = Some r ∧ k ∉ wanted)
  ∧ (∀ k r, KeepRight.inflight cache !! k = Some r → k ∈ wanted →
            KeepRight.inflight cache' !! k = Some r)
  ∧ (∀ k, is_Some (KeepRight.inflight cache' !! k)
          ↔ k ∈ wanted
            ∧ (is_Some (KeepRight.inflight cache !! k)
               ∨ k ∉ KeepRight.loaded cache))
  ∧ (∀ k r, KeepRight.inflight cache !! k = None →
            KeepRight.inflight cache' !! k = Some r →
            ∃ tile, tile ∈ tiles ∧ KeepRight.tile_id tile = k
              ∧ r = KeepRight.jsonRequest
                      (KeepRight.exportURL rectangle utilQsString tile)).
Proof.
  intros aborted cache' wanted.
  destruct (loadErrors_lookup rectangle utilQsString tiles cache) as [Hl Hk].
  fold cache' in Hl, Hk. fold aborted in Hk. fold wanted in Hk.
  split; [done|]. split; [|split; [|split]].
  - intros k r. destruct (Hk k) as [Hk1 _]. rewrite Hk1.
    destruct (decide _); [|by split; [|intros [? _]]].
    split; [done|]. by intros [_ ?].
  - intros k r Hr Hin. destruct (Hk k) as [_ Hk2]. rewrite Hk2, Hr. by destruct (decide _).
  - intros k. destruct (Hk k) as [_ Hk2]. rewrite Hk2. split.
    + intros H. destruct (decide _); [|by destruct H]. split; [done|].
      destruct (KeepRight.inflight cache !! k); [by left|].
      destruct (decide _); [by destruct H|by right].
    + intros [Hin Hor]. rewrite decide_True by done.
      destruct (KeepRight.inflight cache !! k) as [r|] eqn:Hr; [done|].
      destruct Hor as [[? ?]|Hnot]; [done|]. rewrite decide_False by done.
      apply fmap_is_Some. by apply find_tile_is_Some.
  - intros k r Hnone. destruct (Hk k) as [_ Hk2]. rewrite Hk2, Hnone.
    destruct (decide _); [|done]. destruct (decide _); [done|].
    destruct (List.find _ tiles) as [tile|] eqn:Hfind; [|done].
    intros [= <-]. apply find_some in Hfind as [Hin Heq].
    apply bool_decide_eq_true_1 in Heq. exists tile.
    split; [by apply list_elem_of_In|done].
Qed.

(** X16.  [loadErrors] is idempotent: a second call with the same tiles
    aborts nothing and sends nothing. *)
Theorem loadErrors_idempotent (rectangle : Extent → Q * Q * Q * Q)
    (utilQsString : list (string * KeepRight.QsValue) → string)
    (tiles : list KeepRight.Tile) (cache : KeepRight.Cache) :
  let cache' := (KeepRight.loadErrors rectangle utilQsString tiles cache).2 in
  KeepRight.loadErrors rectangle utilQsString tiles cache' = (∅, cache').
Proof.
  intros cache'.
  destruct (loadErrors_lookup rectangle utilQsString tiles cache) as [Hl Hk].
  destruct (loadErrors_lookup rectangle utilQsString tiles cache') as [Hl' Hk'].
  fold cache' in Hl, Hk.
  destruct (KeepRight.loadErrors rectangle utilQsString tiles cache')
    as [aborted [loaded'' inflight'']].
  cbn [fst snd KeepRight.loaded KeepRight.inflight] in *.
  assert (aborted = ∅) as ->.
  { apply map_eq. intros k. destruct (Hk' k) as [-> _], (Hk k) as [_ Hk2].
    rewrite lookup_empty, Hk2. by destruct (decide _). }
  assert (inflight'' = KeepRight.inflight cache') as ->.
  { apply map_eq. intros k. destruct (Hk' k) as [_ Hk2'], (Hk k) as [_ Hk2].
    rewrite Hk2'. revert Hk2.
    destruct (decide (k ∈ KeepRight.tile_id <$> tiles)) as [Hin|];
      [|by intros ->].
    destruct (KeepRight.inflight cache' !! k) eqn:Hc; [done|]. rewrite Hl.
    destruct (KeepRight.inflight cache !! k); [done|].
    by destruct (decide (k ∈ KeepRight.loaded cache)). }
  subst loaded''. by destruct cache'.
Qed.

(** X17.  An update that [postKeepRightUpdate] has sent is in flight under
    the id of its error: a second update of this error is refused with the
    status -2, and the next [loadErrors] aborts the update and forgets it,
    unless the id of the error is the id of a wanted tile. *)
Theorem pending_update_is_aborted (rectangle : Extent → Q * Q * Q * Q)
    (utilQsString : list (string * KeepRight.QsValue) → string)
    (d : KeepRight.KrError) (cache cache1 : KeepRight.Cache)
    (tiles : list KeepRight.Tile) :
  KeepRight.postKeepRightUpdate utilQsString d cache = inr cache1 →
  KeepRight.krError_id d ∉ KeepRight.tile_id <$> tiles →
  ∃ url,
    KeepRight.inflight cache1 !! KeepRight.krError_id d
      = Some (KeepRight.postRequest url)
    ∧ KeepRight.postKeepRightUpdate utilQsString d cache1
      = inl ("Error update already inflight", -2)
    ∧ (KeepRight.loadErrors rectangle utilQsString tiles cache1).1
        !! KeepRight.krError_id d
      = Some (KeepRight.postRequest url)
    ∧ KeepRight.inflight
        (KeepRight.loadErrors rectangle utilQsString tiles cache1).2
        !! KeepRight.krError_id d
      = None.
Proof.
  intros Hpost Hout. unfold KeepRight.postKeepRightUpdate in Hpost.
  destruct (bool_decide _); [done|]. cbn zeta in Hpost.
  injection Hpost as <-. eexists.
  assert (∀ l i, KeepRight.inflight
                   (KeepRight.mkCache l
                      (<[KeepRight.krError_id d := i]>
                         (KeepRight.inflight cache)))
                 !! KeepRight.krError_id d = Some i) as Hlook.
  { intros l i. cbn [KeepRight.inflight]. apply lookup_insert_eq. }
  split; [apply Hlook|]. split.
  - unfold KeepRight.postKeepRightUpdate.
    rewrite bool_decide_eq_true_2; [done|]. rewrite Hlook. by eexists.
  - match goal with
    | |- context [KeepRight.loadErrors _ _ _ ?c] =>
        destruct (loadErrors_lookup rectangle utilQsString tiles c) as [_ Hk]
    end.
    destruct (Hk (KeepRight.krError_id d)) as [-> ->].
    destruct (decide (KeepRight.krError_id d ∈ KeepRight.tile_id <$> tiles));
      [done|].
    split; [apply Hlook|done].
Qed.

Lemma pending_update_is_aborted_witness :
  ∃ url,
    KeepRight.inflight
        (KeepRight.mkCache ∅
           {["42" := KeepRight.postRequest
                       "https://www.keepright.at/comment.php?q"]})
      !! "42"
      = Some (KeepRight.postRequest url)
    ∧ KeepRight.postKeepRightUpdate (λ _, "q")
        (KeepRight.mkKrError "42" "42" "7" (Some "ignore") None)
        (KeepRight.mkCache ∅
           {["42" := KeepRight.postRequest
                       "https://www.keepright.at/comment.php?q"]})
      = inl ("Error update already inflight", -2)
    ∧ (KeepRight.loadErrors (λ e, (e.1.1, e.1.2, e.2.1, e.2.2)) (λ _, "q")
         [KeepRight.mkTile "1,2,14" ((0%Q, 0%Q), (1%Q, 1%Q))]
         (KeepRight.mkCache ∅
            {["42" := KeepRight.postRequest
                        "https://www.keepright.at/comment.php?q"]})).1
        !! "42"
      = Some (KeepRight.postRequest url)
    ∧ KeepRight.inflight
        (KeepRight.loadErrors (λ e, (e.1.1, e.1.2, e.2.1, e.2.2)) (λ _, "q")
           [KeepRight.mkTile "1,2,14" ((0%Q, 0%Q), (1%Q, 1%Q))]
           (KeepRight.mkCache ∅
              {["42" := KeepRight.postRequest
                          "https://www.keepright.at/comment.php?q"]})).2
        !! "42"
      = None.
Proof.
  apply (pending_update_is_aborted (λ e, (e.1.1, e.1.2, e.2.1, e.2.2)) (λ _, "q")
           (KeepRight.mkKrError "42" "42" "7" (Some "ignore") None)
           (KeepRight.mkCache ∅ ∅)).
  - vm_compute. reflexivity.
  - cbn. intros [Heq|Hin%elem_of_nil]%elem_of_cons; [discriminate Heq|done].
Defined.

(** * C9: the connect fix and validating again *)

(** ** Passages of a way along an edge *)

Lemma edgeEqual_ends (e edge : string * string) :
  edgeEqual e edge = true →
  (e.1 = edge.1 ∧ e.2 = edge.2) ∨ (e.1 = edge.2 ∧ e.2 = edge.1).
Proof.
  unfold edgeEqual. intros [H|H]%orb_true_iff; apply andb_true_iff in H as [H1 H2];
    apply bool_decide_eq_true in H1, H2; [by left|by right].
Qed.

Lemma edgeEqual_without (x : string) (a b : string) (edge : string * string) :
  x ≠ edge.1 → x ≠ edge.2 →
  edgeEqual (a, x) edge = false ∧ edgeEqual (x, b) edge = false.
Proof.
  intros H1 H2. split; apply not_true_is_false; intros [[? ?]|[? ?]]%edgeEqual_ends;
    cbn [fst snd] in *; congruence.
Qed.

Lemma insertMidpoint_cons (edge : string * string) (x n1 n2 : string)
    (rest : list string) :
  insertMidpoint edge x (n1 :: n2 :: rest)
  = if edgeEqual (n1, n2) edge then n1 :: x :: n2 :: rest
    else n1 :: insertMidpoint edge x (n2 :: rest).
Proof. reflexivity. Qed.

Lemma insertMidpoint_head (edge : string * string) (x n : string) (l : list string) :
  ∃ l', insertMidpoint edge x (n :: l) = n :: l'.
Proof.
  destruct l as [|n2 rest]; [by eexists|]. rewrite insertMidpoint_cons.
  destruct (edgeEqual (n, n2) edge); by eexists.
Qed.

Lemma countEdge_cons (edge : string * string) (n1 n2 : string) (rest : list string) :
  countEdge edge (n1 :: n2 :: rest)
  = ((if edgeEqual (n1, n2) edge then 1 else 0) + countEdge edge (n2 :: rest))%nat.
Proof. reflexivity. Qed.

(** Splitting an edge adds no passage along an edge that the new node is no
    end of. *)
Lemma countEdge_insertMidpoint_le (edge edge' : string * string) (x : string)
    (l : list string) :
  x ≠ edge.1 → x ≠ edge.2 →
  (countEdge edge (insertMidpoint edge' x l) ≤ countEdge edge l)%nat.
Proof.
  intros H1 H2. induction l as [|n1 l IH]; [done|].
  destruct l as [|n2 rest]; [done|].
  rewrite insertMidpoint_cons. destruct (edgeEqual (n1, n2) edge').
  - rewrite !countEdge_cons.
    destruct (edgeEqual_without x n1 n2 edge H1 H2) as [-> ->]. lia.
  - destruct (insertMidpoint_head edge' x n2 rest) as [l' Hl']. rewrite Hl' in *.
    rewrite !countEdge_cons. lia.
Qed.

(** Splitting an edge that a way passes at most once leaves no passage
    along it. *)
Lemma countEdge_insertMidpoint_same (edge : string * string) (x : string)
    (l : list string) :
  x ≠ edge.1 → x ≠ edge.2 → (countEdge edge l ≤ 1)%nat →
  countEdge edge (insertMidpoint edge x l) = 0%nat.
Proof.
  intros H1 H2. induction l as [|n1 l IH]; [done|].
  destruct l as [|n2 rest]; [done|].
  rewrite countEdge_cons, insertMidpoint_cons.
  destruct (edgeEqual (n1, n2) edge) eqn:He; intros Hle.
  - rewrite !countEdge_cons.
    destruct (edgeEqual_without x n1 n2 edge H1 H2) as [-> ->]. lia.
  - destruct (insertMidpoint_head edge x n2 rest) as [l' Hl']. rewrite Hl' in *.
    rewrite countEdge_cons, He. rewrite IH by lia. done.
Qed.

Lemma countEdge_zero (edge : string * string) (l : list string) (i : nat) (u v : string) :
  countEdge edge l = 0%nat → l !! i = Some u → l !! S i = Some v →
  edgeEqual (u, v) edge = false.
Proof.
  revert i. induction l as [|n1 l IH]; intros i; [done|].
  destruct l as [|n2 rest]; [by destruct i|].
  rewrite countEdge_cons. intros Hc. destruct i as [|i].
  - intros [= <-] [= <-]. destruct (edgeEqual (n1, n2) edge); [lia|done].
  - intros Hu Hv. apply (IH i); [lia|done|done].
Qed.

Lemma renameNode_image (nodeIDs : list string) (survivor n : string) :
  renameNode nodeIDs survivor n = survivor
  ∨ (renameNode nodeIDs survivor n = n ∧ n ∉ nodeIDs).
Proof. unfold renameNode. case_bool_decide; [by left|by right]. Qed.

(** ** The ways of the graph after the primitives *)

Lemma withNodes_same (e : Entity) : withNodes e (nodes e) = e.
Proof. by destruct e. Qed.

Lemma renameNode_single (x n : string) : renameNode [x] x n = n.
Proof.
  unfold renameNode. case_bool_decide as H; [|done].
  apply list_elem_of_singleton in H. by subst.
Qed.

Lemma replace_way (graph : Graph) (node0 : Entity) (k : string) (w : Entity) :
  graph !! id node0 = None → type node0 = node →
  (replace graph node0 !! k = Some w ∧ type w = way)
  ↔ (graph !! k = Some w ∧ type w = way).
Proof.
  intros Hfresh Hty. unfold replace. destruct (decide (id node0 = k)) as [<-|Hne].
  - rewrite lookup_insert_eq, Hfresh. split; [|by intros [? _]].
    intros [[= <-] Hw]. congruence.
  - by rewrite lookup_insert_ne.
Qed.

Lemma actionAddMidpoint_way (l : Loc) (edge : string * string) (node0 : Entity)
    (graph : Graph) (k : string) (w' : Entity) :
  type node0 = node →
  (actionAddMidpoint (l, edge) node0 graph !! k = Some w' ∧ type w' = way)
  ↔ ∃ w, graph !! k = Some w ∧ type w = way ∧ k ≠ id node0
      ∧ w' = withNodes w (insertMidpoint edge (id node0) (nodes w)).
Proof.
  intros Hty. rewrite actionAddMidpoint_lookup. cbn [fst snd].
  destruct (decide (id node0 = k)) as [<-|Hne].
  - cbn [fmap option_fmap option_map]. split.
    + intros [[= <-] Hw]. revert Hw. cbn [withLoc type]. rewrite Hty.
      rewrite bool_decide_eq_false_2 by done. cbn [withLoc type]. by rewrite Hty.
    + by intros (w & _ & _ & ? & _).
  - destruct (graph !! k) as [e|]; cbn [fmap option_fmap option_map].
    + split.
      * intros [[= <-] Hw]. destruct (bool_decide_reflect (type e = way)) as [He|He].
        -- exists e. by repeat split.
        -- done.
      * intros (w & [= ->] & Hw & _ & ->). by rewrite bool_decide_eq_true_2.
    + split; [by intros [? _]|by intros (w & ? & _)].
Qed.

Lemma actionMergeNodes_lookup_merged (nodeIDs : list string) (survivor : string)
    (toLoc : Loc) (graph : Graph) (k : string) :
  last nodeIDs = Some survivor → k ∈ nodeIDs → k ≠ survivor →
  actionMergeNodes nodeIDs toLoc graph !! k = None.
Proof.
  intros Hlast Hin Hne. unfold actionMergeNodes. rewrite Hlast. cbn zeta.
  assert (foldr (λ i (acc : Graph), if bool_decide (i = survivor) then acc else delete i acc)
            (renameNodes nodeIDs survivor <$> graph) nodeIDs !! k = None) as Hrem.
  { rewrite (removed_lookup survivor). by rewrite bool_decide_eq_true_2. }
  destruct (foldr _ _ _ !! survivor); [by rewrite lookup_insert_ne|done].
Qed.

Lemma actionMergeNodes_lookup_survivor_eq (nodeIDs : list string) (survivor : string)
    (toLoc : Loc) (graph : Graph) :
  last nodeIDs = Some survivor →
  actionMergeNodes nodeIDs toLoc graph !! survivor
  = (λ s, mkEntity (id s) (type s)
            (foldr (λ i (acc : Tags), acc ∪ from_option tags ∅ (graph !! i)) ∅ nodeIDs)
            toLoc (nodes s) (members s))
    <$> (renameNodes nodeIDs survivor <$> (graph !! survivor)).
Proof.
  intros Hlast. unfold actionMergeNodes. rewrite Hlast. cbn zeta.
  assert (foldr (λ i (acc : Graph), if bool_decide (i = survivor) then acc else delete i acc)
            (renameNodes nodeIDs survivor <$> graph) nodeIDs !! survivor
          = renameNodes nodeIDs survivor <$> (graph !! survivor)) as Hrem.
  { rewrite (removed_lookup survivor), lookup_fmap.
    rewrite bool_decide_eq_false_2; [done|]. by intros [_ ?]. }
  destruct (foldr _ _ _ !! survivor) as [s|] eqn:Hs.
  - rewrite lookup_insert_eq. by rewrite <- Hrem.
  - rewrite Hs. by rewrite <- Hrem.
Qed.

Lemma actionMergeNodes_way (nodeIDs : list string) (survivor : string) (toLoc : Loc)
    (graph : Graph) (k : string) (w' : Entity) :
  last nodeIDs = Some survivor →
  (∀ i e, i ∈ nodeIDs → graph !! i = Some e → type e ≠ way) →
  (actionMergeNodes nodeIDs toLoc graph !! k = Some w' ∧ type w' = way)
  ↔ ∃ w, graph !! k = Some w ∧ type w = way ∧ (k ∉ nodeIDs)
      ∧ w' = renameNodes nodeIDs survivor w.
Proof.
  intros Hlast Hnodes. destruct (decide (k ∈ nodeIDs)) as [Hin|Hout].
  - split; [|by intros (w & _ & _ & ? & _)].
    destruct (decide (k = survivor)) as [->|Hne].
    + rewrite actionMergeNodes_lookup_survivor_eq by done.
      destruct (graph !! survivor) as [e|] eqn:He; cbn [fmap option_fmap option_map];
        [|by intros [? _]].
      intros [[= <-] Hw]. cbn [type renameNodes] in Hw. by destruct (Hnodes _ _ Hin He).
    + rewrite (actionMergeNodes_lookup_merged _ survivor) by done. by intros [? _].
  - rewrite (actionMergeNodes_lookup_other _ survivor) by done.
    destruct (graph !! k) as [e|]; cbn [fmap option_fmap option_map].
    + split.
      * intros [[= <-] Hw]. exists e. by repeat split.
      * intros (w & [= ->] & Hw & _ & ->). done.
    + split; [by intros [? _]|by intros (w & ? & _)].
Qed.

(** ** The primitives keep every entity under its id *)

Lemma replace_wellKeyed (graph : Graph) (e : Entity) :
  wellKeyed graph → wellKeyed (replace graph e).
Proof.
  intros Hk k e'. unfold replace. destruct (decide (id e = k)) as [<-|Hne].
  - rewrite lookup_insert_eq. by intros [= <-].
  - rewrite lookup_insert_ne by done. apply Hk.
Qed.

Lemma actionAddMidpoint_wellKeyed (l : Loc) (edge : string * string) (node0 : Entity)
    (graph : Graph) :
  wellKeyed graph → wellKeyed (actionAddMidpoint (l, edge) node0 graph).
Proof.
  intros Hk k e'. rewrite actionAddMidpoint_lookup. cbn [fst snd].
  destruct (decide (id node0 = k)) as [<-|Hne]; cbn [fmap option_fmap option_map].
  - intros [= <-]. by destruct (bool_decide _).
  - destruct (graph !! k) as [e|] eqn:He; cbn [fmap option_fmap option_map]; [|done].
    intros [= <-]. apply Hk in He. by destruct (bool_decide _).
Qed.

Lemma actionMergeNodes_wellKeyed (nodeIDs : list string) (survivor : string)
    (toLoc : Loc) (graph : Graph) :
  last nodeIDs = Some survivor →
  wellKeyed graph → wellKeyed (actionMergeNodes nodeIDs toLoc graph).
Proof.
  intros Hlast Hk k e'. destruct (decide (k ∈ nodeIDs)) as [Hin|Hout].
  - destruct (decide (k = survivor)) as [->|Hne].
    + rewrite actionMergeNodes_lookup_survivor_eq by done.
      destruct (graph !! survivor) as [e|] eqn:He; cbn [fmap option_fmap option_map];
        [|done].
      intros [= <-]. by apply Hk in He.
    + by rewrite (actionMergeNodes_lookup_merged _ survivor).
  - rewrite (actionMergeNodes_lookup_other _ survivor) by done.
    destruct (graph !! k) as [e|] eqn:He; cbn [fmap option_fmap option_map]; [|done].
    intros [= <-]. by apply Hk in He.
Qed.

(** ** The connect action in closed form *)

Lemma last_mergedNodes (newId : string) (near1 near2 : bool) (c1 c2 : string) :
  last (mergedNodes newId near1 near2 c1 c2)
  = Some (junctionOf newId near1 near2 c1 c2).
Proof. by destruct near1, near2. Qed.

Lemma elem_of_mergedNodes (newId : string) (near1 near2 : bool) (c1 c2 i : string) :
  i ∈ mergedNodes newId near1 near2 c1 c2
  ↔ i = newId ∨ (near1 = true ∧ i = c1) ∨ (near2 = true ∧ i = c2).
Proof.
  unfold mergedNodes. rewrite elem_of_cons, elem_of_app.
  destruct near1, near2; rewrite ?list_elem_of_singleton, ?elem_of_nil; naive_solver.
Qed.

Lemma isNodeKey_replace (graph : Graph) (node0 : Entity) (i : string) :
  type node0 = node → i = id node0 ∨ isNodeKey graph i →
  isNodeKey (replace graph node0) i.
Proof.
  intros Hty Hi. unfold isNodeKey, replace.
  destruct (decide (id node0 = i)) as [<-|Hne].
  - rewrite lookup_insert_eq. by eexists.
  - rewrite lookup_insert_ne by done. by destruct Hi as [->|Hi].
Qed.

Lemma isNodeKey_actionAddMidpoint (l : Loc) (edge : string * string) (node0 : Entity)
    (graph : Graph) (i : string) :
  type node0 = node → isNodeKey graph i →
  isNodeKey (actionAddMidpoint (l, edge) node0 graph) i.
Proof.
  intros Hty (n & Hn & Htn). unfold isNodeKey. rewrite actionAddMidpoint_lookup.
  cbn [fst snd]. destruct (decide (id node0 = i)) as [<-|Hne].
  - cbn [fmap option_fmap option_map withLoc type]. rewrite Hty.
    rewrite bool_decide_eq_false_2 by done. eexists. split; [done|]. done.
  - rewrite Hn. cbn [fmap option_fmap option_map]. rewrite Htn.
    rewrite bool_decide_eq_false_2 by done. by eexists.
Qed.

Lemma isNodeKey_no_way (graph : Graph) (i : string) (e : Entity) :
  isNodeKey graph i → graph !! i = Some e → type e ≠ way.
Proof. intros (n & Hn & Hty) He. simplify_eq. by rewrite Hty. Qed.

Lemma renameNode_merged (nodeIDs : list string) (survivor n : string) :
  n ∈ nodeIDs → renameNode nodeIDs survivor n = survivor.
Proof. intros Hin. unfold renameNode. by rewrite bool_decide_eq_true_2. Qed.

Section Connected.

Variables (newId : string) (toLoc : Loc) (connectionTags : Tags).
Variables (crossed : (string * string) * (string * string)).
Variables (near1 near2 : bool) (c1 c2 : string) (graph : Graph).

Hypothesis fresh : graph !! newId = None.
Hypothesis node1 : near1 = true → isNodeKey graph c1.
Hypothesis node2 : near2 = true → isNodeKey graph c2.

Lemma merged_are_nodes (i : string) (g : Graph) :
  (∀ i, i = newId ∨ isNodeKey graph i → isNodeKey g i) →
  i ∈ mergedNodes newId near1 near2 c1 c2 → isNodeKey g i.
Proof.
  intros Hg [->|[[Hn ->]|[Hn ->]]]%elem_of_mergedNodes; apply Hg; auto.
Qed.

Lemma connectedGraph_nodes (i : string) :
  i = newId ∨ isNodeKey graph i →
  let node0 := osmNode newId toLoc connectionTags in
  let graph1 := replace graph node0 in
  let graph2 := if near1 then graph1 else actionAddMidpoint (toLoc, crossed.1) node0 graph1 in
  let graph3 := if near2 then graph2 else actionAddMidpoint (toLoc, crossed.2) node0 graph2 in
  isNodeKey graph3 i.
Proof.
  intros Hi node0 graph1 graph2 graph3.
  assert (isNodeKey graph1 i) as H1 by (by apply isNodeKey_replace).
  assert (isNodeKey graph2 i) as H2.
  { subst graph2. destruct near1; [done|]. by apply isNodeKey_actionAddMidpoint. }
  subst graph3. destruct near2; [done|]. by apply isNodeKey_actionAddMidpoint.
Qed.

(** The ways of the connected graph are the ways of the graph, with the
    crossed split and the merged nodes renamed. *)
Lemma connectedGraph_way (k : string) (w' : Entity) :
  (connectedGraph newId toLoc connectionTags crossed near1 near2 c1 c2 graph !! k = Some w'
   ∧ type w' = way)
  ↔ ∃ w, graph !! k = Some w ∧ type w = way
      ∧ w' = renameNodes (mergedNodes newId near1 near2 c1 c2)
               (junctionOf newId near1 near2 c1 c2)
               (withNodes w (splitUnless near2 crossed.2 newId
                               (splitUnless near1 crossed.1 newId (nodes w)))).
Proof.
  unfold connectedGraph. cbn zeta.
  set (node0 := osmNode newId toLoc connectionTags).
  set (graph1 := replace graph node0).
  set (graph2 := if near1 then graph1 else actionAddMidpoint (toLoc, crossed.1) node0 graph1).
  set (graph3 := if near2 then graph2 else actionAddMidpoint (toLoc, crossed.2) node0 graph2).
  assert (type node0 = node) as Hty0 by done.
  assert (id node0 = newId) as Hid0 by done.
  assert (∀ w, (graph1 !! k = Some w ∧ type w = way)
               ↔ (graph !! k = Some w ∧ type w = way)) as H1.
  { intros w. by apply replace_way. }
  assert (∀ w2, (graph2 !! k = Some w2 ∧ type w2 = way)
                ↔ ∃ w, graph !! k = Some w ∧ type w = way
                    ∧ w2 = withNodes w (splitUnless near1 crossed.1 newId (nodes w))) as H2.
  { intros w2. subst graph2. unfold splitUnless. destruct near1.
    - rewrite H1. split.
      + intros [Hw Ht]. exists w2. by rewrite withNodes_same.
      + intros (w & Hw & Ht & ->). by rewrite withNodes_same.
    - rewrite actionAddMidpoint_way by done. rewrite Hid0. split.
      + intros (w & Hw & Ht & _ & ->). exists w. split; [|done]. by apply H1.
      + intros (w & Hw & Ht & ->). exists w. split; [by apply H1|].
        split; [done|]. split; [|done]. intros ->. congruence. }
  assert (∀ w3, (graph3 !! k = Some w3 ∧ type w3 = way)
                ↔ ∃ w, graph !! k = Some w ∧ type w = way
                    ∧ w3 = withNodes w (splitUnless near2 crossed.2 newId
                                          (splitUnless near1 crossed.1 newId (nodes w))))
    as H3.
  { intros w3. subst graph3. unfold splitUnless at 1. destruct near2.
    - rewrite H2. split.
      + intros (w & Hw & Ht & ->). exists w. by destruct w.
      + intros (w & Hw & Ht & ->). exists w. by destruct w.
    - rewrite actionAddMidpoint_way by done. rewrite Hid0. split.
      + intros (w2 & Hw2 & Ht2 & _ & ->).
        destruct (proj1 (H2 w2) (conj Hw2 Ht2)) as (w & Hw & Ht & ->).
        exists w. by destruct w.
      + intros (w & Hw & Ht & ->).
        exists (withNodes w (splitUnless near1 crossed.1 newId (nodes w))).
        destruct (proj2 (H2 (withNodes w (splitUnless near1 crossed.1 newId (nodes w)))))
          as [Hw2 Ht2]; [by exists w|].
        split; [done|]. split; [done|].
        split; [intros ->; congruence|]. by destruct w. }
  destruct (near1 || near2) eqn:Hnear.
  - rewrite (actionMergeNodes_way _ (junctionOf newId near1 near2 c1 c2)).
    + split.
      * intros (w3 & Hw3 & Ht3 & _ & ->).
        destruct (proj1 (H3 w3) (conj Hw3 Ht3)) as (w & Hw & Ht & ->). by exists w.
      * intros (w & Hw & Ht & ->).
        exists (withNodes w (splitUnless near2 crossed.2 newId
                               (splitUnless near1 crossed.1 newId (nodes w)))).
        destruct (proj2 (H3 (withNodes w (splitUnless near2 crossed.2 newId
                               (splitUnless near1 crossed.1 newId (nodes w))))))
          as [Hw3 Ht3]; [by exists w|].
        split; [done|]. split; [done|]. split; [|done].
        intros Hin. eapply (isNodeKey_no_way graph k w); [|done|done].
        apply elem_of_mergedNodes in Hin as [->|[[Hn ->]|[Hn ->]]];
          [congruence|by apply node1|by apply node2].
    + apply last_mergedNodes.
    + intros i e Hi. apply isNodeKey_no_way. apply merged_are_nodes; [|done].
      intros i' Hi'. by apply connectedGraph_nodes.
  - apply orb_false_iff in Hnear as [-> ->]. rewrite H3. 
    split; intros (w & Hw & Ht & ->); exists w; (split; [done|]); (split; [done|]).
    + destruct w. unfold withNodes, renameNodes, splitUnless, mergedNodes, junctionOf. cbn.
      f_equal.
      * symmetry. etrans; [|apply list_fmap_id]. apply list_fmap_ext.
        intros ? ? _. apply renameNode_single.
      * symmetry. etrans; [|apply list_fmap_id]. apply list_fmap_ext.
        intros ? [m r] _. cbn. by rewrite renameNode_single.
    + destruct w. unfold withNodes, renameNodes, splitUnless, mergedNodes, junctionOf. cbn.
      f_equal.
      * etrans; [|apply list_fmap_id]. apply list_fmap_ext.
        intros ? ? _. apply renameNode_single.
      * etrans; [|apply list_fmap_id]. apply list_fmap_ext.
        intros ? [m r] _. cbn. by rewrite renameNode_single.
Qed.

Lemma connectedGraph_wellKeyed :
  wellKeyed graph →
  wellKeyed (connectedGraph newId toLoc connectionTags crossed near1 near2 c1 c2 graph).
Proof.
  intros Hk. unfold connectedGraph. cbn zeta.
  set (node0 := osmNode newId toLoc connectionTags).
  assert (wellKeyed (replace graph node0)) as H1 by (by apply replace_wellKeyed).
  assert (wellKeyed (if near1 then replace graph node0
                     else actionAddMidpoint (toLoc, crossed.1) node0 (replace graph node0)))
    as H2 by (destruct near1; [done|by apply actionAddMidpoint_wellKeyed]).
  set (graph2 := if near1 then _ else _) in *.
  assert (wellKeyed (if near2 then graph2
                     else actionAddMidpoint (toLoc, crossed.2) node0 graph2))
    as H3 by (destruct near2; [done|by apply actionAddMidpoint_wellKeyed]).
  destruct (near1 || near2); [|done].
  eapply actionMergeNodes_wellKeyed; [apply last_mergedNodes|done].
Qed.

(** The junction is a node of the connected graph at the location. *)
Lemma connectedGraph_junction :
  ∃ junction,
    connectedGraph newId toLoc connectionTags crossed near1 near2 c1 c2 graph
      !! junctionOf newId near1 near2 c1 c2 = Some junction
    ∧ loc junction = toLoc.
Proof.
  unfold connectedGraph. cbn zeta.
  set (node0 := osmNode newId toLoc connectionTags).
  set (graph1 := replace graph node0).
  set (graph2 := if near1 then graph1 else actionAddMidpoint (toLoc, crossed.1) node0 graph1).
  set (graph3 := if near2 then graph2 else actionAddMidpoint (toLoc, crossed.2) node0 graph2).
  destruct (near1 || near2) eqn:Hnear.
  - rewrite (actionMergeNodes_lookup_survivor_eq _ _ _ _
               (last_mergedNodes newId near1 near2 c1 c2)).
    assert (isNodeKey graph3 (junctionOf newId near1 near2 c1 c2)) as (n & -> & _).
    { apply connectedGraph_nodes. unfold junctionOf.
      destruct near2; [right; by apply node2|].
      destruct near1; [right; by apply node1|done]. }
    cbn [fmap option_fmap option_map]. by eexists.
  - apply orb_false_iff in Hnear as [-> ->]. subst graph3 graph2.
    cbn [junctionOf]. exists (withLoc node0 toLoc). split; [|done].
    by apply new_after_actionAddMidpoint.
Qed.

(** A way along one of the two edges runs through the junction afterwards. *)
Lemma connectedGraph_way_junction (w : Entity) (edge : string * string) :
  isWayAlong graph w edge →
  (edge = crossed.1 ∧ (near1 = true → c1 ∈ nodes w)
   ∨ edge = crossed.2 ∧ (near2 = true → c2 ∈ nodes w)) →
  ∃ w', connectedGraph newId toLoc connectionTags crossed near1 near2 c1 c2 graph !! id w
        = Some w'
    ∧ type w' = way ∧ junctionOf newId near1 near2 c1 c2 ∈ nodes w'.
Proof.
  intros (Hw & Htw & kk & Hk & HSk) Hcase.
  set (merged := mergedNodes newId near1 near2 c1 c2).
  set (j := junctionOf newId near1 near2 c1 c2).
  destruct (proj2 (connectedGraph_way (id w)
                     (renameNodes merged j
                        (withNodes w (splitUnless near2 crossed.2 newId
                                        (splitUnless near1 crossed.1 newId (nodes w)))))))
    as [Hw' Htw']; [by exists w|].
  eexists. split; [exact Hw'|]. split; [exact Htw'|].
  cbn [renameNodes withNodes nodes].
  assert (∃ c, c ∈ merged
               ∧ c ∈ splitUnless near2 crossed.2 newId
                       (splitUnless near1 crossed.1 newId (nodes w)))
    as (c & Hcm & Hcl).
  { assert (∀ near e l c, c ∈ l → c ∈ splitUnless near e newId l) as Hkeep.
    { intros near e l c Hc. unfold splitUnless. destruct near; [done|].
      by apply elem_of_insertMidpoint. }
    destruct Hcase as [[-> Hc]|[-> Hc]].
    - destruct near1 eqn:Hn.
      + exists c1. split; [apply elem_of_mergedNodes; right; by left|].
        apply Hkeep. unfold splitUnless. by apply Hc.
      + exists newId. split; [apply elem_of_mergedNodes; by left|].
        apply Hkeep. unfold splitUnless. by eapply insertMidpoint_new.
    - destruct near2 eqn:Hn.
      + exists c2. split; [apply elem_of_mergedNodes; right; by right|].
        unfold splitUnless at 1. apply Hkeep. by apply Hc.
      + exists newId. split; [apply elem_of_mergedNodes; by left|].
        unfold splitUnless at 1.
        destruct (insertMidpoint_same_or_new crossed.1 newId (nodes w)) as [Hs|Hs].
        * unfold splitUnless. destruct near1; [by eapply insertMidpoint_new|].
          rewrite Hs. by eapply insertMidpoint_new.
        * unfold splitUnless. destruct near1; [by eapply insertMidpoint_new|].
          by apply elem_of_insertMidpoint. }
  apply list_elem_of_fmap. exists c. split; [|done].
  symmetry. by apply renameNode_merged.
Qed.

End Connected.

Section ConnectedEdges.

Variables (newId : string) (toLoc : Loc) (connectionTags : Tags).
Variables (crossed : (string * string) * (string * string)).
Variables (near1 near2 : bool) (c1 c2 : string) (graph : Graph).

Hypothesis fresh : graph !! newId = None.
Hypothesis node1 : near1 = true → isNodeKey graph c1.
Hypothesis node2 : near2 = true → isNodeKey graph c2.
Hypothesis end1 : near1 = true → edgeHasNode c1 crossed.1.
Hypothesis end2 : near2 = true → edgeHasNode c2 crossed.2.
Hypothesis new1 : newId ≠ crossed.1.1 ∧ newId ≠ crossed.1.2.
Hypothesis new2 : newId ≠ crossed.2.1 ∧ newId ≠ crossed.2.2.
Hypothesis once1 : passedAtMostOnce graph crossed.1.
Hypothesis once2 : passedAtMostOnce graph crossed.2.

(** In the connected graph a way passes along one of the two crossed only
    where the edge ends in the junction. *)
Lemma connectedGraph_edges (k : string) (w' : Entity) (i : nat) (u v : string) :
  connectedGraph newId toLoc connectionTags crossed near1 near2 c1 c2 graph !! k = Some w' →
  type w' = way →
  nodes w' !! i = Some u → nodes w' !! S i = Some v →
  edgeEqual (u, v) crossed.1 = true ∨ edgeEqual (u, v) crossed.2 = true →
  edgeHasNode (junctionOf newId near1 near2 c1 c2) (u, v).
Proof.
  intros Hw' Hty Hu Hv Hedge.
  destruct (proj1 (connectedGraph_way newId toLoc connectionTags crossed near1 near2 c1 c2
                     graph fresh node1 node2 k w') (conj Hw' Hty))
    as (w & Hw & Htw & ->).
  cbn [renameNodes withNodes nodes] in Hu, Hv.
  set (l1 := splitUnless near1 crossed.1 newId (nodes w)) in *.
  set (l0 := splitUnless near2 crossed.2 newId l1) in *.
  rewrite list_lookup_fmap in Hu, Hv.
  apply fmap_Some in Hu as (u0 & Hu0 & ->). apply fmap_Some in Hv as (v0 & Hv0 & ->).
  set (merged := mergedNodes newId near1 near2 c1 c2) in *.
  set (j := junctionOf newId near1 near2 c1 c2) in *.
  destruct (renameNode_image merged j u0) as [Eu|[Eu Hu]]; [by left|].
  destruct (renameNode_image merged j v0) as [Ev|[Ev Hv]]; [by right|].
  exfalso. rewrite Eu, Ev in Hedge.
  assert (countEdge crossed.1 (nodes w) ≤ 1)%nat as Hc1 by (by eapply once1).
  assert (countEdge crossed.2 (nodes w) ≤ 1)%nat as Hc2 by (by eapply once2).
  assert (near1 = false → countEdge crossed.1 l0 = 0%nat) as Hz1.
  { intros Hn. subst l0 l1. rewrite Hn. unfold splitUnless at 2.
    pose proof (countEdge_insertMidpoint_same crossed.1 newId (nodes w)
                  (proj1 new1) (proj2 new1) Hc1) as Hz.
    unfold splitUnless. destruct near2; [done|].
    pose proof (countEdge_insertMidpoint_le crossed.1 crossed.2 newId
                  (insertMidpoint crossed.1 newId (nodes w)) (proj1 new1) (proj2 new1)).
    lia. }
  assert (near2 = false → countEdge crossed.2 l0 = 0%nat) as Hz2.
  { intros Hn. subst l0. rewrite Hn. unfold splitUnless at 1.
    apply countEdge_insertMidpoint_same; [apply new2|apply new2|].
    subst l1. unfold splitUnless. destruct near1; [done|].
    pose proof (countEdge_insertMidpoint_le crossed.2 crossed.1 newId (nodes w)
                  (proj1 new2) (proj2 new2)).
    lia. }
  assert (∀ c, c ∈ merged → c ≠ u0 ∧ c ≠ v0) as Hfree.
  { intros c Hc. split; intros ->; done. }
  destruct Hedge as [Hedge|Hedge].
  - destruct near1 eqn:Hn1.
    + destruct (Hfree c1) as [? ?].
      { apply elem_of_mergedNodes. right. left. done. }
      apply edgeEqual_ends in Hedge. cbn [fst snd] in Hedge.
      destruct (end1 eq_refl) as [E|E]; destruct Hedge as [[? ?]|[? ?]]; congruence.
    + by rewrite (countEdge_zero _ _ _ _ _ (Hz1 eq_refl) Hu0 Hv0) in Hedge.
  - destruct near2 eqn:Hn2.
    + destruct (Hfree c2) as [? ?].
      { apply elem_of_mergedNodes. right. right. done. }
      apply edgeEqual_ends in Hedge. cbn [fst snd] in Hedge.
      destruct (end2 eq_refl) as [E|E]; destruct Hedge as [[? ?]|[? ?]]; congruence.
    + by rewrite (countEdge_zero _ _ _ _ _ (Hz2 eq_refl) Hu0 Hv0) in Hedge.
Qed.

Hypothesis keyed : wellKeyed graph.

(** Validating the connected graph reports no crossing between an edge that
    is one of the two crossed or ends in the junction and such an edge of the
    other. *)
Lemma connectedGraph_no_crossing (layer : Entity → string)
    (lineIntersection : Loc * Loc → Loc * Loc → option Loc)
    (tree : Tree) (primaryWay : Entity) (k : string) (crossings : list EdgeCrossing)
    (crossing : EdgeCrossing) :
  let graph' := connectedGraph newId toLoc connectionTags crossed near1 near2 c1 c2 graph in
  let j := junctionOf newId near1 near2 c1 c2 in
  indexesGraph tree graph' → graph' !! k = Some primaryWay →
  findCrossingsByWay layer lineIntersection primaryWay graph' tree = Some crossings →
  crossing ∈ crossings →
  ¬ (partOfCrossing crossed j (edges crossing).1
     ∧ partOfCrossing crossed j (edges crossing).2).
Proof.
  intros graph' j Htree Hprimary Hrun Hin [Hp1 Hp2].
  assert (wellKeyed graph') as Hkeyed
    by (apply connectedGraph_wellKeyed; assumption).
  destruct (findCrossingsByWay_sound _ _ _ _ _ _ _ Hrun Hin)
    as (i & nid1 & nid2 & a1 & a2 & ns & i' & b1 & b2 & Htp & Hw1 & Hi & HSi & Ha1 & Ha2
        & Hint & Htc & _ & Hns & Hb1 & Hb2 & Hedges & _).
  apply (findCrossingsByWay_edges_disjoint _ _ _ _ _ _ Hrun crossing Hin).
  assert (edgeHasNode j (edges crossing).1) as Hj1.
  { rewrite Hedges. cbn [fst snd]. rewrite (Hkeyed _ _ Ha1), (Hkeyed _ _ Ha2).
    rewrite Hedges in Hp1. cbn [fst snd] in Hp1.
    rewrite (Hkeyed _ _ Ha1), (Hkeyed _ _ Ha2) in Hp1.
    assert (edgeEqual (nid1, nid2) crossed.1 = true ∨ edgeEqual (nid1, nid2) crossed.2 = true
            ∨ edgeHasNode j (nid1, nid2)) as [H|[H|H]]; [exact Hp1|idtac..|done].
    - by apply (connectedGraph_edges k primaryWay i nid1 nid2 Hprimary Htp Hi HSi); left.
    - by apply (connectedGraph_edges k primaryWay i nid1 nid2 Hprimary Htp Hi HSi); right. }
  assert (edgeHasNode j (edges crossing).2) as Hj2.
  { unfold childNodes in Hns. apply mapM_Some_1 in Hns.
    destruct (Forall2_lookup_r _ _ _ _ _ Hns Hb1) as (kb1 & Hkb1 & Hrb1).
    destruct (Forall2_lookup_r _ _ _ _ _ Hns Hb2) as (kb2 & Hkb2 & Hrb2).
    unfold entity in Hrb1, Hrb2.
    rewrite Hedges. cbn [fst snd]. rewrite (Hkeyed _ _ Hrb1), (Hkeyed _ _ Hrb2).
    rewrite Hedges in Hp2. cbn [fst snd] in Hp2.
    rewrite (Hkeyed _ _ Hrb1), (Hkeyed _ _ Hrb2) in Hp2.
    pose proof (Htree _ _ Hint) as Hcand.
    assert (edgeEqual (kb1, kb2) crossed.1 = true ∨ edgeEqual (kb1, kb2) crossed.2 = true
            ∨ edgeHasNode j (kb1, kb2)) as [H|[H|H]]; [exact Hp2|idtac..|done].
    - by apply (connectedGraph_edges _ _ i' kb1 kb2 Hcand Htc Hkb1 Hkb2); left.
    - by apply (connectedGraph_edges _ _ i' kb1 kb2 Hcand Htc Hkb1 Hkb2); right. }
  unfold edgesShareNode, edgeHasNode in *.
  destruct Hj1 as [<-|<-], Hj2 as [E|E]; rewrite E; tauto.
Qed.

End ConnectedEdges.

(** ** The graph after the connect fix *)

Lemma executeFix_connected (geoSphericalClosestNode : list Entity → Loc → ClosestNodeInfo)
    (newId : string) (issue : Issue) (clicked : Fix) (connectionTags0 : Tags)
    (graph : Graph) (n1 n2 nA nB : Entity) :
  let crossed := info_edges (info issue) in
  let closest1 := geoSphericalClosestNode [n1; n2] (issue_loc issue) in
  let closest2 := geoSphericalClosestNode [nA; nB] (issue_loc issue) in
  onClick clicked = Some connectCrossingWays →
  connectionTags (info issue) = Some connectionTags0 →
  graph !! newId = None →
  isNodeOf graph crossed.1.1 n1 → isNodeOf graph crossed.1.2 n2 →
  isNodeOf graph crossed.2.1 nA → isNodeOf graph crossed.2.2 nB →
  executeFix geoSphericalClosestNode actionAddMidpoint actionMergeNodes
    newId issue clicked graph
  = Some (connectedGraph newId (issue_loc issue) connectionTags0 crossed
            (Qltb (distance closest1) (3 # 4)) (Qltb (distance closest2) (3 # 4))
            (id (closest_node closest1)) (id (closest_node closest2)) graph).
Proof.
  intros crossed closest1 closest2 Hclick Htags Hfresh Hn1 Hn2 HnA HnB.
  unfold executeFix. rewrite Hclick, Htags.
  unfold actionConnectCrossingWays, connectedGraph. cbn zeta. fold crossed.
  set (toLoc := issue_loc issue) in *.
  set (node0 := osmNode newId toLoc connectionTags0).
  assert (graph !! id node0 = None) as Hfresh0 by done.
  destruct (isNodeOf_replace graph node0 _ _ Hfresh0 Hn1) as [Hn1' Hne1].
  destruct (isNodeOf_replace graph node0 _ _ Hfresh0 Hn2) as [Hn2' Hne2].
  destruct (isNodeOf_replace graph node0 _ _ Hfresh0 HnA) as [HnA' HneA].
  destruct (isNodeOf_replace graph node0 _ _ Hfresh0 HnB) as [HnB' HneB].
  set (graph1 := replace graph node0) in *.
  rewrite (connectEdge_resolved geoSphericalClosestNode actionAddMidpoint toLoc node0
             (graph1, [id node0]) crossed.1 n1 n2 (proj1 Hn1') (proj1 Hn2')).
  fold closest1. cbn [mbind option_bind].
  destruct (Qltb (distance closest1) (3 # 4)); cbn [fst snd].
  - rewrite (connectEdge_resolved geoSphericalClosestNode actionAddMidpoint toLoc node0
               (graph1, _) crossed.2 nA nB (proj1 HnA') (proj1 HnB')).
    fold closest2. cbn [mbind option_bind].
    by destruct (Qltb (distance closest2) (3 # 4)).
  - assert (isNodeOf (actionAddMidpoint (toLoc, crossed.1) node0 graph1) crossed.2.1 nA)
      as HnA2 by (by apply node_after_actionAddMidpoint).
    assert (isNodeOf (actionAddMidpoint (toLoc, crossed.1) node0 graph1) crossed.2.2 nB)
      as HnB2 by (by apply node_after_actionAddMidpoint).
    rewrite (connectEdge_resolved geoSphericalClosestNode actionAddMidpoint toLoc node0
               (_, _) crossed.2 nA nB (proj1 HnA2) (proj1 HnB2)).
    fold closest2. cbn [mbind option_bind].
    by destruct (Qltb (distance closest2) (3 # 4)).
Qed.

Lemma isNodeOf_isNodeKey (graph : Graph) (i : string) (n : Entity) :
  isNodeOf graph i n → isNodeKey graph i.
Proof. intros (Hn & Hty & _). by exists n. Qed.

Lemma closest_is_end (geoSphericalClosestNode : list Entity → Loc → ClosestNodeInfo)
    (graph : Graph) (edge : string * string) (np nq : Entity) (l : Loc) :
  (∀ ns l, ns ≠ [] → closest_node (geoSphericalClosestNode ns l) ∈ ns) →
  isNodeOf graph edge.1 np → isNodeOf graph edge.2 nq →
  edgeHasNode (id (closest_node (geoSphericalClosestNode [np; nq] l))) edge
  ∧ isNodeKey graph (id (closest_node (geoSphericalClosestNode [np; nq] l))).
Proof.
  intros Hclosest Hp Hq.
  assert (closest_node (geoSphericalClosestNode [np; nq] l) ∈ [np; nq]) as Hin
    by (by apply Hclosest).
  apply elem_of_cons in Hin as [->|Hin].
  - destruct Hp as (Hp & Htp & ->). split; [by left|by exists np].
  - apply elem_of_cons in Hin as [->|Hin]; [|by apply elem_of_nil in Hin].
    destruct Hq as (Hq & Htq & ->). split; [by right|by exists nq].
Qed.


Lemma wellKeyed_decide (graph : Graph) :
  bool_decide (map_Forall (λ k e, id e = k) graph) = true → wellKeyed graph.
Proof. intros H%bool_decide_eq_true_1 k e. apply H. Qed.

Lemma passedAtMostOnce_decide (graph : Graph) (edge : string * string) :
  bool_decide (map_Forall (λ _ w, type w = way → (countEdge edge (nodes w) ≤ 1)%nat) graph)
  = true →
  passedAtMostOnce graph edge.
Proof. intros H%bool_decide_eq_true_1 k w. apply H. Qed.


